(** * aconfig: layered configuration loading

    A shallow embedding of the loader of [aconfig.go] and of the reflective
    field engine of [reflection.go], with the properties of the loader that
    the specification states.

    Conventions of the embedding.
    - Go strings are [string] (byte strings); the helpers of package
      [strings] are written out below for ASCII text.
    - A Go [map[string]T] whose iteration order is irrelevant is a
      [gmap string T]; where the code iterates a map and the order can be
      observed (the entries of a decoded mapping) the map is an association
      list, read in iteration order.
    - [error] results are a three-way [result]: success, a Go [error], or a
      run-time panic.
    - A [reflect.Value] handle is the content of the storage cell it
      addresses together with the cell's type; the destination record is a
      tree, so distinct leaf handles address disjoint cells. *)

From Stdlib Require Import ZArith String Ascii List Bool Lia.
From stdpp Require Import base option list strings gmap fin_maps.

Local Open Scope list_scope.
Local Open Scope stdpp_scope.

#[local] Set Warnings "-register-all".
#[local] Arguments String.append !s1 s2 : simpl nomatch.

(** ** Package [strings] *)

Module GoStrings.

Definition empty : string := EmptyString.

Definition isEmpty (s : string) : bool :=
  match s with EmptyString => true | String _ _ => false end.

(** [strings.HasPrefix s prefix]. *)
Fixpoint HasPrefix (s prefix : string) {struct prefix} : bool :=
  match prefix with
  | EmptyString => true
  | String c prefix' =>
      match s with
      | EmptyString => false
      | String d s' => if Ascii.eqb c d then HasPrefix s' prefix' else false
      end
  end.

Fixpoint drop (n : nat) (s : string) : string :=
  match n with
  | O => s
  | S n' => match s with EmptyString => EmptyString | String _ s' => drop n' s' end
  end.

(** [strings.Join elems sep]. *)
Fixpoint Join (elems : list string) (sep : string) : string :=
  match elems with
  | [] => EmptyString
  | [x] => x
  | x :: rest => String.append x (String.append sep (Join rest sep))
  end.

(** [strings.Split s sep] for a non-empty [sep]; an empty [sep] explodes
    [s] into its bytes. [skip] counts the bytes of a separator occurrence
    still to be passed over. *)
Fixpoint splitAux (sep : string) (skip : nat) (s : string) : list string :=
  match s with
  | EmptyString => [EmptyString]
  | String c s' =>
      match skip with
      | S k => splitAux sep k s'
      | O =>
          if HasPrefix s sep
          then EmptyString :: splitAux sep (String.length sep - 1) s'
          else match splitAux sep 0 s' with
               | h :: t => String c h :: t
               | [] => [String c EmptyString]
               end
      end
  end.

Fixpoint explode (s : string) : list string :=
  match s with
  | EmptyString => []
  | String c s' => String c EmptyString :: explode s'
  end.

Definition Split (s sep : string) : list string :=
  if isEmpty sep then explode s else splitAux sep 0 s.

(** ASCII white space, as [unicode.IsSpace] sees it below U+0080. *)
Definition isSpace (c : ascii) : bool :=
  let n := nat_of_ascii c in
  ((9 <=? n) && (n <=? 13)) || (n =? 32).

Fixpoint trimLeft (s : string) : string :=
  match s with
  | EmptyString => EmptyString
  | String c s' => if isSpace c then trimLeft s' else s
  end.

Fixpoint trimRight (s : string) : string :=
  match s with
  | EmptyString => EmptyString
  | String c s' =>
      match trimRight s' with
      | EmptyString => if isSpace c then EmptyString else String c EmptyString
      | t => String c t
      end
  end.

(** [strings.TrimSpace]. *)
Definition TrimSpace (s : string) : string := trimRight (trimLeft s).

Definition isUpper (c : ascii) : bool :=
  let n := nat_of_ascii c in (65 <=? n) && (n <=? 90).
Definition isLower (c : ascii) : bool :=
  let n := nat_of_ascii c in (97 <=? n) && (n <=? 122).
Definition isDigit (c : ascii) : bool :=
  let n := nat_of_ascii c in (48 <=? n) && (n <=? 57).

Definition toUpper (c : ascii) : ascii :=
  if isLower c then ascii_of_nat (nat_of_ascii c - 32) else c.
Definition toLower (c : ascii) : ascii :=
  if isUpper c then ascii_of_nat (nat_of_ascii c + 32) else c.

(** [strings.ToLower]. *)
Fixpoint ToLower (s : string) : string :=
  match s with
  | EmptyString => EmptyString
  | String c s' => String (toLower c) (ToLower s')
  end.

(** The word separators of [strings.Title]: ASCII letters, digits and the
    underscore are not separators, every other ASCII byte is; bytes of a
    multi-byte rune are taken as letters. *)
Definition isSeparator (c : ascii) : bool :=
  if (nat_of_ascii c <=? 127)
  then negb (isDigit c || isLower c || isUpper c || (nat_of_ascii c =? 95))
  else false.

Fixpoint titleFrom (prev : ascii) (s : string) : string :=
  match s with
  | EmptyString => EmptyString
  | String c s' =>
      String (if isSeparator prev then toUpper c else c) (titleFrom c s')
  end.

(** [strings.Title]: the first letter of every word is upper-cased, all
    other bytes are kept. *)
Definition Title (s : string) : string := titleFrom " "%char s.

(** [filepath.Ext]: the suffix from the last dot of the last path
    element, empty when that element has no dot. *)
Fixpoint Ext (path : string) : string :=
  match path with
  | EmptyString => EmptyString
  | String c rest =>
      match Ext rest with
      | String d e => String d e
      | EmptyString =>
          if Ascii.eqb c "."%char
          then (if existsb (Ascii.eqb "/"%char) (list_ascii_of_string rest)
                then EmptyString else path)
          else EmptyString
      end
  end.

(** Modelled from the spec: [cut] is declared outside the two source
    files; the key resolver uses it to split a declaration around a
    suffix marker, and it is taken to be Go's [strings.Cut]: the text
    before and after the first occurrence of [sep] and [true], or the
    whole text, the empty text and [false] when [sep] does not occur. *)
Fixpoint cut (s sep : string) : string * string * bool :=
  if HasPrefix s sep
  then (EmptyString, drop (String.length sep) s, true)
  else match s with
       | EmptyString => (EmptyString, EmptyString, false)
       | String c s' =>
           let '(before, after, ok) := cut s' sep in
           (String c before, after, ok)
       end.

End GoStrings.

Import GoStrings.

(** ** Errors and results *)

(** One constructor per [fmt.Errorf] site of the two files; [ErrWrap] is a
    [%w] wrapping with its context text. Errors raised by collaborators
    (the parsers of [strconv] and [time], a decoder, the flag parser, a
    [TextUnmarshaler]) are [ErrExternal]. *)
Inductive error : Type :=
| ErrWrap (context : string) (cause : error)
| ErrExternal (origin input : string)
| ErrDuplicateFlag (name : string)
| ErrFieldsRequired (names : string)
| ErrNotExist (file : string)
| ErrFormatNotSupported (ext : string)
| ErrUnknownField (file key : string)
| ErrFileFlagEmpty (flagName : string)
| ErrUnknownEnv (name : string)
| ErrUnknownFlag (name : string)
| ErrDuplicated (name : string)
| ErrKindNotSupported (kind : string)
| ErrIncorrectMapItem (item : string)
| ErrNoSuchField (name : string)
| ErrCannotSet (name : string).

(** The outcome of a Go call that returns an [error] and may panic. *)
Inductive result (A : Type) : Type :=
| Ok (a : A)
| Err (e : error)
| Panic (msg : string).
Arguments Ok {A} a.
Arguments Err {A} e.
Arguments Panic {A} msg.

Definition bind {A B : Type} (r : result A) (k : A -> result B) : result B :=
  match r with
  | Ok a => k a
  | Err e => Err e
  | Panic m => Panic m
  end.

Notation "'do' x <- r ; k" := (bind r (fun x => k))
  (at level 10, x name, r at level 100, k at level 200).
Notation "'do' ' p <- r ; k" := (bind r (fun x => let 'p := x in k))
  (at level 10, p pattern, r at level 100, k at level 200).

(** [fmt.Errorf("ctx: %w", err)] on the error branch of a call. *)
Definition wrapErr {A : Type} (context : string) (r : result A) : result A :=
  match r with
  | Err e => Err (ErrWrap context e)
  | other => other
  end.

Definition isOk {A : Type} (r : result A) : bool :=
  match r with Ok _ => true | _ => false end.

(** A loop body run over a slice, left to right, stopping at the first
    error or panic. *)
Fixpoint foldM {A S : Type} (body : S -> A -> result S) (xs : list A) (s : S)
  : result S :=
  match xs with
  | [] => Ok s
  | x :: rest => do s' <- body s x; foldM body rest s'
  end.

(** ** Untyped source values *)

(** What a source hands to the coercion engine as an [interface{}]:
    nothing, a string, another scalar (kept as its [fmt.Sprint] text), a
    slice, or a mapping. The entries of a mapping are listed in the order
    in which a [range] over it visits them. *)
Inductive any : Type :=
| ANil
| AString (s : string)
| AScalar (text : string)
| ASlice (items : list any)
| AMapSI (entries : list (string * any))
| AMapII (entries : list (any * any)).

Fixpoint any_eqb (a b : any) {struct a} : bool :=
  let fix items_eqb (xs ys : list any) {struct xs} : bool :=
    match xs, ys with
    | [], [] => true
    | x :: xs', y :: ys' => any_eqb x y && items_eqb xs' ys'
    | _, _ => false
    end in
  let fix si_eqb (xs ys : list (string * any)) {struct xs} : bool :=
    match xs, ys with
    | [], [] => true
    | (k, x) :: xs', (k', y) :: ys' =>
        String.eqb k k' && any_eqb x y && si_eqb xs' ys'
    | _, _ => false
    end in
  let fix ii_eqb (xs ys : list (any * any)) {struct xs} : bool :=
    match xs, ys with
    | [], [] => true
    | (k, x) :: xs', (k', y) :: ys' =>
        any_eqb k k' && any_eqb x y && ii_eqb xs' ys'
    | _, _ => false
    end in
  match a, b with
  | ANil, ANil => true
  | AString s, AString t => String.eqb s t
  | AScalar s, AScalar t => String.eqb s t
  | ASlice xs, ASlice ys => items_eqb xs ys
  | AMapSI xs, AMapSI ys => si_eqb xs ys
  | AMapII xs, AMapII ys => ii_eqb xs ys
  | _, _ => false
  end.

(** ** Package [reflect] *)

Module Reflect.

Inductive Kind : Type :=
| Invalid | Bool | Int | Int8 | Int16 | Int32 | Int64
| Uint | Uint8 | Uint16 | Uint32 | Uint64 | Uintptr
| Float32 | Float64 | Complex64 | Complex128
| Array | Chan | Func | Interface | Map | Ptr | Slice | String | Struct
| UnsafePointer.

Definition Kind_eqb (a b : Kind) : bool :=
  match a, b with
  | Invalid, Invalid | Bool, Bool | Int, Int | Int8, Int8 | Int16, Int16
  | Int32, Int32 | Int64, Int64 | Uint, Uint | Uint8, Uint8
  | Uint16, Uint16 | Uint32, Uint32 | Uint64, Uint64 | Uintptr, Uintptr
  | Float32, Float32 | Float64, Float64 | Complex64, Complex64
  | Complex128, Complex128 | Array, Array | Chan, Chan | Func, Func
  | Interface, Interface | Map, Map | Ptr, Ptr | Slice, Slice
  | String, String | Struct, Struct | UnsafePointer, UnsafePointer => true
  | _, _ => false
  end.

(** [Kind.String]. *)
Definition kindName (k : Kind) : string :=
  match k with
  | Invalid => "invalid" | Bool => "bool" | Int => "int" | Int8 => "int8"
  | Int16 => "int16" | Int32 => "int32" | Int64 => "int64"
  | Uint => "uint" | Uint8 => "uint8" | Uint16 => "uint16"
  | Uint32 => "uint32" | Uint64 => "uint64" | Uintptr => "uintptr"
  | Float32 => "float32" | Float64 => "float64"
  | Complex64 => "complex64" | Complex128 => "complex128"
  | Array => "array" | Chan => "chan" | Func => "func"
  | Interface => "interface" | Map => "map" | Ptr => "ptr"
  | Slice => "slice" | String => "string" | Struct => "struct"
  | UnsafePointer => "unsafe.Pointer"
  end.

(** The kinds without component types that this program inspects. *)
Inductive Basic : Type :=
| BBool | BInt | BInt8 | BInt16 | BInt32 | BInt64
| BUint | BUint8 | BUint16 | BUint32 | BUint64 | BUintptr
| BFloat32 | BFloat64 | BString | BInterface
| BComplex64 | BComplex128 | BArray | BChan | BFunc | BUnsafePointer.

Definition basicKind (b : Basic) : Kind :=
  match b with
  | BBool => Bool | BInt => Int | BInt8 => Int8 | BInt16 => Int16
  | BInt32 => Int32 | BInt64 => Int64 | BUint => Uint | BUint8 => Uint8
  | BUint16 => Uint16 | BUint32 => Uint32 | BUint64 => Uint64
  | BUintptr => Uintptr | BFloat32 => Float32 | BFloat64 => Float64
  | BString => String | BInterface => Interface
  | BComplex64 => Complex64 | BComplex128 => Complex128
  | BArray => Array | BChan => Chan | BFunc => Func
  | BUnsafePointer => UnsafePointer
  end.

(** The static part of a struct member: [reflect.StructField] without
    its type. [decl_exported] is [PkgPath == ""]. *)
Record FieldDecl : Type := mkFieldDecl {
  decl_name : string;
  decl_tag : gmap string string;
  decl_anonymous : bool;
  decl_exported : bool
}.

(** [reflect.Type]. [TDuration] is [time.Duration], of kind [Int64]. *)
Inductive rtype : Type :=
| TBasic (b : Basic)
| TDuration
| TStruct (members : list (FieldDecl * rtype))
| TSlice (elem : rtype)
| TMap (key elem : rtype)
| TPtr (elem : rtype).

Definition kindOf (t : rtype) : Kind :=
  match t with
  | TBasic b => basicKind b
  | TDuration => Int64
  | TStruct _ => Struct
  | TSlice _ => Slice
  | TMap _ _ => Map
  | TPtr _ => Ptr
  end.

(** The content of a storage cell. Floats are kept as IEEE bit patterns;
    a nil slice, map, pointer or interface is [None]. *)
Inductive rvalue : Type :=
| VBool (b : bool)
| VInt (z : Z)
| VUint (z : Z)
| VFloat (bits : Z)
| VString (s : string)
| VIface (v : option any)
| VStruct (members : list rvalue)
| VSlice (items : option (list rvalue))
| VMap (entries : option (list (rvalue * rvalue)))
| VPtr (pointee : option rvalue)
| VOpaque.

End Reflect.

Import Reflect.

Module ReflectOps.

Definition decl_eqb (a b : FieldDecl) : bool :=
  String.eqb (decl_name a) (decl_name b)
  && bool_decide (decl_tag a = decl_tag b)
  && Bool.eqb (decl_anonymous a) (decl_anonymous b)
  && Bool.eqb (decl_exported a) (decl_exported b).

Definition Basic_eqb (a b : Basic) : bool :=
  Kind_eqb (basicKind a) (basicKind b).

(** Identity of types, [t1 == t2] on [reflect.Type]. *)
Fixpoint rtype_eqb (a b : rtype) {struct a} : bool :=
  let fix members_eqb (xs ys : list (FieldDecl * rtype)) {struct xs} : bool :=
    match xs, ys with
    | [], [] => true
    | (d, t) :: xs', (d', t') :: ys' =>
        decl_eqb d d' && rtype_eqb t t' && members_eqb xs' ys'
    | _, _ => false
    end in
  match a, b with
  | TBasic x, TBasic y => Basic_eqb x y
  | TDuration, TDuration => true
  | TStruct xs, TStruct ys => members_eqb xs ys
  | TSlice x, TSlice y => rtype_eqb x y
  | TMap k x, TMap k' y => rtype_eqb k k' && rtype_eqb x y
  | TPtr x, TPtr y => rtype_eqb x y
  | _, _ => false
  end.

(** Equality of cell contents, as the keys of a Go map compare. *)
Fixpoint rvalue_eqb (a b : rvalue) {struct a} : bool :=
  let fix items_eqb (xs ys : list rvalue) {struct xs} : bool :=
    match xs, ys with
    | [], [] => true
    | x :: xs', y :: ys' => rvalue_eqb x y && items_eqb xs' ys'
    | _, _ => false
    end in
  let fix entries_eqb (xs ys : list (rvalue * rvalue)) {struct xs} : bool :=
    match xs, ys with
    | [], [] => true
    | (k, x) :: xs', (k', y) :: ys' =>
        rvalue_eqb k k' && rvalue_eqb x y && entries_eqb xs' ys'
    | _, _ => false
    end in
  match a, b with
  | VBool x, VBool y => Bool.eqb x y
  | VInt x, VInt y => Z.eqb x y
  | VUint x, VUint y => Z.eqb x y
  | VFloat x, VFloat y => Z.eqb x y
  | VString x, VString y => String.eqb x y
  | VIface None, VIface None => true
  | VIface (Some x), VIface (Some y) => any_eqb x y
  | VStruct xs, VStruct ys => items_eqb xs ys
  | VSlice None, VSlice None => true
  | VSlice (Some xs), VSlice (Some ys) => items_eqb xs ys
  | VMap None, VMap None => true
  | VMap (Some xs), VMap (Some ys) => entries_eqb xs ys
  | VPtr None, VPtr None => true
  | VPtr (Some x), VPtr (Some y) => rvalue_eqb x y
  | VOpaque, VOpaque => true
  | _, _ => false
  end.

(** [reflect.Zero]: the zero value of a type. *)
Fixpoint zero (t : rtype) : rvalue :=
  match t with
  | TBasic BBool => VBool false
  | TBasic (BInt | BInt8 | BInt16 | BInt32 | BInt64) => VInt 0
  | TBasic (BUint | BUint8 | BUint16 | BUint32 | BUint64 | BUintptr) => VUint 0
  | TBasic (BFloat32 | BFloat64) => VFloat 0
  | TBasic BString => VString EmptyString
  | TBasic BInterface => VIface None
  | TBasic _ => VOpaque
  | TDuration => VInt 0
  | TStruct members => VStruct (map (fun m => zero (snd m)) members)
  | TSlice _ => VSlice None
  | TMap _ _ => VMap None
  | TPtr _ => VPtr None
  end.

(** [Type.Bits] of the sized kinds, on a 64-bit platform. *)
Definition Bits (t : rtype) : nat :=
  match kindOf t with
  | Int8 | Uint8 => 8
  | Int16 | Uint16 => 16
  | Int32 | Uint32 | Float32 => 32
  | Int | Int64 | Uint | Uint64 | Uintptr | Float64 => 64
  | Complex64 => 64
  | Complex128 => 128
  | _ => 0
  end.

(** [reflect.StructField]; [sf_Type] is [None] for the zero
    [StructField{}], whose [Type] is nil. *)
Record StructField : Type := mkStructField {
  sf_Name : string;
  sf_Tag : gmap string string;
  sf_Type : option rtype;
  sf_Anonymous : bool
}.

Definition noStructField : StructField :=
  mkStructField EmptyString ∅ None false.

Definition structFieldOf (d : FieldDecl) (t : rtype) : StructField :=
  mkStructField (decl_name d) (decl_tag d) (Some t) (decl_anonymous d).

(** [StructTag.Get]. *)
Definition TagGet (tag : gmap string string) (key : string) : string :=
  default EmptyString (tag !! key).

(** A [reflect.Value] handle on a storage cell: the type and content of
    the cell it addresses now, the number of pointer cells it was moved
    through by [Elem] since it was taken, and its [CanSet] and [CanAddr]
    flags. *)
Record Value : Type := mkValue {
  vtype : rtype;
  vdata : rvalue;
  vptrs : nat;
  vCanSet : bool;
  vCanAddr : bool
}.

(** The content of the cell the handle was taken on: the addressed
    content behind [vptrs] non-nil pointers. *)
Definition stored (v : Value) : rvalue :=
  Nat.iter (vptrs v) (fun x => VPtr (Some x)) (vdata v).

(** [v.Set(x)]. *)
Definition Set_ (v : Value) (x : rvalue) : Value :=
  mkValue (vtype v) x (vptrs v) (vCanSet v) (vCanAddr v).

(** [reflect.New(t).Elem()]: a fresh addressable zero cell. *)
Definition NewElem (t : rtype) : Value := mkValue t (zero t) 0 true true.

(** [v.Index(i)] on a slice: the handle of the [i]-th element. *)
Definition cellOf (t : rtype) (x : rvalue) : Value := mkValue t x 0 true true.

(** [Type.FieldByName] and [Value.FieldByName] on the direct members of a
    struct: the position, declaration and type of the member called
    [name]. Members promoted from embedded structs are not searched. *)
Fixpoint FieldByName (members : list (FieldDecl * rtype)) (name : string)
  : option (nat * FieldDecl * rtype) :=
  match members with
  | [] => None
  | (d, t) :: rest =>
      if String.eqb (decl_name d) name then Some (0, d, t)
      else match FieldByName rest name with
           | Some (i, d', t') => Some (S i, d', t')
           | None => None
           end
  end.

(** [m.SetMapIndex(k, v)] on the entries of a map. *)
Fixpoint SetMapIndex (entries : list (rvalue * rvalue)) (k v : rvalue)
  : list (rvalue * rvalue) :=
  match entries with
  | [] => [(k, v)]
  | (k', v') :: rest =>
      if rvalue_eqb k' k then (k', v) :: rest
      else (k', v') :: SetMapIndex rest k v
  end.

End ReflectOps.

Import ReflectOps.

(** ** Data model of [aconfig.go] and [reflection.go] *)

(** [FileDecoder]: a format name and a decoding function. *)
Record FileDecoder : Type := mkFileDecoder {
  Format : string;
  DecodeFile : string -> result (gmap string any)
}.

(** [Config]. [Envs] and [Args] are [None] when nil; the [FileSystem] is
    seen through the collaborator [notExist] below. *)
Record Config : Type := mkConfig {
  NewParser : bool;
  SkipDefaults : bool;
  SkipFiles : bool;
  SkipEnv : bool;
  SkipFlags : bool;
  EnvPrefix : string;
  FlagPrefix : string;
  envDelimiter : string;
  FlagDelimiter : string;
  AllFieldRequired : bool;
  AllowDuplicates : bool;
  AllowUnknownFields : bool;
  AllowUnknownEnvs : bool;
  AllowUnknownFlags : bool;
  DontGenerateTags : bool;
  FailOnFileNotFound : bool;
  MergeFiles : bool;
  FileFlag : string;
  Files : list string;
  Envs : option (list string);
  Args : option (list string);
  FileDecoders : gmap string FileDecoder;
  SliceSeparator : string
}.

(** The zero [Config{}]. *)
Definition zeroConfig : Config :=
  mkConfig false false false false false EmptyString EmptyString EmptyString
    EmptyString false false false false false false false false EmptyString
    [] None None ∅ EmptyString.

(** [fieldData]: the descriptor of one field. *)
Inductive fieldData : Type := mkFieldData {
  name : string;
  parent : option fieldData;
  field : StructField;
  value : Value;
  isSet : bool;
  isRequired : bool;
  tags : gmap string string
}.

(** [f.Tag(tag)]. *)
Definition Tag (f : fieldData) (tag : string) : string :=
  match tags f !! tag with
  | Some t => t
  | None => TagGet (sf_Tag (field f)) tag
  end.

Definition setValue (f : fieldData) (v : Value) : fieldData :=
  mkFieldData (name f) (parent f) (field f) v (isSet f) (isRequired f) (tags f).

Definition setIsSet (f : fieldData) (b : bool) : fieldData :=
  mkFieldData (name f) (parent f) (field f) (value f) b (isRequired f) (tags f).

Definition setFieldType (f : fieldData) (t : option rtype) : fieldData :=
  mkFieldData (name f) (parent f)
    (mkStructField (sf_Name (field f)) (sf_Tag (field f)) t
       (sf_Anonymous (field f)))
    (value f) (isSet f) (isRequired f) (tags f).

(** ** The key resolver *)

(** The loop of [fullTag] over the parent chain, innermost parent first:
    every ancestor whose declaration is not the exclusion marker is put,
    with the delimiter, in front of the key built so far. *)
Fixpoint parentChainFrom (sep : string) (p : fieldData) (tag : string)
  (res : string) : string :=
  let res' :=
    if String.eqb (Tag p tag) "-" then res
    else String.append (Tag p tag) (String.append sep res) in
  match parent p with
  | None => res'
  | Some q => parentChainFrom sep q tag res'
  end.

Definition parentChain (sep : string) (p : option fieldData) (tag : string)
  (res : string) : string :=
  match p with
  | None => res
  | Some q => parentChainFrom sep q tag res
  end.

(** [l.fullTag(prefix, f, tag)]; [delimiter] is its choice of [sep]. *)
Definition delimiter (config : Config) (tag : string) : string :=
  let sep := "." in
  let sep := if String.eqb tag "flag" then FlagDelimiter config else sep in
  let sep := if String.eqb tag "env" then envDelimiter config else sep in
  sep.

Definition fullTag (config : Config) (prefix : string) (f : fieldData)
  (tag : string) : string :=
  let sep := delimiter config tag in
  let res := Tag f tag in
  if String.eqb res "-" then EmptyString
  else
    let '(before, _, ok) := cut res ",exact" in
    if ok then before
    else
      let '(before, _, ok) := cut res ",omitempty" in
      if ok then before
      else String.append prefix (parentChain sep (parent f) tag res).

(** The part of [l.init] that normalises the configuration: the delimiters,
    the prefixes, and the slice separator. *)
Definition initDelimiters (c : Config) : Config :=
  let flagDelimiter :=
    if isEmpty (FlagDelimiter c) then "." else FlagDelimiter c in
  let envPrefix :=
    if isEmpty (EnvPrefix c) then EnvPrefix c
    else String.append (EnvPrefix c) "_" in
  let flagPrefix :=
    if isEmpty (FlagPrefix c) then FlagPrefix c
    else String.append (FlagPrefix c) flagDelimiter in
  mkConfig (NewParser c) (SkipDefaults c) (SkipFiles c) (SkipEnv c)
    (SkipFlags c) envPrefix flagPrefix "_" flagDelimiter
    (AllFieldRequired c) (AllowDuplicates c) (AllowUnknownFields c)
    (AllowUnknownEnvs c) (AllowUnknownFlags c) (DontGenerateTags c)
    (FailOnFileNotFound c) (MergeFiles c) (FileFlag c) (Files c) (Envs c)
    (Args c) (FileDecoders c) (SliceSeparator c).

(** ** Package [flag] *)

(** [flag.FlagSet]: its name, the flags defined on it with their default
    and usage, and whether [Parse] was called. What [Parse] stores is seen
    through the collaborators [getFlags] and [getActualFlag]. *)
Record FlagSet : Type := mkFlagSet {
  flagSetName : string;
  formal : list (string * (string * string));
  Parsed : bool;
  parsedArgs : list string
}.

Definition NewFlagSet (name : string) : FlagSet := mkFlagSet name [] false [].

Fixpoint containsByte (c : ascii) (s : string) : bool :=
  match s with
  | EmptyString => false
  | String.String d s' => Ascii.eqb c d || containsByte c s'
  end.

(** [flagSet.String(name, value, usage)]: defining a flag panics on a name
    that begins with a dash, contains an equals sign, or is defined. *)
Definition FlagSetString (fs : FlagSet) (name value usage : string)
  : result FlagSet :=
  if HasPrefix name "-" then Panic "flag begins with -"
  else if containsByte "="%char name then Panic "flag contains ="
  else if existsb (fun fl => String.eqb (fst fl) name) (formal fs)
  then Panic "flag redefined"
  else Ok (mkFlagSet (flagSetName fs) (formal fs ++ [(name, (value, usage))])
             (Parsed fs) (parsedArgs fs)).

(** ** The reflective field engine of [reflection.go] *)

(** [strconv.ParseBool]. *)
Definition ParseBool (s : string) : result bool :=
  if existsb (String.eqb s) ["1"; "t"; "T"; "TRUE"; "true"; "True"] then Ok true
  else if existsb (String.eqb s) ["0"; "f"; "F"; "FALSE"; "false"; "False"]
  then Ok false
  else Err (ErrExternal "strconv.ParseBool" s).

(** The outcome of a collaborator that returns a value or an error. *)
Definition lift {A : Type} (r : error + A) : result A :=
  match r with inl e => Err e | inr a => Ok a end.

(** [t.Elem()] and [t.Key()] on a possibly nil [reflect.Type]. *)
Definition typeElem (t : option rtype) : result rtype :=
  match t with
  | None => Panic "nil pointer dereference"
  | Some (TSlice e) | Some (TPtr e) | Some (TMap _ e) => Ok e
  | Some _ => Panic "reflect: Elem of invalid type"
  end.

Definition typeKey (t : option rtype) : result rtype :=
  match t with
  | None => Panic "nil pointer dereference"
  | Some (TMap k _) => Ok k
  | Some _ => Panic "reflect: Key of non-map type"
  end.

(** The pointer loop of [setFieldData]: while the addressed cell is a
    pointer, a nil pointer is given a fresh zero pointee and the handle
    moves to the pointee. *)
Fixpoint unwrapPointers (t : rtype) (x : rvalue) (n : nat) : rtype * rvalue * nat :=
  match t with
  | TPtr e =>
      match x with
      | VPtr (Some y) => unwrapPointers e y (S n)
      | _ => unwrapPointers e (zero e) (S n)
      end
  | _ => (t, x, n)
  end.

Definition unwrap (v : Value) : Value :=
  match vtype v with
  | TPtr _ =>
      let '(t, x, n) := unwrapPointers (vtype v) (vdata v) (vptrs v) in
      mkValue t x n (vCanSet v) true
  | _ => v
  end.

(** [value == ""] on an [interface{}]. *)
Definition isEmptyString (v : any) : bool :=
  match v with AString s => isEmpty s | _ => false end.

(** The size of a type, the measure of the recursion of [setFieldData]. *)
Fixpoint typeSize (t : rtype) : nat :=
  match t with
  | TBasic _ | TDuration => 1
  | TStruct members =>
      S ((fix sum (ms : list (FieldDecl * rtype)) : nat :=
            match ms with
            | [] => 0
            | (_, t') :: rest => typeSize t' + sum rest
            end) members)
  | TSlice e | TPtr e => S (typeSize e)
  | TMap k e => S (typeSize k + typeSize e)
  end.

Definition fieldMeasure (f : fieldData) : nat :=
  Nat.max (match sf_Type (field f) with Some t => typeSize t | None => 0 end)
          (typeSize (vtype (value f))).

(** [v.Set(x)] where [x] has type [t]: the types must agree. *)
Definition SetTyped (v : Value) (t : rtype) (x : rvalue) : result Value :=
  if rtype_eqb t (vtype v) then Ok (Set_ v x)
  else Panic "reflect.Set: value is not assignable".

(** [mii]. *)
Fixpoint stringKeys (entries : list (any * any)) : result (list (string * any)) :=
  match entries with
  | [] => Ok []
  | (AString k, v) :: rest => do rest' <- stringKeys rest; Ok ((k, v) :: rest')
  | _ => Panic "interface conversion: interface {} is not string"
  end.

Definition mii (m : any) : result (list (string * any)) :=
  match m with
  | AMapSI entries => Ok entries
  | AMapII entries => stringKeys entries
  | _ => Panic "mii: not a mapping"
  end.

Section Engine.

(** Helpers of [utils.go], which is not among the source files, and
    library calls whose results are data the engine only passes on. *)
Variable makeName : string -> option fieldData -> string.
Variable splitNameByWords : string -> list string.
Variable makeTagValue : Config -> StructField -> string -> list string -> string.
Variable isPrimitive : rtype -> bool.
Variable sliceToString : Config -> any -> string.
(** [fmt.Sprint] of a slice or a mapping. *)
Variable SprintComposite : any -> string.
(** [strconv.ParseInt(s, 0, bits)], [strconv.ParseUint(s, 0, bits)],
    [strconv.ParseFloat(s, bits)] and [time.ParseDuration(s)]. *)
Variable ParseInt : string -> nat -> error + Z.
Variable ParseUint : string -> nat -> error + Z.
Variable ParseFloat : string -> nat -> error + Z.
Variable ParseDuration : string -> error + Z.
(** The types whose pointer implements [encoding.TextUnmarshaler], with
    the effect of [UnmarshalText] on the cell. *)
Variable textUnmarshaler : rtype -> option (string -> rvalue -> error + rvalue).

Section WithConfig.

Variable config : Config.

(** [fmt.Sprint(value)]. *)
Definition Sprint (v : any) : string :=
match v with
| ANil => "<nil>"
| AString s => s
| AScalar text => text
| other => SprintComposite other
end.

(** [l.tagsForField(field)]. *)
Definition tagsForField (sf : StructField) : gmap string string :=
let words := splitNameByWords (sf_Name sf) in
let tags : gmap string string :=
<["flag" := makeTagValue config sf "flag" words]>
(<["env" := makeTagValue config sf "env" words]>
(<["usage" := TagGet (sf_Tag sf) "usage"]>
(<["default" := TagGet (sf_Tag sf) "default"]> ∅))) in
foldr (fun dec acc =>
       <[Format dec := makeTagValue config sf (Format dec) words]> acc)
tags (map snd (map_to_list (FileDecoders config))).

(** [l.newFieldData(field, value, parent)]. *)
Definition newFieldData (sf : StructField) (v : Value)
(p : option fieldData) : result fieldData :=
let requiredTag := TagGet (sf_Tag sf) "required" in
if negb (isEmpty requiredTag) && negb (String.eqb requiredTag "true")
then Panic "aconfig: incorrect value for 'required' tag"
else Ok (mkFieldData (makeName (sf_Name sf) p) p sf v false
         (String.eqb requiredTag "true") (tagsForField sf)).

(** [l.newSimpleFieldData(value)]. *)
Definition newSimpleFieldData (v : Value) : result fieldData :=
newFieldData noStructField v None.

Definition setBool (f : fieldData) (s : string) : result fieldData :=
do val <- ParseBool s;
Ok (setValue f (Set_ (value f) (VBool val))).

Definition setInt (f : fieldData) (s : string) : result fieldData :=
do val <- lift (ParseInt s (Bits (vtype (value f))));
Ok (setValue f (Set_ (value f) (VInt val))).

Definition setInt64 (f : fieldData) (s : string) : result fieldData :=
match sf_Type (field f) with
| Some TDuration =>
  do val <- lift (ParseDuration s);
  do v <- SetTyped (value f) TDuration (VInt val);
  Ok (setValue f v)
| _ => setInt f s
end.

Definition setUint (f : fieldData) (s : string) : result fieldData :=
do val <- lift (ParseUint s (Bits (vtype (value f))));
Ok (setValue f (Set_ (value f) (VUint val))).

Definition setFloat (f : fieldData) (s : string) : result fieldData :=
do val <- lift (ParseFloat s (Bits (vtype (value f))));
Ok (setValue f (Set_ (value f) (VFloat val))).

Definition setString (f : fieldData) (s : string) : result fieldData :=
Ok (setValue f (Set_ (value f) (VString s))).

Definition setInterface (f : fieldData) (v : any) : result fieldData :=
Ok (setValue f (Set_ (value f) (VIface (Some v)))).

(** *** Composite kinds

[setSlice], [setMap] and [m2s] call back into [setFieldData]; they
are written over the callee [rec], which [setFieldData] ties below. *)
Section Composite.

Variable rec : fieldData -> any -> result fieldData.

Definition bytesOf (s : string) : list rvalue :=
map (fun c => VUint (Z.of_nat (nat_of_ascii c))) (list_ascii_of_string s).

(** One element of a freshly made slice of element type [elemT]:
a descriptor on the zero cell, declared of type [declT], is set
from [x]; the element's content results. *)
Definition sliceItem (elemT : rtype) (declT : option rtype) (x : any)
: result rvalue :=
do fd <- newFieldData noStructField (cellOf elemT (zero elemT)) None;
do fd' <- rec (setFieldType fd declT) x;
Ok (stored (value fd')).

Fixpoint mapM {A B : Type} (g : A -> result B) (xs : list A)
: result (list B) :=
match xs with
| [] => Ok []
| x :: rest => do y <- g x; do ys <- mapM g rest; Ok (y :: ys)
end.

(** [l.setSlice(field, value)]. *)
Definition setSlice (f : fieldData) (s : string) : result fieldData :=
do e <- typeElem (sf_Type (field f));
if Kind_eqb (kindOf e) Uint8 then
do v <- SetTyped (value f) (TSlice (TBasic BUint8))
        (VSlice (Some (bytesOf s)));
Ok (setValue f v)
else
let vals := Split s (SliceSeparator config) in
match sf_Type (field f) with
| Some (TSlice elemT) =>
  do items <- mapM (fun val =>
                let val := TrimSpace val in
                wrapErr (String.append "incorrect slice item " val)
                  (sliceItem elemT (Some e) (AString val))) vals;
  do v <- SetTyped (value f) (TSlice elemT) (VSlice (Some items));
  Ok (setValue f v)
| _ => Panic "reflect.MakeSlice of non-slice type"
end.

(** The non-primitive branch of the [reflect.Slice] case. *)
Definition setSliceOfValues (f : fieldData) (v : any) : result fieldData :=
match v with
| ASlice items =>
match sf_Type (field f) with
| Some (TSlice elemT) =>
    do v0 <- SetTyped (value f) (TSlice elemT)
               (VSlice (Some (map (fun _ => zero elemT) items)));
    do items' <- mapM (sliceItem elemT None) items;
    Ok (setValue f (Set_ v0 (VSlice (Some items'))))
| _ => Panic "reflect.MakeSlice of non-slice type"
end
| _ => Panic "setFieldData: value is not a slice"
end.

(** One entry of a map under construction: the key and the value are
set on fresh cells and stored with [SetMapIndex], which panics
when a cell is not of the map's key or element type. *)
Definition mapEntry (f : fieldData) (keyT elemT : rtype)
(entries : list (rvalue * rvalue)) (key : string) (val : any)
: result (list (rvalue * rvalue)) :=
do kt <- typeKey (sf_Type (field f));
do fdk <- newSimpleFieldData (NewElem kt);
do fdk' <- wrapErr (String.append "incorrect map key " key)
         (rec fdk (AString key));
do et <- typeElem (Some (vtype (value f)));
do fdv <- newFieldData noStructField (NewElem et) (Some f);
do fdv' <- wrapErr (String.append "incorrect map value " (Sprint val))
         (rec (setFieldType fdv (Some et)) val);
if rtype_eqb (vtype (value fdk')) keyT
 && rtype_eqb (vtype (value fdv')) elemT
then Ok (SetMapIndex entries (vdata (value fdk')) (vdata (value fdv')))
else Panic "reflect.Value.SetMapIndex: value is not assignable".

Definition storeMap (f : fieldData) (keyT elemT : rtype)
(entries : list (rvalue * rvalue)) : result fieldData :=
do v <- SetTyped (value f) (TMap keyT elemT) (VMap (Some entries));
Ok (setValue f v).

(** [l.setMap(field, value)]. *)
Definition setMap (f : fieldData) (s : string) : result fieldData :=
let vals := Split s "," in
match sf_Type (field f) with
| Some (TMap keyT elemT) =>
do entries <- foldM (fun acc val =>
                let '(k, v, ok) := cut val ":" in
                if negb ok then Err (ErrIncorrectMapItem val)
                else mapEntry f keyT elemT acc (TrimSpace k)
                       (AString (TrimSpace v))) vals [];
storeMap f keyT elemT entries
| _ => Panic "reflect.MakeMapWithSize of non-map type"
end.

(** The [map[string]interface{}] branch of the [reflect.Map] case. *)
Definition setMapOfValues (f : fieldData) (m : list (string * any))
: result fieldData :=
match sf_Type (field f) with
| Some (TMap keyT elemT) =>
do entries <- foldM (fun acc kv =>
                mapEntry f keyT elemT acc (fst kv) (snd kv)) m [];
storeMap f keyT elemT entries
| _ => Panic "reflect.MakeMapWithSize of non-map type"
end.

(** One iteration of the loop of [m2s]. *)
Definition m2sEntry (structValue : Value) (entry : string * any)
: result Value :=
let name := Title (fst entry) in
match vtype structValue, vdata structValue with
| TStruct members, VStruct vals =>
match FieldByName members name with
| None => Err (ErrNoSuchField name)
| Some (i, d, t) =>
    if negb (vCanSet structValue && decl_exported d)
    then Err (ErrCannotSet name)
    else
      do fd <- newFieldData (structFieldOf d t)
                 (cellOf t (nth i vals (zero t))) None;
      do fd' <- rec fd (snd entry);
      Ok (Set_ structValue
            (VStruct (<[i := stored (value fd')]> vals)))
end
| _, _ => Panic "reflect: FieldByName of non-struct type"
end.

(** [l.m2s(m, structValue)]; the entries are visited in the order of
the list. *)
Definition m2s (m : list (string * any)) (structValue : Value)
: result Value :=
foldM m2sEntry m structValue.

(** The body of [l.setFieldData(field, value)]. *)
Definition setFieldDataBody (f : fieldData) (v : any) : result fieldData :=
match v with
| ANil => Ok f
| _ =>
let f := setValue f (unwrap (value f)) in
if isEmptyString v then Ok f
else
  match (if vCanAddr (value f)
         then textUnmarshaler (vtype (value f)) else None) with
  | Some unmarshalText =>
      do x <- lift (unmarshalText (Sprint v) (vdata (value f)));
      Ok (setValue f (Set_ (value f) x))
  | None =>
      match kindOf (vtype (value f)) with
      | Bool => setBool f (Sprint v)
      | String => setString f (Sprint v)
      | Int | Int8 | Int16 | Int32 => setInt f (Sprint v)
      | Int64 => setInt64 f (Sprint v)
      | Uint | Uint8 | Uint16 | Uint32 | Uint64 | Uintptr =>
          setUint f (Sprint v)
      | Float32 | Float64 => setFloat f (Sprint v)
      | Interface => setInterface f v
      | Struct =>
          do fd <- newFieldData noStructField (value f) None;
          do m <- mii v;
          do sv <- m2s m (value fd);
          Ok (setValue f sv)
      | Slice =>
          do e <- typeElem (sf_Type (field f));
          if isPrimitive e then setSlice f (sliceToString config v)
          else setSliceOfValues f v
      | Map =>
          match v with
          | AMapSI m => setMapOfValues f m
          | _ => setMap f (Sprint v)
          end
      | kind => Err (ErrKindNotSupported (kindName kind))
      end
  end
end.

End Composite.

Definition outOfFuel : string := "setFieldData: recursion deeper than the type".

(** [setFieldData] with its recursion bounded by [fuel]. *)
Fixpoint setFieldDataFuel (fuel : nat) (f : fieldData) (v : any)
: result fieldData :=
match fuel with
| O => Panic outOfFuel
| S fuel' => setFieldDataBody (setFieldDataFuel fuel') f v
end.

(** [l.setFieldData(field, value)]: every nested call is on a strictly
smaller type, so the size of the types at hand bounds the depth. *)
Definition setFieldData (f : fieldData) (v : any) : result fieldData :=
setFieldDataFuel (S (fieldMeasure f)) f v.

(** *** The schema walker *)

(** The loop of [getFieldsHelper] over the members [ms] of a struct and
    their contents [vs]; [helper] is [getFieldsHelper] itself, called on
    the members that are structs or pointers to structs. The result is the
    descriptors and the contents of the members after the walk. *)
Definition walkMembers
  (helper : rtype -> rvalue -> bool -> option fieldData
            -> result (list fieldData * rvalue))
  (canSet : bool) (parent : option fieldData)
  : list (FieldDecl * rtype) -> list rvalue
    -> result (list fieldData * list rvalue) :=
  fix loop (ms : list (FieldDecl * rtype)) (vs : list rvalue) {struct ms} :=
    match ms with
    | [] => Ok ([], [])
    | (d, ft) :: ms' =>
        let value := hd (zero ft) vs in
        if negb (canSet && decl_exported d) then
          do '(fields, out) <- loop ms' (tl vs);
          Ok (fields, value :: out)
        else
          do fd <- newFieldData (structFieldOf d ft) (cellOf ft value) parent;
          let subFieldParent :=
            if decl_anonymous d then parent else Some fd in
          match ft with
          | TStruct _ =>
              do '(sub, value') <- helper ft value true subFieldParent;
              do '(fields, out) <- loop ms' (tl vs);
              Ok (sub ++ fields, value' :: out)
          | TPtr (TStruct _ as st) =>
              do '(sub, value') <- helper st (zero st) true subFieldParent;
              do '(fields, out) <- loop ms' (tl vs);
              Ok (sub ++ fields, VPtr (Some value') :: out)
          | _ =>
              do '(fields, out) <- loop ms' (tl vs);
              Ok (fd :: fields, value :: out)
          end
    end.

(** [l.getFieldsHelper(valueObject, parent)] on a struct of type [t] and
    content [x]: the leaf descriptors in declaration order, and the
    content of the struct after the walk. [canSet] tells whether
    [valueObject] is settable. *)
Fixpoint getFieldsHelper (t : rtype) (x : rvalue) (canSet : bool)
  (parent : option fieldData) {struct t}
  : result (list fieldData * rvalue) :=
  match t with
  | TStruct members =>
      do '(fields, out) <- walkMembers getFieldsHelper canSet parent members
                             (match x with VStruct vs => vs | _ => [] end);
      Ok (fields, VStruct out)
  | _ => Panic "reflect: NumField of non-struct type"
  end.

(** The pointer loop of [getFields]: [value.Elem()] down to the first
non-pointer; the [Elem] of a nil pointer has no type. The result
carries the content reached and the number of pointers passed. *)
Fixpoint derefAll (t : rtype) (x : rvalue) (n : nat)
: result (rtype * rvalue * nat) :=
match t with
| TPtr e =>
  match x with
  | VPtr (Some y) => derefAll e y (S n)
  | _ => Panic "reflect: call of Type on zero Value"
  end
| _ => Ok (t, x, n)
end.

(** [l.getFields(x)]: the descriptors, and the content of [x] after the
walk. A struct reached through a pointer is settable. *)
Definition getFields (t : rtype) (x : rvalue)
: result (list fieldData * rvalue) :=
do '(t', x', n) <- derefAll t x 0;
do '(fields, x'') <- getFieldsHelper t' x' (0 <? n)%nat None;
Ok (fields, Nat.iter n (fun y => VPtr (Some y)) x'').

End WithConfig.

(** ** The loader of [aconfig.go] *)

(** Helpers of [utils.go] and collaborators of the loader: the file
    system, the process environment and arguments, the flag parser, the
    built-in JSON decoder, and the new struct parser, none of which is
    among the source files. *)
Variable find : gmap string any -> string -> gmap string any.
Variable getEnv : list string -> gmap string any.
Variable getFlags : FlagSet -> gmap string any.
Variable getActualFlag : string -> FlagSet -> option string.
Variable flagParse : FlagSet -> list string -> error + FlagSet.
Variable assertStruct : rtype -> rvalue -> option string.
Variable notExist : string -> bool.
Variable osEnviron : list string.
Variable osArgs : list string.
Variable jsonDecoder : FileDecoder.
Variable structParser : Type.
Variable newStructParser : Config -> structParser.
Variable parseStruct : structParser -> rtype -> rvalue -> error + structParser.
Variable parserFlagSet : structParser -> FlagSet.
Variable applyLevel :
  structParser -> string -> gmap string any -> error + structParser.
Variable applyFlat :
  structParser -> string -> gmap string any -> error + structParser.
Variable apply : structParser -> rtype -> rvalue -> error + rvalue.

(** [Loader]. *)
Record Loader : Type := mkLoader {
  config : Config;
  dstType : rtype;
  dst : rvalue;
  parser : option structParser;
  fields : list fieldData;
  flagSet : option FlagSet;
  errInit : option error
}.

Definition withConfig (l : Loader) (c : Config) : Loader :=
  mkLoader c (dstType l) (dst l) (parser l) (fields l) (flagSet l) (errInit l).
Definition withFields (l : Loader) (fs : list fieldData) : Loader :=
  mkLoader (config l) (dstType l) (dst l) (parser l) fs (flagSet l) (errInit l).
Definition withParser (l : Loader) (p : structParser) : Loader :=
  mkLoader (config l) (dstType l) (dst l) (Some p) (fields l) (flagSet l)
    (errInit l).
Definition withDst (l : Loader) (x : rvalue) : Loader :=
  mkLoader (config l) (dstType l) x (parser l) (fields l) (flagSet l) (errInit l).
Definition withFlagSet (l : Loader) (fs : FlagSet) : Loader :=
  mkLoader (config l) (dstType l) (dst l) (parser l) (fields l) (Some fs)
    (errInit l).
Definition withErrInit (l : Loader) (e : error) : Loader :=
  mkLoader (config l) (dstType l) (dst l) (parser l) (fields l) (flagSet l)
    (Some e).

Definition withSources (c : Config) (files : list string)
  (envs args : option (list string)) (decoders : gmap string FileDecoder)
  (sliceSeparator : string) : Config :=
  mkConfig (NewParser c) (SkipDefaults c) (SkipFiles c) (SkipEnv c)
    (SkipFlags c) (EnvPrefix c) (FlagPrefix c) (envDelimiter c)
    (FlagDelimiter c) (AllFieldRequired c) (AllowDuplicates c)
    (AllowUnknownFields c) (AllowUnknownEnvs c) (AllowUnknownFlags c)
    (DontGenerateTags c) (FailOnFileNotFound c) (MergeFiles c) (FileFlag c)
    files envs args decoders sliceSeparator.

Definition withFiles (c : Config) (files : list string) : Config :=
  withSources c files (Envs c) (Args c) (FileDecoders c) (SliceSeparator c).

(** The defaults that [l.init] fills in next to the delimiters: the JSON
    decoder, the process environment and the process arguments. *)
Definition initSources (c : Config) : Config :=
  withSources c (Files c)
    (Some (match Envs c with Some envs => envs | None => osEnviron end))
    (Some (match Args c with Some args => args | None => osArgs end))
    (match FileDecoders c !! ".json" with
     | Some _ => FileDecoders c
     | None => <[".json" := jsonDecoder]> (FileDecoders c)
     end)
    (SliceSeparator c).

Definition initSliceSeparator (c : Config) : Config :=
  withSources c (Files c) (Envs c) (Args c) (FileDecoders c)
    (if isEmpty (SliceSeparator c) then "," else SliceSeparator c).

(** The flag registration loop of [l.init]: the outcome is the flag set
    and, when a name is met twice and duplicates are not allowed, the
    error that [init] stores. *)
Fixpoint registerFlags (c : Config) (fs : list fieldData)
  (names : gset string) (flags : FlagSet) : result (option error * FlagSet) :=
  match fs with
  | [] => Ok (None, flags)
  | f :: rest =>
      let flagName := fullTag c (FlagPrefix c) f "flag" in
      if isEmpty flagName then registerFlags c rest names flags
      else if bool_decide (flagName ∈ names) && negb (AllowDuplicates c)
      then Ok (Some (ErrDuplicateFlag flagName), flags)
      else
        do flags' <- FlagSetString flags flagName (Tag f "default")
                       (Tag f "usage");
        registerFlags c rest ({[flagName]} ∪ names) flags'
  end.

(** The tail of [l.init]: the config-file flag and the slice separator. *)
Definition initTail (l : Loader) (flags : FlagSet) : result Loader :=
  do flags' <- (if isEmpty (FileFlag (config l)) then Ok flags
                else FlagSetString flags (FileFlag (config l)) EmptyString
                       "config file param");
  Ok (withConfig (withFlagSet l flags') (initSliceSeparator (config l))).

(** [l.init()]. *)
Definition init (l : Loader) : result Loader :=
  let c := initSources (initDelimiters (config l)) in
  let l := withConfig l c in
  if NewParser c then
    let p := newStructParser c in
    match parseStruct p (dstType l) (dst l) with
    | inl err => Ok (withErrInit (withParser l p) err)
    | inr p' =>
        let l := withParser l p' in
        initTail l (if SkipFlags c then NewFlagSet (FlagPrefix c)
                    else parserFlagSet p')
    end
  else
    do '(fs, x) <- getFields c (dstType l) (dst l);
    let l := withDst (withFields l fs) x in
    let flags := NewFlagSet (FlagPrefix c) in
    if SkipFlags c then initTail l flags
    else
      do '(err, flags') <- registerFlags c fs ∅ flags;
      match err with
      | Some e => Ok (withErrInit (withFlagSet l flags') e)
      | None => initTail l flags'
      end.

(** [LoaderFor(dst, cfg)]. *)
Definition LoaderFor (t : rtype) (x : rvalue) (cfg : Config) : result Loader :=
  match assertStruct t x with
  | Some msg => Panic msg
  | None => init (mkLoader cfg t x None [] None None)
  end.

(** A loop over [l.fields] whose body updates the field at hand and a
    state local to the pass; it stops at the first error. *)
Fixpoint forFields {S : Type} (body : S -> fieldData -> result (S * fieldData))
  (fs : list fieldData) (s : S) : result (S * list fieldData) :=
  match fs with
  | [] => Ok (s, [])
  | f :: rest =>
      do '(s', f') <- body s f;
      do '(s'', rest') <- forFields body rest s';
      Ok (s'', f' :: rest')
  end.

(** [l.parseFlags()]. *)
Definition parseFlags (l : Loader) : result Loader :=
  match flagSet l with
  | None => Panic "nil pointer dereference"
  | Some flags =>
      if Parsed flags || SkipFlags (config l) then Ok l
      else
        do flags' <- lift (flagParse flags (default [] (Args (config l))));
        Ok (withFlagSet l flags')
  end.

(** [l.checkRequired()]. *)
Definition missedFields (c : Config) (fs : list fieldData) : list string :=
  map name
    (List.filter
       (fun f => negb (isSet f) && (isRequired f || AllFieldRequired c)) fs).

Definition checkRequired (l : Loader) : result unit :=
  let missed := missedFields (config l) (fields l) in
  match missed with
  | [] => Ok tt
  | _ => Err (ErrFieldsRequired (Join missed ","))
  end.

(** [l.loadDefaults()]. *)
Definition loadDefault (c : Config) (f : fieldData) : result fieldData :=
  let defaultValue := Tag f "default" in
  do f' <- setFieldData c f (AString defaultValue);
  Ok (setIsSet f' (negb (isEmpty defaultValue))).

Definition loadDefaults (l : Loader) : result Loader :=
  if NewParser (config l) then Ok l
  else
    do fs <- mapM (loadDefault (config l)) (fields l);
    Ok (withFields l fs).

(** [l.loadFileFlag()]. *)
Definition loadFileFlag (l : Loader) : result Loader :=
  match flagSet l with
  | None => Panic "nil pointer dereference"
  | Some flags =>
      match getActualFlag (FileFlag (config l)) flags with
      | None => Ok l
      | Some configFile =>
          if isEmpty configFile
          then Err (ErrFileFlagEmpty (FileFlag (config l)))
          else if MergeFiles (config l)
          then Ok (withConfig l (withFiles (config l)
                                   (Files (config l) ++ [configFile])))
          else Ok (withConfig l (withFiles (config l) [configFile]))
      end
  end.

(** The body of the field loop of [l.loadFile]: the field's key is looked
    up in the decoded map, directly and then through [find]; on a hit
    the field is set and the key removed. *)
Definition loadFileField (c : Config) (tag : string)
  (actualFields : gmap string any) (f : fieldData)
  : result (gmap string any * fieldData) :=
  let name := fullTag c EmptyString f tag in
  if isEmpty name then Ok (actualFields, f)
  else
    let hit (m : gmap string any) (v : any) :=
      do f' <- setFieldData c f v;
      Ok (delete name m, setIsSet f' true) in
    match actualFields !! name with
    | Some v => hit actualFields v
    | None =>
        let actualFields := find actualFields name in
        match actualFields !! name with
        | Some v => hit actualFields v
        | None => Ok (actualFields, f)
        end
    end.

(** [l.loadFile(file)]. A [range] over the keys left in the map reports
    one of them; the model reports the first of the map's enumeration. *)
Definition loadFile (l : Loader) (file : string) : result Loader :=
  let c := config l in
  let ext := ToLower (Ext file) in
  match FileDecoders c !! ext with
  | None => Err (ErrFormatNotSupported ext)
  | Some decoder =>
      do actualFields <- DecodeFile decoder file;
      let tag := Format decoder in
      if NewParser c then
        match parser l with
        | None => Panic "nil pointer dereference"
        | Some p =>
            do p' <- wrapErr (String.append "apply " tag)
                       (lift (applyLevel p tag actualFields));
            Ok (withParser l p')
        end
      else
        do '(rest, fs) <- forFields (loadFileField c tag) (fields l) actualFields;
        if AllowUnknownFields c then Ok (withFields l fs)
        else
          match map_to_list rest with
          | [] => Ok (withFields l fs)
          | (key, _) :: _ => Err (ErrUnknownField file key)
          end
  end.

(** The loop of [l.loadFiles] over [l.config.Files]. *)
Fixpoint loadFilesFrom (l : Loader) (files : list string) : result Loader :=
  match files with
  | [] => Ok l
  | file :: rest =>
      if notExist file then
        if FailOnFileNotFound (config l) then Err (ErrNotExist file)
        else loadFilesFrom l rest
      else
        do l' <- loadFile l file;
        if negb (MergeFiles (config l')) then Ok l'
        else loadFilesFrom l' rest
  end.

(** [l.loadFiles()]. *)
Definition loadFiles (l : Loader) : result Loader :=
  do l' <- (if isEmpty (FileFlag (config l)) then Ok l else loadFileFlag l);
  loadFilesFrom l' (Files (config l')).

(** [l.setField(field, name, values, dupls)]: the pass state is the
    source map and the set of keys already resolved. *)
Definition setField (c : Config) (f : fieldData) (name : string)
  (values : gmap string any) (dupls : gset string)
  : result (gmap string any * gset string * fieldData) :=
  do dupls' <- (if negb (AllowDuplicates c) then
                  if bool_decide (name ∈ dupls) then Err (ErrDuplicated name)
                  else Ok ({[name]} ∪ dupls)
                else Ok dupls);
  match values !! name with
  | None => Ok (values, dupls', f)
  | Some val =>
      do f' <- setFieldData c f val;
      Ok (if negb (AllowDuplicates c) then delete name values else values,
          dupls', setIsSet f' true)
  end.

(** The check after a flat pass, [postEnvCheck] and [postFlagCheck]: with
    the keys in [dupls] removed, a key left under [prefix] is unknown. *)
Definition unknownKey (prefix : string) (values : gmap string any)
  (dupls : gset string) : option string :=
  head (List.filter (fun key => HasPrefix key prefix)
          (map fst (map_to_list (foldr delete values (elements dupls))))).

(** [l.postEnvCheck(values, dupls)]. *)
Definition postEnvCheck (c : Config) (values : gmap string any)
  (dupls : gset string) : result unit :=
  if AllowUnknownEnvs c || isEmpty (EnvPrefix c) then Ok tt
  else match unknownKey (EnvPrefix c) values dupls with
       | Some env => Err (ErrUnknownEnv env)
       | None => Ok tt
       end.

(** [l.postFlagCheck(values, dupls)]. *)
Definition postFlagCheck (c : Config) (values : gmap string any)
  (dupls : gset string) : result unit :=
  if AllowUnknownFlags c || isEmpty (FlagPrefix c) then Ok tt
  else match unknownKey (FlagPrefix c) values dupls with
       | Some flag => Err (ErrUnknownFlag flag)
       | None => Ok tt
       end.

(** The body of the field loop of [loadEnvironment] and [loadFlags]. *)
Definition flatField (c : Config) (prefix tag : string)
  (st : gmap string any * gset string) (f : fieldData)
  : result (gmap string any * gset string * fieldData) :=
  let name := fullTag c prefix f tag in
  if isEmpty name then Ok (st, f)
  else setField c f name (fst st) (snd st).

(** [l.loadEnvironment()]. *)
Definition loadEnvironment (l : Loader) : result Loader :=
  let c := config l in
  let actualEnvs := getEnv (default [] (Envs c)) in
  if NewParser c then
    match parser l with
    | None => Panic "nil pointer dereference"
    | Some p =>
        do p' <- wrapErr "apply env" (lift (applyFlat p "env" actualEnvs));
        Ok (withParser l p')
    end
  else
    do '(st, fs) <- forFields (flatField c (EnvPrefix c) "env") (fields l)
                      (actualEnvs, ∅);
    do _ <- postEnvCheck c (fst st) (snd st);
    Ok (withFields l fs).

(** [l.loadFlags()]. *)
Definition loadFlags (l : Loader) : result Loader :=
  let c := config l in
  match flagSet l with
  | None => Panic "nil pointer dereference"
  | Some flags =>
      let actualFlags := getFlags flags in
      if NewParser c then
        match parser l with
        | None => Panic "nil pointer dereference"
        | Some p =>
            do p' <- wrapErr "apply flag" (lift (applyFlat p "flag" actualFlags));
            Ok (withParser l p')
        end
      else
        do '(st, fs) <- forFields (flatField c (FlagPrefix c) "flag") (fields l)
                          (actualFlags, ∅);
        do _ <- postFlagCheck c (fst st) (snd st);
        Ok (withFields l fs)
  end.

(** [l.loadSources()]. *)
Definition loadSources (l : Loader) : result Loader :=
  do l <- (if negb (SkipDefaults (config l))
           then wrapErr "load defaults" (loadDefaults l) else Ok l);
  do l <- (if negb (SkipFiles (config l))
           then wrapErr "load files" (loadFiles l) else Ok l);
  do l <- (if negb (SkipEnv (config l))
           then wrapErr "load environment" (loadEnvironment l) else Ok l);
  do l <- (if negb (SkipFlags (config l))
           then wrapErr "load flags" (loadFlags l) else Ok l);
  if NewParser (config l) then
    match parser l with
    | None => Panic "nil pointer dereference"
    | Some p =>
        do x <- wrapErr "apply" (lift (apply p (dstType l) (dst l)));
        Ok (withDst l x)
    end
  else Ok l.

(** [l.loadConfig()]. *)
Definition loadConfig (l : Loader) : result Loader :=
  do l <- parseFlags l;
  do l <- loadSources l;
  do _ <- checkRequired l;
  Ok l.

(** [l.Load()]: the loader after a successful load, or the error. *)
Definition Load (l : Loader) : result Loader :=
  match errInit l with
  | Some e => Err (ErrWrap "init loader" e)
  | None => wrapErr "load config" (loadConfig l)
  end.


(** * Properties *)

(** ** Strings *)

Lemma isEmpty_true (s : string) : isEmpty s = true <-> s = EmptyString.
Proof. destruct s; simpl; split; congruence. Qed.

Lemma isEmpty_false (s : string) : isEmpty s = false <-> s <> EmptyString.
Proof. destruct s; simpl; split; congruence. Qed.

Lemma drop_length (s : string) : drop (String.length s) s = EmptyString.
Proof. induction s; simpl; auto. Qed.

Lemma HasPrefix_split (s p : string) :
  HasPrefix s p = true -> s = String.append p (drop (String.length p) s).
Proof.
  revert s. induction p as [|c p IH]; intros s H.
  - reflexivity.
  - destruct s as [|d s]; [discriminate|]. simpl in *.
    destruct (Ascii.eqb c d) eqn:E; [|discriminate].
    apply Ascii.eqb_eq in E. subst d. f_equal. now apply IH.
Qed.

Lemma HasPrefix_app (p t : string) : HasPrefix (String.append p t) p = true.
Proof.
  induction p as [|c p IH]; simpl; [reflexivity|].
  now rewrite Ascii.eqb_refl.
Qed.

Lemma HasPrefix_iff (s p : string) :
  HasPrefix s p = true <-> exists t, s = String.append p t.
Proof.
  split.
  - intros H. eexists. now apply HasPrefix_split.
  - intros [t ->]. apply HasPrefix_app.
Qed.

Lemma HasPrefix_refl (s : string) : HasPrefix s s = true.
Proof. induction s as [|c s IH]; simpl; [reflexivity|]. now rewrite Ascii.eqb_refl. Qed.

Lemma cut_at_prefix (s sep : string) :
  HasPrefix s sep = true ->
  cut s sep = (EmptyString, drop (String.length sep) s, true).
Proof. intros H. destruct s; simpl; now rewrite H. Qed.

(** A successful [cut] splits the text around the separator. *)
Lemma cut_found (s sep before after : string) :
  cut s sep = (before, after, true) ->
  s = String.append before (String.append sep after).
Proof.
  revert before after. induction s as [|c s IH]; intros before after; simpl.
  - destruct (HasPrefix EmptyString sep) eqn:E; [|discriminate].
    intros [= <- <-]. apply HasPrefix_split in E. simpl. exact E.
  - destruct (HasPrefix (String.String c s) sep) eqn:E.
    + intros [= <- <-]. apply HasPrefix_split in E. exact E.
    + destruct (cut s sep) as [[b a] ok] eqn:C.
      intros H. injection H as <- <- ->. simpl. f_equal. now apply IH.
Qed.

(** A failed [cut] returns the whole text. *)
Lemma cut_not_found (s sep before after : string) :
  cut s sep = (before, after, false) -> before = s /\ after = EmptyString.
Proof.
  revert before after. induction s as [|c s IH]; intros before after; simpl.
  - destruct (HasPrefix EmptyString sep); [discriminate|].
    now intros [= <- <-].
  - destruct (HasPrefix (String.String c s) sep); [discriminate|].
    destruct (cut s sep) as [[b a] ok] eqn:C.
    intros H. injection H as <- <- ->. destruct (IH _ _ eq_refl) as [-> ->]. auto.
Qed.

(** A marker that starts with a comma, put after a text without commas,
    is found by [cut] right where it was put. *)
Lemma cut_suffix (base rest : string) :
  containsByte ","%char base = false ->
  cut (String.append base (String.String ","%char rest)) (String.String ","%char rest)
  = (base, EmptyString, true).
Proof.
  induction base as [|c base IH]; intros H.
  - simpl String.append.
    rewrite cut_at_prefix by apply HasPrefix_refl.
    now rewrite drop_length.
  - simpl in H. apply orb_false_iff in H as [Hc Hb].
    simpl. rewrite Hc. now rewrite (IH Hb).
Qed.

(** A text whose only comma starts another marker holds no [marker]. *)
Lemma cut_other_marker (base rest marker : string) :
  containsByte ","%char base = false ->
  HasPrefix (String.String ","%char rest) (String.String ","%char marker) = false ->
  containsByte ","%char rest = false ->
  snd (cut (String.append base (String.String ","%char rest))
         (String.String ","%char marker)) = false.
Proof.
  intros Hb Hp Hr.
  assert (Hrest : forall t, containsByte ","%char t = false ->
            snd (cut t (String.String ","%char marker)) = false).
  { induction t as [|c t IH]; intros Ht; simpl; [reflexivity|].
    simpl in Ht. apply orb_false_iff in Ht as [Hc Ht]. rewrite Hc.
    specialize (IH Ht). destruct (cut t _) as [[b a] ok]. exact IH. }
  induction base as [|c base IH].
  - simpl String.append. simpl. simpl in Hp. rewrite Hp.
    specialize (Hrest rest Hr). destruct (cut rest _) as [[b a] ok]. exact Hrest.
  - simpl in Hb. apply orb_false_iff in Hb as [Hc Hb].
    simpl. rewrite Hc. specialize (IH Hb).
    destruct (cut _ _) as [[b a] ok]. exact IH.
Qed.

(** ** The key resolver *)

(** The ancestors of a field, innermost first. *)
Fixpoint ancestorsFrom (p : fieldData) : list fieldData :=
  p :: match parent p with
       | None => []
       | Some q => ancestorsFrom q
       end.

Definition ancestors (f : fieldData) : list fieldData :=
  match parent f with
  | None => []
  | Some q => ancestorsFrom q
  end.

(** The key segments that the ancestors of [f] contribute under [tag],
    outermost first: the declarations other than the exclusion marker. *)
Definition segments (f : fieldData) (tag : string) : list string :=
  rev (List.filter (fun t => negb (String.eqb t "-"))
         (map (fun p => Tag p tag) (ancestors f))).

(** [segs] joined in front of [res], each followed by [sep]. *)
Definition withSegments (sep : string) (segs : list string) (res : string)
  : string :=
  foldr (fun t acc => String.append t (String.append sep acc)) res segs.

Lemma fieldData_chain_ind (P : fieldData -> Prop) :
  (forall f, parent f = None -> P f) ->
  (forall f q, parent f = Some q -> P q -> P f) ->
  forall f, P f.
Proof.
  intros Hroot Hstep. fix IH 1. intros f.
  destruct f as [n [q|] sf v s r t] eqn:E.
  - apply (Hstep _ q); [reflexivity | apply IH].
  - apply Hroot. reflexivity.
Qed.

Lemma ancestorsFrom_unfold (p : fieldData) :
  ancestorsFrom p
  = p :: match parent p with None => [] | Some q => ancestorsFrom q end.
Proof. destruct p; reflexivity. Qed.

Lemma parentChainFrom_unfold (sep : string) (p : fieldData) (tag res : string) :
  parentChainFrom sep p tag res
  = let res' := if String.eqb (Tag p tag) "-" then res
                else String.append (Tag p tag) (String.append sep res) in
    match parent p with
    | None => res'
    | Some q => parentChainFrom sep q tag res'
    end.
Proof. destruct p; reflexivity. Qed.

Lemma withSegments_snoc (sep : string) (segs : list string) (t res : string) :
  withSegments sep (segs ++ [t]) res
  = withSegments sep segs (String.append t (String.append sep res)).
Proof. unfold withSegments. now rewrite foldr_app. Qed.

Lemma parentChainFrom_segments (sep tag : string) (p : fieldData) :
  forall res,
    parentChainFrom sep p tag res
    = withSegments sep
        (rev (List.filter (fun t => negb (String.eqb t "-"))
                (map (fun q => Tag q tag) (ancestorsFrom p)))) res.
Proof.
  induction p as [p Hp | p q Hp IH] using fieldData_chain_ind; intros res;
    rewrite parentChainFrom_unfold, ancestorsFrom_unfold, Hp; cbn zeta;
    simpl map; simpl List.filter.
  - destruct (String.eqb (Tag p tag) "-"); reflexivity.
  - rewrite IH. destruct (String.eqb (Tag p tag) "-"); simpl negb; cbn iota.
    + reflexivity.
    + simpl rev. now rewrite withSegments_snoc.
Qed.

Lemma parentChain_segments (sep tag : string) (f : fieldData) (res : string) :
  parentChain sep (parent f) tag res = withSegments sep (segments f tag) res.
Proof.
  unfold parentChain, segments, ancestors.
  destruct (parent f) as [q|]; [apply parentChainFrom_segments | reflexivity].
Qed.

(** The key of a field whose declaration is neither excluded nor pinned. *)
Lemma fullTag_plain (c : Config) (prefix : string) (f : fieldData) (tag : string) :
  Tag f tag <> "-" ->
  snd (cut (Tag f tag) ",exact") = false ->
  snd (cut (Tag f tag) ",omitempty") = false ->
  fullTag c prefix f tag
  = String.append prefix
      (withSegments (delimiter c tag) (segments f tag) (Tag f tag)).
Proof.
  intros Hdash Hexact Homit. unfold fullTag.
  apply String.eqb_neq in Hdash. rewrite Hdash.
  destruct (cut (Tag f tag) ",exact") as [[b a] ok]. simpl in Hexact. subst ok.
  destruct (cut (Tag f tag) ",omitempty") as [[b' a'] ok']. simpl in Homit.
  subst ok'. now rewrite parentChain_segments.
Qed.

Lemma fullTag_excluded (c : Config) (prefix : string) (f : fieldData) (tag : string) :
  Tag f tag = "-" -> fullTag c prefix f tag = EmptyString.
Proof. intros H. unfold fullTag. now rewrite H. Qed.

Lemma fullTag_exact (c : Config) (prefix : string) (f : fieldData)
  (tag before after : string) :
  Tag f tag <> "-" ->
  cut (Tag f tag) ",exact" = (before, after, true) ->
  fullTag c prefix f tag = before.
Proof.
  intros Hdash Hcut. unfold fullTag.
  apply String.eqb_neq in Hdash. now rewrite Hdash, Hcut.
Qed.

Lemma fullTag_omitempty (c : Config) (prefix : string) (f : fieldData)
  (tag before after : string) :
  Tag f tag <> "-" ->
  snd (cut (Tag f tag) ",exact") = false ->
  cut (Tag f tag) ",omitempty" = (before, after, true) ->
  fullTag c prefix f tag = before.
Proof.
  intros Hdash Hexact Hcut. unfold fullTag.
  apply String.eqb_neq in Hdash. rewrite Hdash, Hcut.
  destruct (cut (Tag f tag) ",exact") as [[b a] ok]. simpl in Hexact.
  now subst ok.
Qed.

Lemma append_marker_not_dash (base rest : string) :
  String.append base (String.String ","%char rest) <> "-".
Proof.
  destruct base as [|c [|d base]]; simpl; try discriminate.
Qed.

Definition setParent (f : fieldData) (p : option fieldData) : fieldData :=
  mkFieldData (name f) p (field f) (value f) (isSet f) (isRequired f) (tags f).

(** An excluded parent is skipped: the field resolves as if it hung
    directly under its grandparent. *)
Lemma fullTag_skips_excluded_parent (c : Config) (prefix : string)
  (f p : fieldData) (tag : string) :
  parent f = Some p -> Tag p tag = "-" ->
  fullTag c prefix f tag = fullTag c prefix (setParent f (parent p)) tag.
Proof.
  intros Hp Hdash. unfold fullTag.
  replace (Tag (setParent f (parent p)) tag) with (Tag f tag) by reflexivity.
  destruct (String.eqb (Tag f tag) "-"); [reflexivity|].
  destruct (cut (Tag f tag) ",exact") as [[b a] [|]]; [reflexivity|].
  destruct (cut (Tag f tag) ",omitempty") as [[b' a'] [|]]; [reflexivity|].
  f_equal. simpl parent. rewrite Hp. unfold parentChain at 1.
  rewrite parentChainFrom_unfold, Hdash. reflexivity.
Qed.

(** Fields used in the examples: a string cell with the given name,
    parent and per-namespace declarations. *)
Definition exampleField (name : string) (p : option fieldData)
  (decls : list (string * string)) : fieldData :=
  mkFieldData name p noStructField
    (cellOf (TBasic BString) (VString EmptyString)) false false
    (list_to_map decls).

Definition exampleDecoder : FileDecoder :=
  mkFileDecoder "json" (fun _ => Ok ∅).

(** A configuration with prefix [APP] for the environment and the flag
    delimiter set to a slash. *)
Definition exampleConfig : Config :=
  mkConfig false false false false false "APP" EmptyString EmptyString "/"
    false false false false false false false false EmptyString
    [] None None {[".json" := exampleDecoder]} EmptyString.

Definition exampleParent : fieldData :=
  exampleField "A" None [("json", "a"); ("env", "A"); ("flag", "a")].

Definition exampleChild : fieldData :=
  exampleField "A.B" (Some exampleParent)
    [("json", "b"); ("env", "B"); ("flag", "b")].

Definition exampleHidden : fieldData :=
  exampleField "H" (Some exampleParent)
    [("json", "-"); ("env", "-"); ("flag", "-")].

Definition exampleGrandchild : fieldData :=
  exampleField "H.C" (Some exampleHidden)
    [("json", "c,omitempty"); ("env", "C"); ("flag", "c,exact")].

(** C4. The exclusion marker gives the empty key; a declaration that ends
    in the marker [,exact] or [,omitempty] resolves to the text before the
    marker, with neither prefix nor parent segments; and otherwise the key
    is the prefix, then the declarations of the ancestors that are not
    excluded, outermost first and each followed by the delimiter, then the
    field's own declaration, so that an excluded ancestor adds nothing. *)
Theorem fullTag_markers (c : Config) (prefix : string) (f : fieldData)
  (tag : string) :
  (Tag f tag = "-" -> fullTag c prefix f tag = EmptyString)
  /\ (forall base, containsByte ","%char base = false ->
        Tag f tag = String.append base ",exact" ->
        fullTag c prefix f tag = base)
  /\ (forall base, containsByte ","%char base = false ->
        Tag f tag = String.append base ",omitempty" ->
        fullTag c prefix f tag = base)
  /\ (forall before after, Tag f tag <> "-" ->
        cut (Tag f tag) ",exact" = (before, after, true) ->
        Tag f tag = String.append before (String.append ",exact" after)
        /\ fullTag c prefix f tag = before)
  /\ (forall before after, Tag f tag <> "-" ->
        snd (cut (Tag f tag) ",exact") = false ->
        cut (Tag f tag) ",omitempty" = (before, after, true) ->
        Tag f tag = String.append before (String.append ",omitempty" after)
        /\ fullTag c prefix f tag = before)
  /\ (Tag f tag <> "-" ->
        snd (cut (Tag f tag) ",exact") = false ->
        snd (cut (Tag f tag) ",omitempty") = false ->
        fullTag c prefix f tag
        = String.append prefix
            (withSegments (delimiter c tag) (segments f tag) (Tag f tag))
        /\ Forall (fun t => t <> "-") (segments f tag))
  /\ (forall p, parent f = Some p -> Tag p tag = "-" ->
        fullTag c prefix f tag = fullTag c prefix (setParent f (parent p)) tag).
Proof.
  repeat split.
  - apply fullTag_excluded.
  - intros base Hbase Htag.
    apply (fullTag_exact c prefix f tag base EmptyString).
    + rewrite Htag. apply append_marker_not_dash.
    + rewrite Htag. now apply cut_suffix.
  - intros base Hbase Htag.
    apply (fullTag_omitempty c prefix f tag base EmptyString).
    + rewrite Htag. apply append_marker_not_dash.
    + rewrite Htag. now apply cut_other_marker.
    + rewrite Htag. now apply cut_suffix.
  - now apply cut_found.
  - now apply (fullTag_exact c prefix f tag before after).
  - now apply cut_found.
  - now apply (fullTag_omitempty c prefix f tag before after).
  - now apply fullTag_plain.
  - unfold segments. apply Forall_rev, List.Forall_forall. intros t Ht.
    apply filter_In in Ht as [_ Ht]. apply negb_true_iff in Ht.
    now apply String.eqb_neq.
  - intros p. apply fullTag_skips_excluded_parent.
Qed.

(** The excluded field has no key, the pinned grandchild keeps its pinned
    keys, and under the environment the grandchild hangs under [A] alone. *)
Lemma fullTag_markers_witness :
  fullTag exampleConfig "APP_" exampleHidden "env" = EmptyString
  /\ fullTag exampleConfig EmptyString exampleGrandchild "flag" = "c"
  /\ fullTag exampleConfig EmptyString exampleGrandchild "json" = "c"
  /\ fullTag (initDelimiters exampleConfig) "APP_" exampleGrandchild "env"
     = "APP_A_C".
Proof.
  pose proof (fullTag_markers exampleConfig "APP_" exampleHidden "env")
    as (H1 & _).
  pose proof (fullTag_markers exampleConfig EmptyString exampleGrandchild "flag")
    as (_ & H2 & _).
  pose proof (fullTag_markers exampleConfig EmptyString exampleGrandchild "json")
    as (_ & _ & H3 & _).
  pose proof (fullTag_markers (initDelimiters exampleConfig) "APP_"
                exampleGrandchild "env") as (_ & _ & _ & _ & _ & H6 & _).
  split; [apply H1; reflexivity|].
  split; [apply (H2 "c"); reflexivity|].
  split; [apply (H3 "c"); reflexivity|].
  destruct H6 as [H6 _]; [discriminate | reflexivity | reflexivity |].
  rewrite H6. reflexivity.
Defined.

Lemma delimiter_init (cfg : Config) (tag : string) :
  delimiter (initDelimiters cfg) tag
  = if String.eqb tag "env" then "_"
    else if String.eqb tag "flag"
         then (if isEmpty (FlagDelimiter cfg) then "." else FlagDelimiter cfg)
         else ".".
Proof.
  unfold delimiter, initDelimiters. simpl.
  destruct (String.eqb tag "env"), (String.eqb tag "flag"); reflexivity.
Qed.

(** C3, as the code has it. After initialisation the ancestors' segments
    are joined with [_] under the environment namespace and with
    [Config.FlagDelimiter], or a dot when that is unset, under the flag
    namespace; under every other namespace, the file formats among them,
    they are joined with a dot whatever [Config.FlagDelimiter] is. *)
Theorem fullTag_delimiters (cfg : Config) (prefix : string) (f : fieldData)
  (tag : string) :
  Tag f tag <> "-" ->
  snd (cut (Tag f tag) ",exact") = false ->
  snd (cut (Tag f tag) ",omitempty") = false ->
  let key sep :=
    String.append prefix (withSegments sep (segments f tag) (Tag f tag)) in
  (tag = "env" -> fullTag (initDelimiters cfg) prefix f tag = key "_")
  /\ (tag = "flag" ->
        fullTag (initDelimiters cfg) prefix f tag
        = key (if isEmpty (FlagDelimiter cfg) then "." else FlagDelimiter cfg))
  /\ (tag <> "env" -> tag <> "flag" ->
        fullTag (initDelimiters cfg) prefix f tag = key ".").
Proof.
  intros Hdash Hexact Homit key.
  rewrite (fullTag_plain _ _ _ _ Hdash Hexact Homit), delimiter_init.
  repeat split.
  - now intros ->.
  - now intros ->.
  - intros Henv Hflag. apply String.eqb_neq in Henv, Hflag.
    now rewrite Henv, Hflag.
Qed.

Lemma fullTag_delimiters_witness :
  fullTag (initDelimiters exampleConfig) "APP_" exampleChild "env" = "APP_A_B"
  /\ fullTag (initDelimiters exampleConfig) EmptyString exampleChild "flag" = "a/b"
  /\ fullTag (initDelimiters zeroConfig) EmptyString exampleChild "flag" = "a.b"
  /\ fullTag (initDelimiters exampleConfig) EmptyString exampleChild "json" = "a.b".
Proof.
  assert (Hd : forall tag, In tag ["env"; "flag"; "json"] ->
            Tag exampleChild tag <> "-") by (intros tag Ht; simpl in Ht;
              destruct Ht as [<-|[<-|[<-|[]]]]; discriminate).
  destruct (fullTag_delimiters exampleConfig "APP_" exampleChild "env")
    as (H1 & _); [apply Hd; simpl; auto | reflexivity | reflexivity |].
  destruct (fullTag_delimiters exampleConfig EmptyString exampleChild "flag")
    as (_ & H2 & _); [apply Hd; simpl; auto | reflexivity | reflexivity |].
  destruct (fullTag_delimiters zeroConfig EmptyString exampleChild "flag")
    as (_ & H3 & _); [apply Hd; simpl; auto | reflexivity | reflexivity |].
  destruct (fullTag_delimiters exampleConfig EmptyString exampleChild "json")
    as (_ & _ & H4); [apply Hd; simpl; auto | reflexivity | reflexivity |].
  rewrite H1, H2, H3, H4 by (reflexivity || discriminate).
  repeat split.
Defined.

(** C3 fails for a file format: with the flag delimiter configured as a
    slash and the decoder of format [json] registered, the key of [A.B]
    under [json] is joined with a dot, not with the configured delimiter. *)
Lemma fullTag_file_format_ignores_FlagDelimiter :
  let c := initDelimiters exampleConfig in
  FlagDelimiter c = "/"
  /\ Format <$> (FileDecoders c !! ".json") = Some "json"
  /\ ancestors exampleChild = [exampleParent]
  /\ fullTag c EmptyString exampleChild "json" = "a.b"
  /\ fullTag c EmptyString exampleChild "json"
     <> String.append (Tag exampleParent "json")
          (String.append (FlagDelimiter c) (Tag exampleChild "json")).
Proof. repeat split. discriminate. Qed.

(** ** Required fields *)

Lemma missedFields_nil (c : Config) (fs : list fieldData) :
  missedFields c fs = []
  <-> forall f, In f fs ->
        ~ (isSet f = false /\ (isRequired f = true \/ AllFieldRequired c = true)).
Proof.
  unfold missedFields. split.
  - intros H f Hin [Hset Hreq].
    assert (Hf : In f (List.filter
              (fun f => negb (isSet f) && (isRequired f || AllFieldRequired c)) fs)).
    { apply filter_In. split; [exact Hin|]. rewrite Hset. simpl.
      apply orb_true_iff. exact Hreq. }
    apply (in_map name) in Hf. rewrite H in Hf. exact Hf.
  - intros H. induction fs as [|f fs IH]; [reflexivity|]. simpl.
    destruct (negb (isSet f) && (isRequired f || AllFieldRequired c)) eqn:E.
    + exfalso. apply (H f); [now left|].
      apply andb_true_iff in E as [E1 E2]. apply negb_true_iff in E1.
      apply orb_true_iff in E2. auto.
    + apply IH. intros g Hg. apply H. now right.
Qed.

Lemma missedFields_cons (c : Config) (fs : list fieldData) :
  missedFields c fs <> [] ->
  exists f, In f fs
    /\ isSet f = false /\ (isRequired f = true \/ AllFieldRequired c = true).
Proof.
  unfold missedFields. intros H.
  destruct (List.filter _ fs) as [|f rest] eqn:E; [now destruct H|].
  assert (Hf : In f (f :: rest)) by now left.
  rewrite <- E in Hf. apply filter_In in Hf as [Hin Hf].
  apply andb_true_iff in Hf as [E1 E2]. apply negb_true_iff in E1.
  apply orb_true_iff in E2. eauto.
Qed.

(** C2. Once the flags are parsed and every source pass has succeeded,
    [Load] fails with the missing-required-fields error exactly when some
    field is not set and is required, individually or by
    [AllFieldRequired]; the one error then lists the names of all such
    fields, in field order, joined by commas; otherwise [Load] succeeds. *)
Theorem Load_required_fields (l l1 l2 : Loader) :
  errInit l = None ->
  parseFlags l = Ok l1 ->
  loadSources l1 = Ok l2 ->
  let missing f :=
    isSet f = false /\ (isRequired f = true \/ AllFieldRequired (config l2) = true) in
  ((exists names,
       Load l = Err (ErrWrap "load config" (ErrFieldsRequired names)))
   <-> exists f, In f (fields l2) /\ missing f)
  /\ ((exists f, In f (fields l2) /\ missing f) ->
      Load l = Err (ErrWrap "load config"
                 (ErrFieldsRequired
                    (Join (map name
                             (List.filter
                                (fun f => negb (isSet f)
                                          && (isRequired f
                                              || AllFieldRequired (config l2)))
                                (fields l2))) ","))))
  /\ ((forall f, In f (fields l2) -> ~ missing f) -> Load l = Ok l2).
Proof.
  intros Hinit Hparse Hload missing.
  assert (HLoad : Load l = wrapErr "load config"
                    (do _ <- checkRequired l2; Ok l2)).
  { unfold Load, loadConfig. rewrite Hinit, Hparse. simpl. now rewrite Hload. }
  assert (Hsome : (exists f, In f (fields l2) /\ missing f) ->
                  missedFields (config l2) (fields l2) <> []).
  { intros (f & Hin & Hf) Hnil.
    apply (proj1 (missedFields_nil _ _) Hnil f Hin Hf). }
  repeat split.
  - intros [names Hnames]. rewrite HLoad in Hnames. unfold checkRequired in Hnames.
    destruct (missedFields (config l2) (fields l2)) as [|n ns] eqn:E;
      [discriminate|].
    apply missedFields_cons. congruence.
  - intros Hex. apply Hsome in Hex. rewrite HLoad. unfold checkRequired.
    destruct (missedFields (config l2) (fields l2)) as [|n ns] eqn:E;
      [congruence|]. simpl. eauto.
  - intros Hex. apply Hsome in Hex. rewrite HLoad. unfold checkRequired.
    fold (missedFields (config l2) (fields l2)).
    destruct (missedFields (config l2) (fields l2)) as [|n ns] eqn:E;
      [congruence|]. reflexivity.
  - intros Hnone. apply missedFields_nil in Hnone. rewrite HLoad.
    unfold checkRequired. now rewrite Hnone.
Qed.

(** ** Loops over the fields *)

Lemma bind_Ok {A B : Type} (r : result A) (k : A -> result B) (b : B) :
  bind r k = Ok b -> exists a, r = Ok a /\ k a = Ok b.
Proof. destruct r; simpl; [eauto | discriminate | discriminate]. Qed.

Lemma wrapErr_Ok {A : Type} (context : string) (r : result A) (a : A) :
  wrapErr context r = Ok a -> r = Ok a.
Proof. destruct r; simpl; congruence. Qed.

Lemma forFields_Ok_cons {S : Type} (body : S -> fieldData -> result (S * fieldData))
  (f : fieldData) (rest : list fieldData) (s s'' : S) (out : list fieldData) :
  forFields body (f :: rest) s = Ok (s'', out) ->
  exists s' f' rest',
    body s f = Ok (s', f') /\ forFields body rest s' = Ok (s'', rest')
    /\ out = f' :: rest'.
Proof.
  simpl. intros H.
  apply bind_Ok in H as ([s' f'] & Hbody & H).
  apply bind_Ok in H as ([s2 rest'] & Hrest & H).
  injection H as <- <-. eauto 6.
Qed.

(** The loop over [xs ++ ys] is the loop over [xs] followed, from the
    state it reached, by the loop over [ys]. *)
Lemma forFields_app {S : Type} (body : S -> fieldData -> result (S * fieldData))
  (xs ys : list fieldData) (s : S) :
  forFields body (xs ++ ys) s
  = (do '(s', xs') <- forFields body xs s;
     do '(s'', ys') <- forFields body ys s';
     Ok (s'', xs' ++ ys')).
Proof.
  revert s. induction xs as [|x xs IH]; intros s; simpl.
  - destruct (forFields body ys s) as [[s' ys']| |]; reflexivity.
  - destruct (body s x) as [[s1 x']| |]; simpl; try reflexivity.
    rewrite IH. destruct (forFields body xs s1) as [[s2 xs']| |]; simpl;
      try reflexivity.
    destruct (forFields body ys s2) as [[s3 ys']| |]; reflexivity.
Qed.

(** A loop that fails on a prefix of the fields fails in the same way on
    all of them. *)
Lemma forFields_prefix_Err {S : Type}
  (body : S -> fieldData -> result (S * fieldData))
  (xs ys : list fieldData) (s : S) (e : error) :
  forFields body xs s = Err e -> forFields body (xs ++ ys) s = Err e.
Proof. intros H. now rewrite forFields_app, H. Qed.

(** A successful loop treated the field at every position [i] from the
    state that the loop over the first [i] fields reached. *)
Lemma forFields_lookup {S : Type} (body : S -> fieldData -> result (S * fieldData))
  (fs : list fieldData) (s s' : S) (out : list fieldData) (i : nat)
  (f : fieldData) :
  forFields body fs s = Ok (s', out) ->
  fs !! i = Some f ->
  exists si si' f',
    forFields body (take i fs) s = Ok (si, take i out)
    /\ body si f = Ok (si', f')
    /\ out !! i = Some f'.
Proof.
  revert s out i. induction fs as [|x fs IH]; intros s out i H Hi.
  - discriminate.
  - apply forFields_Ok_cons in H as (s1 & x' & rest' & Hbody & Hrest & ->).
    destruct i as [|i].
    + injection Hi as ->. exists s, s1, x'. simpl. auto.
    + simpl in Hi. destruct (IH _ _ _ Hrest Hi) as (si & si' & f' & H1 & H2 & H3).
      exists si, si', f'. simpl. rewrite Hbody. simpl. rewrite H1. auto.
Qed.

Lemma forFields_length {S : Type} (body : S -> fieldData -> result (S * fieldData))
  (fs : list fieldData) (s s' : S) (out : list fieldData) :
  forFields body fs s = Ok (s', out) -> length out = length fs.
Proof.
  revert s out. induction fs as [|x fs IH]; intros s out H.
  - injection H as <- <-. reflexivity.
  - apply forFields_Ok_cons in H as (s1 & x' & rest' & _ & Hrest & ->).
    simpl. f_equal. eauto.
Qed.

(** ** The flat passes: [setField] *)

Lemma setField_duplicate (c : Config) (f : fieldData) (key : string)
  (values : gmap string any) (dupls : gset string) :
  AllowDuplicates c = false -> key ∈ dupls ->
  setField c f key values dupls = Err (ErrDuplicated key).
Proof.
  intros Hdup Hin. unfold setField. rewrite Hdup. simpl.
  now rewrite bool_decide_true.
Qed.

Lemma setField_absent (c : Config) (f : fieldData) (key : string)
  (values : gmap string any) (dupls : gset string) :
  AllowDuplicates c = false -> key ∉ dupls -> values !! key = None ->
  setField c f key values dupls = Ok (values, ({[key]} ∪ dupls), f).
Proof.
  intros Hdup Hin Hval. unfold setField. rewrite Hdup. simpl.
  rewrite bool_decide_false by exact Hin. simpl. now rewrite Hval.
Qed.

(** What a successful [setField] did: the field is set from the value
    under its key, if there is one; unless duplicates are allowed the key
    was new, is recorded, and is removed from the source map. *)
Lemma setField_Ok (c : Config) (f f' : fieldData) (key : string)
  (values values' : gmap string any) (dupls dupls' : gset string) :
  setField c f key values dupls = Ok (values', dupls', f') ->
  (if AllowDuplicates c then dupls' = dupls /\ values' = values
   else (key ∉ dupls) /\ dupls' = ({[key]} ∪ dupls) /\ values' = delete key values)
  /\ match values !! key with
     | None => f' = f
     | Some v => exists g, setFieldData c f v = Ok g /\ f' = setIsSet g true
     end.
Proof.
  unfold setField. intros H.
  apply bind_Ok in H as (d & Hd & H).
  destruct (AllowDuplicates c) eqn:Hdup; simpl in Hd, H.
  - injection Hd as <-.
    destruct (values !! key) as [v|] eqn:Hv.
    + apply bind_Ok in H as (g & Hg & H). injection H as <- <- <-. eauto.
    + injection H as <- <- <-. auto.
  - destruct (bool_decide (key ∈ dupls)) eqn:Hin; [discriminate|].
    apply bool_decide_eq_false in Hin. injection Hd as <-.
    destruct (values !! key) as [v|] eqn:Hv.
    + apply bind_Ok in H as (g & Hg & H). injection H as <- <- <-. eauto 6.
    + injection H as <- <- <-. repeat split; auto.
      symmetry. now apply delete_id.
Qed.

Lemma flatField_empty_key (c : Config) (prefix tag : string)
  (st : gmap string any * gset string) (f : fieldData) :
  fullTag c prefix f tag = EmptyString ->
  flatField c prefix tag st f = Ok (st, f).
Proof. intros H. unfold flatField. now rewrite H. Qed.

Lemma flatField_key (c : Config) (prefix tag : string)
  (st : gmap string any * gset string) (f : fieldData) :
  fullTag c prefix f tag <> EmptyString ->
  flatField c prefix tag st f
  = setField c f (fullTag c prefix f tag) (fst st) (snd st).
Proof.
  intros H. unfold flatField. apply isEmpty_false in H. now rewrite H.
Qed.

(** Without duplicates allowed, a successful loop met every key once: the
    keys of its fields were not recorded before, and are recorded after. *)
Lemma flat_loop_records (c : Config) (prefix tag : string)
  (fs out : list fieldData) (values : gmap string any) (dupls : gset string)
  (st : gmap string any * gset string) :
  AllowDuplicates c = false ->
  forFields (flatField c prefix tag) fs (values, dupls) = Ok (st, out) ->
  dupls ⊆ snd st
  /\ forall f, In f fs -> fullTag c prefix f tag <> EmptyString ->
       (fullTag c prefix f tag ∉ dupls) /\ fullTag c prefix f tag ∈ snd st.
Proof.
  intros Hdup. revert values dupls out.
  induction fs as [|x fs IH]; intros values dupls out H.
  - injection H as <- <-. split; [reflexivity | intros f []].
  - apply forFields_Ok_cons in H as ([v1 d1] & x' & rest' & Hbody & Hrest & ->).
    destruct (IH _ _ _ Hrest) as [Hsub Hkeys].
    destruct (string_dec (fullTag c prefix x tag) EmptyString) as [Hx|Hx].
    + rewrite flatField_empty_key in Hbody by exact Hx.
      injection Hbody as <- <- <-. split; [exact Hsub|].
      intros f [<-|Hin] Hf; [contradiction | now apply Hkeys].
    + rewrite flatField_key in Hbody by exact Hx. simpl in Hbody.
      apply setField_Ok in Hbody as [Hst _]. rewrite Hdup in Hst.
      destruct Hst as (Hfresh & -> & ->). simpl in Hsub.
      split; [etrans; [apply union_subseteq_r | exact Hsub]|].
      intros f [<-|Hin] Hf.
      * split; [exact Hfresh|].
        apply Hsub, elem_of_union_l, elem_of_singleton. reflexivity.
      * destruct (Hkeys f Hin Hf) as [H1 H2]. split; [|exact H2].
        intros Hd. apply H1, elem_of_union_r, Hd.
Qed.

(** Without duplicates allowed, the loop that reaches a field whose key an
    earlier field resolved to stops there with the duplicate error. *)
Lemma flat_loop_duplicate (c : Config) (prefix tag key : string)
  (fs out : list fieldData) (values : gmap string any)
  (st : gmap string any * gset string) (i j : nat) (fi fj : fieldData) :
  AllowDuplicates c = false ->
  (i < j)%nat -> fs !! i = Some fi -> fs !! j = Some fj ->
  fullTag c prefix fi tag = key -> fullTag c prefix fj tag = key ->
  key <> EmptyString ->
  forFields (flatField c prefix tag) (take j fs) (values, ∅) = Ok (st, out) ->
  forFields (flatField c prefix tag) fs (values, ∅) = Err (ErrDuplicated key).
Proof.
  intros Hdup Hij Hi Hj Hki Hkj Hkey Hreach.
  rewrite <- (take_drop_middle fs j fj Hj), forFields_app, Hreach. simpl.
  destruct (flat_loop_records _ _ _ _ _ _ _ _ Hdup Hreach) as [_ Hkeys].
  destruct (Hkeys fi) as [_ Hin].
  { apply list_elem_of_In, (list_elem_of_lookup_2 _ i).
    now rewrite lookup_take_lt. }
  { now rewrite Hki. }
  rewrite flatField_key by now rewrite Hkj.
  rewrite Hkj, Hki in *. now rewrite setField_duplicate.
Qed.

(** Without duplicates allowed, a loop over fields of which two resolve to
    one key does not succeed. *)
Lemma flat_loop_duplicate_fails (c : Config) (prefix tag key : string)
  (fs : list fieldData) (values : gmap string any) (i j : nat)
  (fi fj : fieldData) :
  AllowDuplicates c = false ->
  (i < j)%nat -> fs !! i = Some fi -> fs !! j = Some fj ->
  fullTag c prefix fi tag = key -> fullTag c prefix fj tag = key ->
  key <> EmptyString ->
  isOk (forFields (flatField c prefix tag) fs (values, ∅)) = false.
Proof.
  intros Hdup Hij Hi Hj Hki Hkj Hkey.
  destruct (forFields _ fs _) as [[st out]| |] eqn:H; try reflexivity.
  destruct (forFields_lookup _ _ _ _ _ _ _ H Hj) as (sj & sj' & f' & Hpre & _).
  pose proof (flat_loop_duplicate c prefix tag key fs _ values sj i j fi fj
                Hdup Hij Hi Hj Hki Hkj Hkey Hpre) as E.
  rewrite E in H. discriminate.
Qed.

(** What a flat pass over the source map [values] does to one field: a
    field without key, or whose key has no value, is left as it is; any
    other is set from the value under its key and marked as set. *)
Definition flatOutcome (c : Config) (prefix tag : string)
  (values : gmap string any) (f f' : fieldData) : Prop :=
  if isEmpty (fullTag c prefix f tag) then f' = f
  else match values !! fullTag c prefix f tag with
       | None => f' = f
       | Some v => exists g, setFieldData c f v = Ok g /\ f' = setIsSet g true
       end.

Lemma flat_loop_outcome (c : Config) (prefix tag : string)
  (values0 : gmap string any) (fs : list fieldData) :
  forall (values : gmap string any) (dupls : gset string)
         (st : gmap string any * gset string) (out : list fieldData),
    (if AllowDuplicates c then values = values0
     else forall k, k ∉ dupls -> values !! k = values0 !! k) ->
    forFields (flatField c prefix tag) fs (values, dupls) = Ok (st, out) ->
    Forall2 (flatOutcome c prefix tag values0) fs out.
Proof.
  induction fs as [|x fs IH]; intros values dupls st out Hinv H.
  - injection H as <- <-. constructor.
  - apply forFields_Ok_cons in H as ([v1 d1] & x' & rest' & Hbody & Hrest & ->).
    destruct (string_dec (fullTag c prefix x tag) EmptyString) as [Hx|Hx].
    + rewrite flatField_empty_key in Hbody by exact Hx.
      injection Hbody as <- <- <-. constructor; [|now apply (IH values dupls st)].
      unfold flatOutcome. now rewrite Hx.
    + rewrite flatField_key in Hbody by exact Hx. simpl in Hbody.
      apply setField_Ok in Hbody as [Hst Hf].
      assert (Hlook : values !! fullTag c prefix x tag
                      = values0 !! fullTag c prefix x tag).
      { destruct (AllowDuplicates c); [now subst|]. apply Hinv, Hst. }
      constructor.
      * unfold flatOutcome. apply isEmpty_false in Hx. rewrite Hx.
        now rewrite <- Hlook.
      * apply (IH v1 d1 st); [|exact Hrest].
        destruct (AllowDuplicates c).
        -- destruct Hst as [_ ->]. exact Hinv.
        -- destruct Hst as (_ & -> & ->). intros k Hk.
           apply not_elem_of_union in Hk as [Hk1 Hk2].
           rewrite lookup_delete_ne; [now apply Hinv|].
           intros E. apply Hk1, elem_of_singleton. now rewrite E.
Qed.

(** A successful flat pass started on the source map [values]: every
    field met its outcome under [values]. *)
Lemma flat_loop_field (c : Config) (prefix tag : string)
  (values : gmap string any) (fs out : list fieldData)
  (st : gmap string any * gset string) (i : nat) (f : fieldData) :
  forFields (flatField c prefix tag) fs (values, ∅) = Ok (st, out) ->
  fs !! i = Some f ->
  exists f', out !! i = Some f' /\ flatOutcome c prefix tag values f f'.
Proof.
  intros H Hi.
  assert (HF : Forall2 (flatOutcome c prefix tag values) fs out).
  { apply (flat_loop_outcome c prefix tag values fs values ∅ st out); [|exact H].
    destruct (AllowDuplicates c); auto. }
  destruct (Forall2_lookup_l _ _ _ _ _ HF Hi) as (f' & Hf' & Hout). eauto.
Qed.

(** With duplicates allowed the loop changes neither the source map nor
    the set of recorded keys. *)
Lemma flat_loop_state_kept (c : Config) (prefix tag : string)
  (fs out : list fieldData) (st st' : gmap string any * gset string) :
  AllowDuplicates c = true ->
  forFields (flatField c prefix tag) fs st = Ok (st', out) -> st' = st.
Proof.
  intros Hdup. revert st out. induction fs as [|x fs IH]; intros st out H.
  - now injection H as <- <-.
  - apply forFields_Ok_cons in H as ([v1 d1] & x' & rest' & Hbody & Hrest & ->).
    apply IH in Hrest. subst st'. unfold flatField in Hbody.
    destruct (isEmpty _); [now injection Hbody as <- <-|].
    apply setField_Ok in Hbody as [Hst _]. rewrite Hdup in Hst.
    destruct Hst as [-> ->]. now destruct st.
Qed.

Lemma loadEnvironment_unfold (l : Loader) :
  NewParser (config l) = false ->
  loadEnvironment l
  = (do '(st, fs) <- forFields (flatField (config l) (EnvPrefix (config l)) "env")
                       (fields l) (getEnv (default [] (Envs (config l))), ∅);
     do _ <- postEnvCheck (config l) (fst st) (snd st);
     Ok (withFields l fs)).
Proof. intros H. unfold loadEnvironment. now rewrite H. Qed.

Lemma loadFlags_unfold (l : Loader) (flags : FlagSet) :
  NewParser (config l) = false -> flagSet l = Some flags ->
  loadFlags l
  = (do '(st, fs) <- forFields (flatField (config l) (FlagPrefix (config l)) "flag")
                       (fields l) (getFlags flags, ∅);
     do _ <- postFlagCheck (config l) (fst st) (snd st);
     Ok (withFields l fs)).
Proof. intros H Hf. unfold loadFlags. now rewrite Hf, H. Qed.

Lemma loadEnvironment_Ok (l l' : Loader) :
  NewParser (config l) = false ->
  loadEnvironment l = Ok l' ->
  exists st,
    forFields (flatField (config l) (EnvPrefix (config l)) "env") (fields l)
      (getEnv (default [] (Envs (config l))), ∅) = Ok (st, fields l')
    /\ postEnvCheck (config l) (fst st) (snd st) = Ok tt
    /\ l' = withFields l (fields l').
Proof.
  intros Hnew H. rewrite loadEnvironment_unfold in H by exact Hnew.
  apply bind_Ok in H as ([st fs] & Hloop & H).
  apply bind_Ok in H as ([] & Hpost & H). injection H as <-.
  exists st. auto.
Qed.

Lemma loadFlags_Ok (l l' : Loader) (flags : FlagSet) :
  NewParser (config l) = false -> flagSet l = Some flags ->
  loadFlags l = Ok l' ->
  exists st,
    forFields (flatField (config l) (FlagPrefix (config l)) "flag") (fields l)
      (getFlags flags, ∅) = Ok (st, fields l')
    /\ postFlagCheck (config l) (fst st) (snd st) = Ok tt
    /\ l' = withFields l (fields l').
Proof.
  intros Hnew Hflags H. rewrite (loadFlags_unfold _ flags) in H by assumption.
  apply bind_Ok in H as ([st fs] & Hloop & H).
  apply bind_Ok in H as ([] & Hpost & H). injection H as <-.
  exists st. auto.
Qed.

(** C10. With duplicates not allowed, [setField] records the key before
    it looks it up: a key without value in the source is recorded all the
    same, and a key already recorded gives the duplicate error whatever
    the source holds. Hence the environment pass and the flag pass, on
    reaching a second field that resolves to a key met before, fail with
    the duplicate error, also when the source has no value under it. *)
Theorem duplicate_key_recorded_before_lookup (l : Loader) :
  AllowDuplicates (config l) = false ->
  NewParser (config l) = false ->
  let c := config l in
  (forall f key values dupls,
      key ∉ dupls -> values !! key = None ->
      setField c f key values dupls = Ok (values, ({[key]} ∪ dupls), f))
  /\ (forall f key values dupls,
        key ∈ dupls -> setField c f key values dupls = Err (ErrDuplicated key))
  /\ (forall i j fi fj key st out,
        (i < j)%nat -> fields l !! i = Some fi -> fields l !! j = Some fj ->
        fullTag c (EnvPrefix c) fi "env" = key ->
        fullTag c (EnvPrefix c) fj "env" = key ->
        key <> EmptyString ->
        forFields (flatField c (EnvPrefix c) "env") (take j (fields l))
          (getEnv (default [] (Envs c)), ∅) = Ok (st, out) ->
        loadEnvironment l = Err (ErrDuplicated key))
  /\ (forall flags i j fi fj key st out,
        flagSet l = Some flags ->
        (i < j)%nat -> fields l !! i = Some fi -> fields l !! j = Some fj ->
        fullTag c (FlagPrefix c) fi "flag" = key ->
        fullTag c (FlagPrefix c) fj "flag" = key ->
        key <> EmptyString ->
        forFields (flatField c (FlagPrefix c) "flag") (take j (fields l))
          (getFlags flags, ∅) = Ok (st, out) ->
        loadFlags l = Err (ErrDuplicated key)).
Proof.
  intros Hdup Hnew c. repeat split.
  - intros. now apply setField_absent.
  - intros. now apply setField_duplicate.
  - intros i j fi fj key st out Hij Hi Hj Hki Hkj Hkey Hreach.
    rewrite loadEnvironment_unfold by exact Hnew. fold c.
    now rewrite (flat_loop_duplicate c _ _ key _ out _ st i j fi fj).
  - intros flags i j fi fj key st out Hflags Hij Hi Hj Hki Hkj Hkey Hreach.
    rewrite (loadFlags_unfold _ flags) by assumption. fold c.
    now rewrite (flat_loop_duplicate c _ _ key _ out _ st i j fi fj).
Qed.


(** ** The check for unknown keys *)

Lemma unknownKey_Some (prefix : string) (values : gmap string any)
  (dupls : gset string) (k : string) :
  unknownKey prefix values dupls = Some k ->
  is_Some (values !! k) /\ (k ∉ dupls) /\ HasPrefix k prefix = true.
Proof.
  unfold unknownKey. intros H.
  apply head_Some in H as [rest H].
  assert (Hin : In k (List.filter (fun key => HasPrefix key prefix)
                        (map fst (map_to_list
                                    (foldr delete values (elements dupls))))))
    by (rewrite H; now left).
  apply filter_In in Hin as [Hin Hp].
  apply in_map_iff in Hin as ([k' x] & <- & Hin).
  apply list_elem_of_In, elem_of_map_to_list, lookup_foldr_delete_Some in Hin
    as [Hd Hv].
  simpl. rewrite elem_of_elements in Hd. rewrite Hv. eauto.
Qed.

Lemma unknownKey_None (prefix : string) (values : gmap string any)
  (dupls : gset string) :
  unknownKey prefix values dupls = None ->
  forall k, is_Some (values !! k) -> k ∉ dupls -> HasPrefix k prefix = false.
Proof.
  unfold unknownKey. intros H k [x Hx] Hd.
  apply head_None in H.
  destruct (HasPrefix k prefix) eqn:Hp; [|reflexivity]. exfalso.
  assert (Hin : In k (List.filter (fun key => HasPrefix key prefix)
                        (map fst (map_to_list
                                    (foldr delete values (elements dupls)))))).
  { apply filter_In. split; [|exact Hp].
    apply in_map_iff. exists (k, x). split; [reflexivity|].
    apply list_elem_of_In, elem_of_map_to_list, lookup_foldr_delete_Some.
    now rewrite elem_of_elements. }
  now rewrite H in Hin.
Qed.

(** [postEnvCheck] fails, and then with the unknown-variable error, if
    and only if the check is enabled, the prefix is not empty, and a key of
    [values] outside [dupls] starts with the prefix. *)
Lemma postEnvCheck_Err (c : Config) (values : gmap string any)
  (dupls : gset string) :
  (exists e, postEnvCheck c values dupls = Err e)
  <-> (AllowUnknownEnvs c = false /\ EnvPrefix c <> EmptyString
       /\ exists k, is_Some (values !! k) /\ (k ∉ dupls)
                    /\ HasPrefix k (EnvPrefix c) = true).
Proof.
  unfold postEnvCheck. split.
  - intros [e H].
    destruct (AllowUnknownEnvs c); [discriminate|].
    destruct (isEmpty (EnvPrefix c)) eqn:Hp; [discriminate|]. simpl in H.
    apply isEmpty_false in Hp.
    destruct (unknownKey _ _ _) as [k|] eqn:Hk; [|discriminate].
    apply unknownKey_Some in Hk. eauto.
  - intros (Hallow & Hp & k & Hv & Hd & Hk).
    apply isEmpty_false in Hp. rewrite Hallow, Hp. simpl.
    destruct (unknownKey _ _ _) as [k'|] eqn:Hk'; [eauto|].
    rewrite (unknownKey_None _ _ _ Hk' k Hv Hd) in Hk. discriminate.
Qed.

Lemma postEnvCheck_cases (c : Config) (values : gmap string any)
  (dupls : gset string) :
  postEnvCheck c values dupls = Ok tt
  \/ exists k, postEnvCheck c values dupls = Err (ErrUnknownEnv k).
Proof.
  unfold postEnvCheck.
  destruct (_ || _); [now left|].
  destruct (unknownKey _ _ _); [right; eauto | now left].
Qed.

(** Without duplicates allowed, after a successful loop the recorded keys
    are the keys of the fields, and the source map is unchanged outside
    them. *)
Lemma flat_loop_state (c : Config) (prefix tag : string) (fs : list fieldData) :
  AllowDuplicates c = false ->
  forall (values : gmap string any) (dupls : gset string)
         (st : gmap string any * gset string) (out : list fieldData),
    forFields (flatField c prefix tag) fs (values, dupls) = Ok (st, out) ->
    (forall k, k ∈ snd st
               <-> k ∈ dupls
                   \/ exists f, In f fs /\ fullTag c prefix f tag = k
                                /\ k <> EmptyString)
    /\ (forall k, k ∉ snd st -> fst st !! k = values !! k).
Proof.
  intros Hdup. induction fs as [|x fs IH]; intros values dupls st out H.
  - injection H as <- <-. simpl. split; [|auto].
    intros k. split; [auto | intros [H|(f & [] & _)]; exact H].
  - apply forFields_Ok_cons in H as ([v1 d1] & x' & rest' & Hbody & Hrest & ->).
    destruct (IH _ _ _ _ Hrest) as [Hkeys Hvals].
    destruct (string_dec (fullTag c prefix x tag) EmptyString) as [Hx|Hx].
    + rewrite flatField_empty_key in Hbody by exact Hx.
      injection Hbody as <- <- <-. split; [|exact Hvals].
      intros k. rewrite Hkeys. split.
      * intros [H|(f & Hin & Hf)]; [now left | right; exists f; simpl; auto].
      * intros [H|(f & [<-|Hin] & Hf & Hk)]; [now left | congruence |].
        right. exists f. auto.
    + rewrite flatField_key in Hbody by exact Hx. simpl in Hbody.
      apply setField_Ok in Hbody as [Hst _]. rewrite Hdup in Hst.
      destruct Hst as (Hfresh & -> & ->). split.
      * intros k. rewrite Hkeys, elem_of_union, elem_of_singleton. split.
        -- intros [[->|H]|(f & Hin & Hf)].
           ++ right. exists x. simpl. auto.
           ++ now left.
           ++ right. exists f. simpl. tauto.
        -- intros [H|(f & [<-|Hin] & Hf & Hk)].
           ++ left. now right.
           ++ left. left. now symmetry.
           ++ right. exists f. auto.
      * intros k Hk. rewrite (Hvals k Hk). apply lookup_delete_ne.
        intros <-. apply Hk, Hkeys. left.
        apply elem_of_union_l, elem_of_singleton. reflexivity.
Qed.

(** The environment pass with duplicates not allowed: once the field loop
    has succeeded, the pass fails, with the unknown-variable error, if and
    only if the check is enabled, the prefix is not empty, and a variable
    that is the key of no field starts with the prefix. *)
Lemma loadEnvironment_unknown (l : Loader) (st : gmap string any * gset string)
  (out : list fieldData) :
  NewParser (config l) = false ->
  AllowDuplicates (config l) = false ->
  let c := config l in
  let envs := getEnv (default [] (Envs c)) in
  forFields (flatField c (EnvPrefix c) "env") (fields l) (envs, ∅) = Ok (st, out) ->
  (loadEnvironment l = Ok (withFields l out)
   \/ exists k, loadEnvironment l = Err (ErrUnknownEnv k))
  /\ ((exists e, loadEnvironment l = Err e)
      <-> (AllowUnknownEnvs c = false /\ EnvPrefix c <> EmptyString
           /\ exists k, is_Some (envs !! k)
                /\ (forall f, In f (fields l) ->
                      fullTag c (EnvPrefix c) f "env" <> k)
                /\ HasPrefix k (EnvPrefix c) = true)).
Proof.
  intros Hnew Hdup c envs Hloop.
  rewrite loadEnvironment_unfold by exact Hnew. fold c envs. rewrite Hloop.
  simpl.
  destruct (flat_loop_state c _ _ _ Hdup _ _ _ _ Hloop) as [Hkeys Hvals].
  split.
  - destruct (postEnvCheck_cases c (fst st) (snd st)) as [->|[k ->]];
      simpl; eauto.
  - transitivity (exists e, postEnvCheck c (fst st) (snd st) = Err e).
    { destruct (postEnvCheck c (fst st) (snd st)) as [[]|e0|m0]; simpl;
        split; intros [e' H]; try discriminate; eauto. }
    rewrite postEnvCheck_Err. fold c. split.
    + intros (Ha & Hp & k & Hv & Hd & Hk). repeat split; auto.
      exists k. rewrite <- (Hvals k Hd). repeat split; auto.
      intros f Hin Hf. apply Hd, Hkeys. right. exists f. repeat split; auto.
      intros ->. now apply isEmpty_false in Hp; destruct (EnvPrefix c).
    + intros (Ha & Hp & k & Hv & Hf & Hk). repeat split; auto.
      assert (Hd : k ∉ snd st).
      { intros Hd. apply Hkeys in Hd as [Hd|(f & Hin & Hkf & _)].
        - now apply not_elem_of_empty in Hd.
        - now apply (Hf f). }
      exists k. rewrite (Hvals k Hd). auto.
Qed.

(** The same pass with duplicates allowed: nothing is recorded and
    nothing removed, so that with the check enabled and a prefix set the
    pass fails as soon as any variable starts with the prefix, the ones
    that fields were set from included. *)
Lemma loadEnvironment_unknown_allowing_duplicates (l : Loader)
  (st : gmap string any * gset string) (out : list fieldData) (k : string) :
  NewParser (config l) = false ->
  AllowDuplicates (config l) = true ->
  let c := config l in
  let envs := getEnv (default [] (Envs c)) in
  forFields (flatField c (EnvPrefix c) "env") (fields l) (envs, ∅) = Ok (st, out) ->
  AllowUnknownEnvs c = false -> EnvPrefix c <> EmptyString ->
  is_Some (envs !! k) -> HasPrefix k (EnvPrefix c) = true ->
  exists k', loadEnvironment l = Err (ErrUnknownEnv k').
Proof.
  intros Hnew Hdup c envs Hloop Ha Hp Hv Hk.
  rewrite loadEnvironment_unfold by exact Hnew. fold c envs. rewrite Hloop.
  simpl. apply flat_loop_state_kept in Hloop; [|exact Hdup]. subst st. simpl.
  assert (Herr : exists e, postEnvCheck c envs ∅ = Err e).
  { apply postEnvCheck_Err. repeat split; auto. exists k.
    repeat split; auto. apply not_elem_of_empty. }
  destruct (postEnvCheck_cases c envs ∅) as [H|[k' H]].
  - destruct Herr as [e He]. congruence.
  - exists k'. now rewrite H.
Qed.

(** ** Coercion *)

Lemma unwrap_not_pointer (v : Value) : kindOf (vtype v) <> Ptr -> unwrap v = v.
Proof. unfold unwrap. destruct (vtype v); simpl; congruence. Qed.

Lemma setValue_value (f : fieldData) : setValue f (value f) = f.
Proof. now destruct f. Qed.

(** A nil value leaves every cell alone, the check for it being the first
    thing [setFieldData] does. *)
Lemma setFieldData_nil (c : Config) (f : fieldData) :
  setFieldData c f ANil = Ok f.
Proof. reflexivity. Qed.

(** An empty string moves the handle of a pointer cell to its pointee,
    which is allocated when the pointer was nil, and does nothing else. *)
Lemma setFieldData_empty_string (c : Config) (f : fieldData) :
  setFieldData c f (AString EmptyString) = Ok (setValue f (unwrap (value f))).
Proof. reflexivity. Qed.

Lemma setFieldData_empty_string_kept (c : Config) (f : fieldData) :
  kindOf (vtype (value f)) <> Ptr ->
  setFieldData c f (AString EmptyString) = Ok f.
Proof.
  intros Hkind.
  now rewrite setFieldData_empty_string, unwrap_not_pointer, setValue_value.
Qed.

(** C7. On a cell that is not a pointer, a nil value and an empty string
    are no value: [setFieldData] succeeds and the descriptor, its cell and
    its [isSet] mark included, is returned as it was. *)
Theorem setFieldData_no_value (c : Config) (f : fieldData) (v : any) :
  kindOf (vtype (value f)) <> Ptr ->
  v = ANil \/ v = AString EmptyString ->
  setFieldData c f v = Ok f.
Proof.
  intros Hkind [-> | ->];
    [apply setFieldData_nil | now apply setFieldData_empty_string_kept].
Qed.


(** ** The schema walker *)

(** The content that the walk leaves in a struct, without the descriptors:
    a settable member that is a struct is walked in place, a settable
    member that is a pointer to a struct points to the walk of a fresh zero
    struct, every other member keeps its content. *)
Definition walkedMembers (walked : rtype -> rvalue -> bool -> rvalue)
  (canSet : bool) : list (FieldDecl * rtype) -> list rvalue -> list rvalue :=
  fix loop (ms : list (FieldDecl * rtype)) (vs : list rvalue) {struct ms} :=
    match ms with
    | [] => []
    | (d, ft) :: ms' =>
        let value := hd (zero ft) vs in
        (if negb (canSet && decl_exported d) then value
         else match ft with
              | TStruct _ => walked ft value true
              | TPtr (TStruct _ as st) => VPtr (Some (walked st (zero st) true))
              | _ => value
              end) :: loop ms' (tl vs)
    end.

Fixpoint walked (t : rtype) (x : rvalue) (canSet : bool) {struct t} : rvalue :=
  match t with
  | TStruct members =>
      VStruct (walkedMembers walked canSet members
                 (match x with VStruct vs => vs | _ => [] end))
  | _ => x
  end.

Lemma typeSize_member (d : FieldDecl) (t : rtype)
  (members : list (FieldDecl * rtype)) :
  In (d, t) members -> (typeSize t < typeSize (TStruct members))%nat.
Proof.
  simpl. induction members as [|[d' t'] ms IH]; intros H; [destruct H|].
  destruct H as [H|H].
  - injection H as -> ->. lia.
  - specialize (IH H). lia.
Qed.

Lemma rtype_size_ind (P : rtype -> Prop) :
  (forall t, (forall t', (typeSize t' < typeSize t)%nat -> P t') -> P t) ->
  forall t, P t.
Proof.
  intros H t. remember (typeSize t) as n eqn:E.
  revert t E. induction n as [n IH] using lt_wf_ind. intros t ->.
  apply H. intros t' Hlt. now apply (IH (typeSize t')).
Qed.

Lemma walkMembers_content (c : Config)
  (helper : rtype -> rvalue -> bool -> option fieldData
            -> result (list fieldData * rvalue))
  (w : rtype -> rvalue -> bool -> rvalue)
  (ms : list (FieldDecl * rtype)) :
  (forall d t, In (d, t) ms ->
     forall t', (typeSize t' <= typeSize t)%nat ->
       forall x canSet parent fields x',
         helper t' x canSet parent = Ok (fields, x') -> x' = w t' x canSet) ->
  forall canSet parent vs fields out,
    walkMembers c helper canSet parent ms vs = Ok (fields, out) ->
    out = walkedMembers w canSet ms vs.
Proof.
  induction ms as [|[d ft] ms IH]; intros Hh canSet parent vs fields out H.
  - simpl in H. now injection H as <- <-.
  - assert (IH' : forall fields out,
              walkMembers c helper canSet parent ms (tl vs) = Ok (fields, out) ->
              out = walkedMembers w canSet ms (tl vs)).
    { intros fs' out' H'.
      apply (IH (fun d t Hin => Hh d t (or_intror Hin)) canSet parent (tl vs)
               fs' out' H'). }
    simpl in H. simpl.
    destruct (negb (canSet && decl_exported d)).
    + apply bind_Ok in H as ([fs' out'] & Hrest & H). injection H as <- <-.
      f_equal. eauto.
    + apply bind_Ok in H as (fd & Hfd & H).
      destruct ft as [b| |members|e|k e|e].
      1,2,4,5: apply bind_Ok in H as ([fs' out'] & Hrest & H);
        injection H as <- <-; f_equal; eauto.
      * apply bind_Ok in H as ([sub v'] & Hsub & H).
        apply bind_Ok in H as ([fs' out'] & Hrest & H). injection H as <- <-.
        f_equal; [|eauto].
        eapply (Hh d (TStruct members)); [now left | reflexivity | exact Hsub].
      * destruct e as [b| |members|e|k e|e].
        1,2,4,5,6: apply bind_Ok in H as ([fs' out'] & Hrest & H);
          injection H as <- <-; f_equal; eauto.
        apply bind_Ok in H as ([sub v'] & Hsub & H).
        apply bind_Ok in H as ([fs' out'] & Hrest & H). injection H as <- <-.
        f_equal; [|eauto]. do 2 f_equal.
        eapply (Hh d (TPtr (TStruct members))); [now left | | exact Hsub].
        simpl. lia.
Qed.

(** The content that [getFieldsHelper] returns is [walked]. *)
Lemma getFieldsHelper_content (c : Config) (t : rtype) :
  forall x canSet parent fields x',
    getFieldsHelper c t x canSet parent = Ok (fields, x') ->
    x' = walked t x canSet.
Proof.
  induction t as [t IH] using rtype_size_ind.
  intros x canSet parent fields x' H.
  destruct t as [b| |members|e|k e|e]; try discriminate.
  simpl in H. apply bind_Ok in H as ([fs out] & Hloop & H).
  injection H as <- <-. simpl. f_equal.
  eapply walkMembers_content; [|exact Hloop].
  intros d t Hin t' Hle. apply IH.
  pose proof (typeSize_member d t members Hin). lia.
Qed.

Lemma walkedMembers_pointer (w : rtype -> rvalue -> bool -> rvalue)
  (ms : list (FieldDecl * rtype)) :
  forall (vs : list rvalue) (i : nat) (d : FieldDecl)
         (inner : list (FieldDecl * rtype)),
    ms !! i = Some (d, TPtr (TStruct inner)) -> decl_exported d = true ->
    walkedMembers w true ms vs !! i
    = Some (VPtr (Some (w (TStruct inner) (zero (TStruct inner)) true))).
Proof.
  induction ms as [|[d' ft] ms IH]; intros vs i d inner Hi Hd; [discriminate|].
  destruct i as [|i].
  - injection Hi as -> ->. simpl. now rewrite Hd.
  - simpl in Hi. simpl. apply (IH (tl vs) i d inner Hi Hd).
Qed.

(** A struct without members that are structs or pointers to structs. *)
Definition flatStruct (members : list (FieldDecl * rtype)) : Prop :=
  Forall (fun m => match snd m with
                   | TStruct _ | TPtr (TStruct _) => False
                   | _ => True
                   end) members.

Lemma walked_zero_flat (members : list (FieldDecl * rtype)) :
  flatStruct members ->
  walked (TStruct members) (zero (TStruct members)) true = zero (TStruct members).
Proof.
  intros Hflat. simpl. f_equal.
  induction Hflat as [|[d ft] ms Hft _ IH]; [reflexivity|].
  simpl. f_equal; [|exact IH].
  destruct (negb (decl_exported d)); [reflexivity|].
  simpl in Hft. destruct ft as [b| |ms'|e|k e|e]; try reflexivity;
    [contradiction|].
  destruct e; try reflexivity. contradiction.
Qed.

(** C9. In a successful walk of a settable struct, every exported member
    that is a pointer to a struct points, afterwards, to the walk of a
    fresh zero struct, whatever the member held before: the former
    pointee, nil or not, is not consulted. The fresh struct is the zero
    struct itself when it has no struct members of its own. *)
Theorem getFieldsHelper_allocates_pointers (c : Config)
  (members inner : list (FieldDecl * rtype)) (x x' : rvalue)
  (parent : option fieldData) (fields : list fieldData) (i : nat)
  (d : FieldDecl) :
  getFieldsHelper c (TStruct members) x true parent = Ok (fields, x') ->
  members !! i = Some (d, TPtr (TStruct inner)) ->
  decl_exported d = true ->
  let fresh := walked (TStruct inner) (zero (TStruct inner)) true in
  (exists out, x' = VStruct out /\ out !! i = Some (VPtr (Some fresh)))
  /\ (flatStruct inner -> fresh = zero (TStruct inner)).
Proof.
  intros H Hi Hd fresh. split.
  - apply getFieldsHelper_content in H. subst x'. simpl.
    eexists. split; [reflexivity|]. now apply (walkedMembers_pointer _ _ _ _ d).
  - apply walked_zero_flat.
Qed.

(** ** Assigning a mapping to a struct *)

Lemma foldM_app {A S : Type} (body : S -> A -> result S) (xs ys : list A) (s : S) :
  foldM body (xs ++ ys) s = (do s' <- foldM body xs s; foldM body ys s').
Proof.
  revert s. induction xs as [|x xs IH]; intros s; simpl; [reflexivity|].
  destruct (body s x); simpl; auto.
Qed.

Lemma foldM_lookup {A S : Type} (body : S -> A -> result S) (xs : list A)
  (s s' : S) (n : nat) (x : A) :
  foldM body xs s = Ok s' -> xs !! n = Some x ->
  exists sn, foldM body (take n xs) s = Ok sn.
Proof.
  intros H Hn. rewrite <- (take_drop n xs), foldM_app in H.
  apply bind_Ok in H as (sn & Hsn & _). eauto.
Qed.

Lemma FieldByName_Some (members : list (FieldDecl * rtype)) (name : string)
  (i : nat) (d : FieldDecl) (t : rtype) :
  FieldByName members name = Some (i, d, t) ->
  decl_name d = name /\ members !! i = Some (d, t).
Proof.
  revert i. induction members as [|[d' t'] ms IH]; intros i H; [discriminate|].
  simpl in H. destruct (String.eqb (decl_name d') name) eqn:E.
  - injection H as <- <- <-. apply String.eqb_eq in E. auto.
  - destruct (FieldByName ms name) as [[[j d''] t'']|]; [|discriminate].
    injection H as <- <- <-. destruct (IH j eq_refl). auto.
Qed.

Lemma FieldByName_None (members : list (FieldDecl * rtype)) (name : string) :
  FieldByName members name = None
  <-> forall d t, In (d, t) members -> decl_name d <> name.
Proof.
  induction members as [|[d' t'] ms IH]; simpl.
  - split; [intros _ d t [] | reflexivity].
  - destruct (String.eqb (decl_name d') name) eqn:E.
    + apply String.eqb_eq in E. split; [discriminate|].
      intros H. now destruct (H d' t' (or_introl eq_refl)).
    + apply String.eqb_neq in E.
      destruct (FieldByName ms name) as [[[j d''] t'']|].
      * split; [discriminate|]. intros H. exfalso.
        assert (Hms : forall d t, In (d, t) ms -> decl_name d <> name)
          by (intros d0 t0 Hin; apply (H d0 t0); now right).
        apply IH in Hms. discriminate.
      * split; [|reflexivity]. intros _ d t [H|H].
        -- now injection H as <- <-.
        -- now apply (proj1 IH eq_refl d t).
Qed.

Lemma m2sEntry_struct (c : Config) (rec : fieldData -> any -> result fieldData)
  (sv sv' : Value) (entry : string * any) (members : list (FieldDecl * rtype)) :
  vtype sv = TStruct members ->
  m2sEntry c rec sv entry = Ok sv' ->
  vtype sv' = TStruct members /\ exists vals, vdata sv' = VStruct vals.
Proof.
  intros Ht H. unfold m2sEntry in H. rewrite Ht in H.
  destruct (vdata sv) as [| | | | | |vals| | | |]; try discriminate.
  destruct (FieldByName members _) as [[[i d] t]|]; [|discriminate].
  destruct (negb _); [discriminate|].
  apply bind_Ok in H as (fd & _ & H). apply bind_Ok in H as (fd' & _ & H).
  injection H as <-. simpl. eauto.
Qed.

Lemma m2s_struct (c : Config) (rec : fieldData -> any -> result fieldData)
  (entries : list (string * any)) (members : list (FieldDecl * rtype)) :
  forall (sv sv' : Value),
    vtype sv = TStruct members -> (exists vals, vdata sv = VStruct vals) ->
    m2s c rec entries sv = Ok sv' ->
    vtype sv' = TStruct members /\ exists vals, vdata sv' = VStruct vals.
Proof.
  unfold m2s. induction entries as [|e es IH]; intros sv sv' Ht Hv H.
  - injection H as <-. auto.
  - simpl in H. apply bind_Ok in H as (sv1 & H1 & H).
    destruct (m2sEntry_struct _ _ _ _ _ _ Ht H1). eauto.
Qed.

Lemma m2sEntry_no_such_field (c : Config)
  (rec : fieldData -> any -> result fieldData) (sv : Value)
  (members : list (FieldDecl * rtype)) (vals : list rvalue) (k : string)
  (val : any) :
  vtype sv = TStruct members -> vdata sv = VStruct vals ->
  FieldByName members (Title k) = None ->
  m2sEntry c rec sv (k, val) = Err (ErrNoSuchField (Title k)).
Proof. intros Ht Hv Hn. unfold m2sEntry. simpl. now rewrite Ht, Hv, Hn. Qed.

(** An entry whose titled key names no member stops [m2s]: the loop does
    not succeed, and fails with the no-such-field error when the entries
    before it were assigned. *)
Lemma m2s_unmatched (c : Config) (rec : fieldData -> any -> result fieldData)
  (entries : list (string * any)) (members : list (FieldDecl * rtype))
  (vals : list rvalue) (sv : Value) (n : nat) (k : string) (val : any) :
  vtype sv = TStruct members -> vdata sv = VStruct vals ->
  entries !! n = Some (k, val) ->
  FieldByName members (Title k) = None ->
  isOk (m2s c rec entries sv) = false
  /\ forall sv', m2s c rec (take n entries) sv = Ok sv' ->
       m2s c rec entries sv = Err (ErrNoSuchField (Title k)).
Proof.
  intros Ht Hv Hn Hk.
  assert (Hreach : forall sv', m2s c rec (take n entries) sv = Ok sv' ->
            m2s c rec entries sv = Err (ErrNoSuchField (Title k))).
  { intros sv' Hpre. unfold m2s in *.
    rewrite <- (take_drop_middle entries n (k, val) Hn), foldM_app, Hpre.
    destruct (m2s_struct c rec (take n entries) members sv sv' Ht
                (ex_intro _ vals Hv) Hpre) as [Ht' [vals' Hv']].
    simpl. now rewrite (m2sEntry_no_such_field c rec sv' members vals'). }
  split; [|exact Hreach].
  destruct (m2s c rec entries sv) as [sv'| |] eqn:H; try reflexivity.
  destruct (foldM_lookup _ _ _ _ _ _ H Hn) as [sn Hsn].
  pose proof (Hreach sn Hsn) as E. congruence.
Qed.

Lemma newFieldData_noStructField (c : Config) (v : Value) (p : option fieldData) :
  newFieldData c noStructField v p
  = Ok (mkFieldData (makeName EmptyString p) p noStructField v false false
          (tagsForField c noStructField)).
Proof. unfold newFieldData, TagGet. simpl. now rewrite lookup_empty. Qed.

(** ** The recursion of [setFieldData]

    Every call that the body of [setFieldData] makes is on a descriptor of
    smaller measure, so that the result does not depend on the fuel once
    the fuel exceeds the measure. *)

Lemma mapM_ext {A B : Type} (g1 g2 : A -> result B) (xs : list A) :
  (forall x, g1 x = g2 x) -> mapM g1 xs = mapM g2 xs.
Proof.
  intros H. induction xs as [|x xs IH]; simpl; [reflexivity|].
  now rewrite H, IH.
Qed.

Lemma foldM_ext {A S : Type} (I : S -> Prop) (body1 body2 : S -> A -> result S)
  (xs : list A) :
  (forall s x, I s -> body1 s x = body2 s x) ->
  (forall s x s', I s -> body1 s x = Ok s' -> I s') ->
  forall s, I s -> foldM body1 xs s = foldM body2 xs s.
Proof.
  intros Hext Hinv. induction xs as [|x xs IH]; intros s Hs; simpl;
    [reflexivity|].
  rewrite <- (Hext s x Hs). destruct (body1 s x) as [s'| |] eqn:E; simpl; auto.
  apply IH. eauto.
Qed.

Lemma bind_arg {A B : Type} (r1 r2 : result A) (k : A -> result B) :
  r1 = r2 -> bind r1 k = bind r2 k.
Proof. now intros ->. Qed.

Lemma typeElem_size (t e : rtype) :
  typeElem (Some t) = Ok e -> (typeSize e < typeSize t)%nat.
Proof. destruct t; simpl; intros [= <-]; lia. Qed.

Lemma typeKey_size (t k : rtype) :
  typeKey (Some t) = Ok k -> (typeSize k < typeSize t)%nat.
Proof. destruct t; simpl; intros [= <-]; lia. Qed.

Lemma fieldMeasure_field (f : fieldData) (t : rtype) :
  sf_Type (field f) = Some t -> (typeSize t <= fieldMeasure f)%nat.
Proof. unfold fieldMeasure. intros ->. lia. Qed.

Lemma fieldMeasure_value (f : fieldData) :
  (typeSize (vtype (value f)) <= fieldMeasure f)%nat.
Proof. unfold fieldMeasure. lia. Qed.

Lemma unwrapPointers_size (t : rtype) :
  forall x n, (typeSize (fst (fst (unwrapPointers t x n))) <= typeSize t)%nat.
Proof.
  induction t as [b| |ms|e IHe|k IHk e IHe|e IHe]; intros x n; simpl; try lia.
  assert (H : forall a b,
             (typeSize (fst (fst (unwrapPointers e a b))) <= S (typeSize e))%nat)
    by (intros a b; specialize (IHe a b); lia).
  destruct x as [| | | | | | | | |[y|]|]; apply H.
Qed.

Lemma unwrap_measure (f : fieldData) :
  (fieldMeasure (setValue f (unwrap (value f))) <= fieldMeasure f)%nat.
Proof.
  unfold fieldMeasure, unwrap. simpl.
  destruct (vtype (value f)) as [b| |ms|e|k e|e] eqn:Et;
    try (rewrite Et; lia).
  pose proof (unwrapPointers_size (TPtr e) (vdata (value f)) (vptrs (value f)))
    as H.
  destruct (unwrapPointers (TPtr e) (vdata (value f)) (vptrs (value f)))
    as [[t x] n]. simpl in *. lia.
Qed.

Section Extensional.

Variable c : Config.
Variables rec1 rec2 : fieldData -> any -> result fieldData.
Variable bound : nat.
Hypothesis rec_ext :
  forall fd x, (fieldMeasure fd < bound)%nat -> rec1 fd x = rec2 fd x.

Lemma sliceItem_ext (elemT : rtype) (declT : option rtype) (x : any) :
  (typeSize elemT < bound)%nat ->
  (forall t, declT = Some t -> (typeSize t < bound)%nat) ->
  sliceItem c rec1 elemT declT x = sliceItem c rec2 elemT declT x.
Proof.
  intros He Hd. unfold sliceItem. rewrite newFieldData_noStructField. simpl.
  rewrite rec_ext; [reflexivity|].
  unfold fieldMeasure. simpl. destruct declT as [t|]; [|lia].
  specialize (Hd t eq_refl). lia.
Qed.

Lemma setSlice_ext (f : fieldData) (s : string) :
  (fieldMeasure f <= bound)%nat ->
  setSlice c rec1 f s = setSlice c rec2 f s.
Proof.
  intros Hf. unfold setSlice.
  destruct (sf_Type (field f)) as [t|] eqn:Et; [|reflexivity].
  pose proof (fieldMeasure_field f t Et) as Hsize.
  destruct (typeElem (Some t)) as [e| |] eqn:Ee; simpl; try reflexivity.
  destruct (Kind_eqb (kindOf e) Uint8); [reflexivity|].
  destruct t as [b| |ms|elemT|k elemT|elemT]; try reflexivity.
  injection Ee as <-. simpl in Hsize.
  apply bind_arg, mapM_ext. intros val. cbn zeta.
  rewrite sliceItem_ext; [reflexivity | lia |].
  intros t' [= <-]. lia.
Qed.

Lemma setSliceOfValues_ext (f : fieldData) (v : any) :
  (fieldMeasure f <= bound)%nat ->
  setSliceOfValues c rec1 f v = setSliceOfValues c rec2 f v.
Proof.
  intros Hf. unfold setSliceOfValues.
  destruct v as [| | |items| |]; try reflexivity.
  destruct (sf_Type (field f)) as [t|] eqn:Et; [|reflexivity].
  pose proof (fieldMeasure_field f t Et) as Hsize.
  destruct t as [b| |ms|elemT|k elemT|elemT]; try reflexivity.
  simpl in Hsize. destruct (SetTyped _ _ _); simpl; try reflexivity.
  apply bind_arg, mapM_ext. intros x.
  apply sliceItem_ext; [lia | discriminate].
Qed.

Lemma mapEntry_ext (f : fieldData) (keyT elemT : rtype)
  (entries : list (rvalue * rvalue)) (key : string) (val : any) :
  (fieldMeasure f <= bound)%nat ->
  mapEntry c rec1 f keyT elemT entries key val
  = mapEntry c rec2 f keyT elemT entries key val.
Proof.
  intros Hf. unfold mapEntry, newSimpleFieldData.
  destruct (sf_Type (field f)) as [t|] eqn:Et; [|reflexivity].
  pose proof (fieldMeasure_field f t Et) as Hsize.
  destruct (typeKey (Some t)) as [kt| |] eqn:Ek; cbn [bind]; try reflexivity.
  apply typeKey_size in Ek.
  rewrite !newFieldData_noStructField. cbn [bind].
  rewrite rec_ext by (unfold fieldMeasure; simpl; lia).
  destruct (wrapErr _ (rec2 _ _)) as [fdk'| |]; cbn [bind]; try reflexivity.
  destruct (typeElem (Some (vtype (value f)))) as [et| |] eqn:Ee;
    cbn [bind]; try reflexivity.
  apply typeElem_size in Ee. pose proof (fieldMeasure_value f).
  rewrite newFieldData_noStructField. cbn [bind].
  rewrite rec_ext by (unfold fieldMeasure; simpl; lia).
  reflexivity.
Qed.

Lemma setMap_ext (f : fieldData) (s : string) :
  (fieldMeasure f <= bound)%nat ->
  setMap c rec1 f s = setMap c rec2 f s.
Proof.
  intros Hf. unfold setMap.
  destruct (sf_Type (field f)) as [[b| |ms|e|kt et|e]|]; try reflexivity.
  apply bind_arg, (foldM_ext (fun _ => True)); [| auto | exact I].
  intros acc val _. destruct (cut val ":") as [[k v] ok].
  destruct (negb ok); [reflexivity|]. now apply mapEntry_ext.
Qed.

Lemma setMapOfValues_ext (f : fieldData) (m : list (string * any)) :
  (fieldMeasure f <= bound)%nat ->
  setMapOfValues c rec1 f m = setMapOfValues c rec2 f m.
Proof.
  intros Hf. unfold setMapOfValues.
  destruct (sf_Type (field f)) as [[b| |ms|e|kt et|e]|]; try reflexivity.
  apply bind_arg, (foldM_ext (fun _ => True)); [| auto | exact I].
  intros acc kv _. now apply mapEntry_ext.
Qed.

Lemma m2sEntry_ext (sv : Value) (entry : string * any) :
  (typeSize (vtype sv) <= bound)%nat ->
  m2sEntry c rec1 sv entry = m2sEntry c rec2 sv entry.
Proof.
  intros Hsv. unfold m2sEntry.
  destruct (vtype sv) as [b| |members|e|kt et|e] eqn:Et; try reflexivity.
  destruct (vdata sv) as [| | | | | |vals| | | |]; try reflexivity.
  destruct (FieldByName members _) as [[[i d] t]|] eqn:Ef; [|reflexivity].
  destruct (negb _); [reflexivity|].
  apply FieldByName_Some in Ef as [_ Hi].
  apply list_elem_of_lookup_2, list_elem_of_In, typeSize_member in Hi.
  unfold newFieldData.
  destruct (negb _ && negb _); simpl; [reflexivity|].
  rewrite rec_ext; [reflexivity|]. unfold fieldMeasure. simpl. lia.
Qed.

Lemma m2s_ext (m : list (string * any)) (sv : Value) :
  (typeSize (vtype sv) <= bound)%nat ->
  m2s c rec1 m sv = m2s c rec2 m sv.
Proof.
  intros Hsv. unfold m2s.
  apply (foldM_ext (fun s => vtype s = vtype sv)); [| |reflexivity].
  - intros s x Hs. apply m2sEntry_ext. now rewrite Hs.
  - intros s x s' Hs H.
    destruct (vtype s) as [b| |members|e|kt et|e] eqn:Et;
      try (unfold m2sEntry in H; rewrite Et in H; discriminate).
    apply (m2sEntry_struct _ _ _ _ _ members Et) in H as [H _]. congruence.
Qed.

Lemma setFieldDataBody_ext (f : fieldData) (v : any) :
  (fieldMeasure f <= bound)%nat ->
  setFieldDataBody c rec1 f v = setFieldDataBody c rec2 f v.
Proof.
  intros Hf. unfold setFieldDataBody.
  destruct v as [|s|s|xs|m|m]; try reflexivity.
  all: pose proof (unwrap_measure f) as Hu;
    set (f' := setValue f (unwrap (value f))) in *;
    assert (Hf' : (fieldMeasure f' <= bound)%nat) by lia;
    pose proof (fieldMeasure_value f') as Hv';
    destruct (isEmptyString _); try reflexivity;
    destruct (if vCanAddr (value f') then _ else _); try reflexivity;
    destruct (kindOf (vtype (value f'))); try reflexivity.
  all: try (rewrite newFieldData_noStructField; cbn [bind value];
            match goal with |- context [mii ?x] =>
              destruct (mii x) as [m'| |]; cbn [bind];
              [rewrite (m2s_ext m') by lia; reflexivity
              |reflexivity|reflexivity]
            end).
  all: try (now apply setMap_ext).
  all: try (now apply setMapOfValues_ext).
  all: destruct (typeElem (sf_Type (field f'))) as [e| |]; cbn [bind];
    [|reflexivity|reflexivity];
    destruct (isPrimitive e);
    first [now apply setSlice_ext | now apply setSliceOfValues_ext].
Qed.

End Extensional.

(** Fuel beyond the measure of the descriptor does not change the result
    of [setFieldData]. *)
Lemma setFieldDataFuel_enough (c : Config) (n : nat) :
  forall (m : nat) (f : fieldData) (v : any),
    (fieldMeasure f < n)%nat -> (n <= m)%nat ->
    setFieldDataFuel c m f v = setFieldDataFuel c n f v.
Proof.
  induction n as [|n IH]; intros m f v Hf Hm; [lia|].
  destruct m as [|m]; [lia|]. simpl.
  apply (setFieldDataBody_ext c _ _ (fieldMeasure f)); [|lia].
  intros fd x Hfd. apply IH; lia.
Qed.

Lemma setFieldData_fuel (c : Config) (f : fieldData) (v : any) (fuel : nat) :
  (fieldMeasure f < fuel)%nat ->
  setFieldDataFuel c fuel f v = setFieldData c f v.
Proof. intros H. unfold setFieldData. apply setFieldDataFuel_enough; lia. Qed.

(** What [setFieldDataFuel] answers when the fuel is used up is never
    looked at: with fuel beyond the measure, any other answer [base] at
    the bottom of the recursion gives the same result. *)
Lemma setFieldDataFuel_bottom (c : Config)
  (base : fieldData -> any -> result fieldData) (n : nat) :
  forall (f : fieldData) (v : any),
    (fieldMeasure f < n)%nat ->
    setFieldDataFuel c n f v = Nat.iter n (setFieldDataBody c) base f v.
Proof.
  induction n as [|n IH]; intros f v Hf; [lia|]. simpl.
  apply (setFieldDataBody_ext c _ _ (fieldMeasure f)); [|lia].
  intros fd x Hfd. apply IH; lia.
Qed.

(** On a struct cell whose type does not decode itself, a string-keyed
    mapping is assigned by [m2s]. *)
Lemma setFieldData_struct (c : Config) (f : fieldData)
  (members : list (FieldDecl * rtype)) (entries : list (string * any)) :
  vtype (value f) = TStruct members ->
  textUnmarshaler (TStruct members) = None ->
  setFieldData c f (AMapSI entries)
  = (do sv <- m2s c (setFieldDataFuel c (fieldMeasure f)) entries (value f);
     Ok (setValue f sv)).
Proof.
  intros Ht Hum. unfold setFieldData. simpl.
  rewrite unwrap_not_pointer by (rewrite Ht; discriminate).
  rewrite setValue_value, Ht, Hum. simpl.
  rewrite newFieldData_noStructField. simpl.
  now destruct (vCanAddr (value f)).
Qed.

(** [Title] on a single word: the first byte is upper-cased, the rest is
    kept as written. *)
Lemma titleFrom_word (prev : ascii) (s : string) :
  isSeparator prev = false ->
  forallb (fun ch => negb (isSeparator ch)) (list_ascii_of_string s) = true ->
  titleFrom prev s = s.
Proof.
  revert prev. induction s as [|ch s IH]; intros prev Hp Hs; [reflexivity|].
  simpl in *. apply andb_true_iff in Hs as [Hc Hs]. apply negb_true_iff in Hc.
  rewrite Hp. f_equal. now apply IH.
Qed.

Lemma Title_word (ch : ascii) (s : string) :
  forallb (fun ch => negb (isSeparator ch))
    (list_ascii_of_string (String.String ch s)) = true ->
  Title (String.String ch s) = String.String (toUpper ch) s.
Proof.
  intros H. simpl in H. apply andb_true_iff in H as [Hc Hs].
  apply negb_true_iff in Hc. unfold Title. simpl. f_equal.
  now apply titleFrom_word.
Qed.

(** C8, as the code has it. On the dynamic path a mapping is assigned to
    a struct entry by entry: the key, with the first letter of each of its
    words upper-cased, is looked up among the member names as it then
    reads, letter case included; an entry whose key so normalised names no
    member makes the assignment fail, with the no-such-field error when
    the entries visited before it were assigned. The struct is one without
    embedded members, so that its declared members are all that
    [FieldByName] searches. *)
Theorem m2s_matches_titled_keys (c : Config) (f : fieldData)
  (members : list (FieldDecl * rtype)) (vals : list rvalue)
  (entries : list (string * any)) :
  vtype (value f) = TStruct members ->
  vdata (value f) = VStruct vals ->
  forallb (fun m => negb (decl_anonymous (fst m))) members = true ->
  textUnmarshaler (TStruct members) = None ->
  let rec := setFieldDataFuel c (fieldMeasure f) in
  setFieldData c f (AMapSI entries)
  = (do sv <- m2s c rec entries (value f); Ok (setValue f sv))
  /\ (forall ch s,
        forallb (fun ch => negb (isSeparator ch))
          (list_ascii_of_string (String.String ch s)) = true ->
        Title (String.String ch s) = String.String (toUpper ch) s)
  /\ (forall key i d t,
        FieldByName members (Title key) = Some (i, d, t) ->
        decl_name d = Title key /\ members !! i = Some (d, t))
  /\ (forall key,
        FieldByName members (Title key) = None
        <-> forall d t, In (d, t) members -> decl_name d <> Title key)
  /\ (forall n key val,
        entries !! n = Some (key, val) ->
        FieldByName members (Title key) = None ->
        isOk (setFieldData c f (AMapSI entries)) = false
        /\ forall sv,
             m2s c rec (take n entries) (value f) = Ok sv ->
             setFieldData c f (AMapSI entries)
             = Err (ErrNoSuchField (Title key))).
Proof.
  intros Ht Hv Hdirect Hum rec.
  pose proof (setFieldData_struct c f members entries Ht Hum) as Hset.
  fold rec in Hset. repeat split.
  - exact Hset.
  - apply Title_word.
  - now apply FieldByName_Some in H.
  - now apply FieldByName_Some in H.
  - now apply FieldByName_None.
  - now apply FieldByName_None.
  - destruct (m2s_unmatched c rec entries members vals (value f) n key val
                Ht Hv H H0) as [Hfail _].
    rewrite Hset. now destruct (m2s c rec entries (value f)).
  - intros sv Hpre.
    destruct (m2s_unmatched c rec entries members vals (value f) n key val
                Ht Hv H H0) as [_ Hreach].
    now rewrite Hset, (Hreach sv Hpre).
Qed.

(** ** Precedence of the sources *)

(** The kinds whose setter replaces the content of the cell. *)
Definition scalarKind (k : Kind) : bool :=
  match k with
  | Bool | String | Int | Int8 | Int16 | Int32 | Int64
  | Uint | Uint8 | Uint16 | Uint32 | Uint64 | Uintptr
  | Float32 | Float64 | Interface => true
  | _ => false
  end.

(** A field whose cell is a scalar that does not decode itself. *)
Definition plainCell (f : fieldData) : Prop :=
  scalarKind (kindOf (vtype (value f))) = true
  /\ textUnmarshaler (vtype (value f)) = None.

(** The descriptor [f] with content [x] in its cell and [isSet] mark [b]. *)
Definition variant (f : fieldData) (x : rvalue) (b : bool) : fieldData :=
  mkFieldData (name f) (parent f) (field f) (Set_ (value f) x) b
    (isRequired f) (tags f).

(** A source value that is a value: neither nil nor the empty string. *)
Definition supplied (v : any) : bool :=
  match v with
  | ANil => false
  | AString s => negb (isEmpty s)
  | _ => true
  end.

Lemma variant_self (f : fieldData) : variant f (vdata (value f)) (isSet f) = f.
Proof. destruct f as [n p sf [t x k s a] b r tg]. reflexivity. Qed.

Lemma variant_variant (f : fieldData) (x y : rvalue) (a b : bool) :
  variant (variant f x a) y b = variant f y b.
Proof. reflexivity. Qed.

Lemma fullTag_variant (c : Config) (prefix tag : string) (f : fieldData)
  (x : rvalue) (b : bool) :
  fullTag c prefix (variant f x b) tag = fullTag c prefix f tag.
Proof. reflexivity. Qed.

Lemma setIsSet_variant (f : fieldData) (x : rvalue) (a b : bool) :
  setIsSet (variant f x a) b = variant f x b.
Proof. reflexivity. Qed.

Lemma plainCell_not_pointer (f : fieldData) :
  plainCell f -> kindOf (vtype (value f)) <> Ptr.
Proof. intros [Hk _] E. rewrite E in Hk. discriminate. Qed.

(** On a plain cell a value that is none changes nothing. *)
Lemma setFieldData_plain_none (c : Config) (f : fieldData) (v : any) :
  plainCell f -> supplied v = false -> setFieldData c f v = Ok f.
Proof.
  intros Hp Hv. destruct v as [|s| | | |]; try discriminate;
    [apply setFieldData_nil|].
  simpl in Hv. apply negb_false_iff, isEmpty_true in Hv. subst s.
  now apply setFieldData_empty_string_kept, plainCell_not_pointer.
Qed.

(** What the scalar setters store for the value [v] in the cell of [f]:
    the setters of [setFieldData] for the scalar kinds, without the
    descriptor. *)
Definition coerceScalar (f : fieldData) (v : any) : result rvalue :=
  let t := vtype (value f) in
  match kindOf t with
  | Bool => do val <- ParseBool (Sprint v); Ok (VBool val)
  | String => Ok (VString (Sprint v))
  | Int | Int8 | Int16 | Int32 =>
      do val <- lift (ParseInt (Sprint v) (Bits t)); Ok (VInt val)
  | Int64 =>
      match sf_Type (field f) with
      | Some TDuration =>
          do val <- lift (ParseDuration (Sprint v));
          if rtype_eqb TDuration t then Ok (VInt val)
          else Panic "reflect.Set: value is not assignable"
      | _ => do val <- lift (ParseInt (Sprint v) (Bits t)); Ok (VInt val)
      end
  | Uint | Uint8 | Uint16 | Uint32 | Uint64 | Uintptr =>
      do val <- lift (ParseUint (Sprint v) (Bits t)); Ok (VUint val)
  | Float32 | Float64 =>
      do val <- lift (ParseFloat (Sprint v) (Bits t)); Ok (VFloat val)
  | Interface => Ok (VIface (Some v))
  | kind => Err (ErrKindNotSupported (kindName kind))
  end.

(** On a plain cell the outcome of [setFieldData] does not depend on the
    content of the cell, on the [isSet] mark nor on the configuration, and
    the result differs from the descriptor in the content only. *)
Lemma setFieldData_plain (c : Config) (f : fieldData) (v : any) (y : rvalue)
  (a : bool) :
  plainCell f -> supplied v = true ->
  setFieldData c (variant f y a) v
  = (do z <- coerceScalar f v; Ok (variant f z a)).
Proof.
  intros [Hk Hum] Hv.
  destruct f as [n p sf [t d k s a0] b0 rq tg]. simpl in Hk, Hum.
  unfold setFieldData, variant, fieldMeasure, coerceScalar. simpl.
  destruct v as [|sv|sv|xs|m|m]; try discriminate.
  all: destruct t as [[]| |ms|e|kt e|e]; try discriminate;
    unfold unwrap, isEmptyString; simpl; rewrite ?Hum;
    try (simpl in Hv; apply negb_true_iff in Hv; rewrite Hv).
  all: unfold setBool, setInt, setInt64, setUint, setFloat, setString,
         setInterface, SetTyped, Set_, setValue; simpl.
  all: try (destruct a0).
  all: try reflexivity.
  all: try match goal with
       | |- context [sf_Type ?fld] =>
           destruct (sf_Type fld) as [[| | | | |]|]; simpl; unfold setInt; simpl
       end.
  all: try match goal with
       | |- context [ParseDuration ?s] => destruct (ParseDuration s); reflexivity
       | |- context [ParseBool ?s] => destruct (ParseBool s); reflexivity
       | |- context [ParseInt ?s ?n] => destruct (ParseInt s n); reflexivity
       | |- context [ParseUint ?s ?n] => destruct (ParseUint s n); reflexivity
       | |- context [ParseFloat ?s ?n] => destruct (ParseFloat s n); reflexivity
       end.
Qed.

Lemma plainCell_variant (f : fieldData) (x : rvalue) (b : bool) :
  plainCell f -> plainCell (variant f x b).
Proof. intros H. exact H. Qed.

(** The value that a source supplies, if it supplies one. *)
Definition sourceValue (o : option any) : option any :=
  match o with
  | Some v => if supplied v then Some v else None
  | None => None
  end.

(** The value that a flat source supplies to [f]. *)
Definition flatValue (c : Config) (prefix tag : string)
  (values : gmap string any) (f : fieldData) : option any :=
  if isEmpty (fullTag c prefix f tag) then None
  else sourceValue (values !! fullTag c prefix f tag).

(** The value that the default of [f] supplies. *)
Definition defaultValue (f : fieldData) : option any :=
  sourceValue (Some (AString (Tag f "default"))).

(** [f'] is [f0] after a pass that supplied [o]: its content is the
    coercion of the value supplied, or the former content [x] if the pass
    supplied none. *)
Definition written (f0 : fieldData) (o : option any) (x : rvalue)
  (f' : fieldData) : Prop :=
  exists z b, f' = variant f0 z b
              /\ match o with
                 | Some v => coerceScalar f0 v = Ok z
                 | None => z = x
                 end.

Lemma written_set (c : Config) (f0 f' : fieldData) (v : any) (x : rvalue)
  (b : bool) :
  plainCell f0 ->
  (exists g, setFieldData c (variant f0 x b) v = Ok g /\ f' = setIsSet g true) ->
  written f0 (sourceValue (Some v)) x f'.
Proof.
  intros Hp (g & Hg & ->). unfold written, sourceValue.
  destruct (supplied v) eqn:Hv.
  - rewrite setFieldData_plain in Hg by assumption.
    apply bind_Ok in Hg as (z & Hz & Hg). injection Hg as <-.
    exists z, true. auto.
  - rewrite setFieldData_plain_none in Hg by assumption.
    injection Hg as <-. exists x, true. auto.
Qed.

Lemma written_kept (f0 : fieldData) (x : rvalue) (b : bool) :
  written f0 None x (variant f0 x b).
Proof. exists x, b. auto. Qed.

Lemma flatOutcome_written (c : Config) (prefix tag : string)
  (values : gmap string any) (f0 f' : fieldData) (x : rvalue) (b : bool) :
  plainCell f0 ->
  flatOutcome c prefix tag values (variant f0 x b) f' ->
  written f0 (flatValue c prefix tag values f0) x f'.
Proof.
  intros Hp H. unfold flatOutcome in H. unfold flatValue.
  rewrite fullTag_variant in H.
  destruct (isEmpty (fullTag c prefix f0 tag)).
  - subst f'. apply written_kept.
  - destruct (values !! fullTag c prefix f0 tag) as [v|].
    + now apply (written_set c _ _ v x b).
    + subst f'. apply written_kept.
Qed.

Lemma loadDefault_written (c : Config) (f0 f' : fieldData) (x : rvalue)
  (b : bool) :
  plainCell f0 ->
  loadDefault c (variant f0 x b) = Ok f' ->
  written f0 (defaultValue f0) x f'.
Proof.
  intros Hp H. unfold loadDefault in H.
  apply bind_Ok in H as (g & Hg & H). injection H as <-.
  change (Tag (variant f0 x b) "default") with (Tag f0 "default") in *.
  unfold written, defaultValue, sourceValue. simpl supplied.
  destruct (isEmpty (Tag f0 "default")) eqn:Hd; simpl.
  - rewrite setFieldData_plain_none in Hg; auto.
    + injection Hg as <-. exists x, false. auto.
    + simpl. now rewrite Hd.
  - rewrite setFieldData_plain in Hg; auto.
    + apply bind_Ok in Hg as (z & Hz & Hg). injection Hg as <-.
      exists z, true. auto.
    + simpl. now rewrite Hd.
Qed.

(** The value that the decoded map [m] holds for [f], directly or after
    [find]. *)
Definition fileLookup (c : Config) (tag : string) (m : gmap string any)
  (f : fieldData) : option any :=
  let name := fullTag c EmptyString f tag in
  if isEmpty name then None
  else match m !! name with
       | Some v => Some v
       | None => find m name !! name
       end.

Lemma loadFileField_Ok (c : Config) (tag : string) (m m' : gmap string any)
  (f f' : fieldData) :
  loadFileField c tag m f = Ok (m', f') ->
  match fileLookup c tag m f with
  | Some v => exists g, setFieldData c f v = Ok g /\ f' = setIsSet g true
  | None => f' = f
  end.
Proof.
  unfold loadFileField, fileLookup. intros H.
  destruct (isEmpty (fullTag c EmptyString f tag)); [now injection H|].
  destruct (m !! fullTag c EmptyString f tag) as [v|].
  - apply bind_Ok in H as (g & Hg & H). injection H as <- <-. eauto.
  - destruct (find m _ !! _) as [v|].
    + apply bind_Ok in H as (g & Hg & H). injection H as <- <-. eauto.
    + now injection H.
Qed.

(** The value that the file pass over the decoded map [m] finds for the
    field at position [i]: the lookup in the map as the fields before it
    have left it. *)
Definition fileHit (c : Config) (tag : string) (fs : list fieldData)
  (m : gmap string any) (i : nat) : option any :=
  match fs !! i, forFields (loadFileField c tag) (take i fs) m with
  | Some f, Ok (mi, _) => fileLookup c tag mi f
  | _, _ => None
  end.

Lemma fileLoop_written (c : Config) (tag : string) (fs out : list fieldData)
  (m m' : gmap string any) (i : nat) (f0 : fieldData) (x : rvalue) (b : bool) :
  plainCell f0 ->
  forFields (loadFileField c tag) fs m = Ok (m', out) ->
  fs !! i = Some (variant f0 x b) ->
  exists f', out !! i = Some f'
             /\ written f0 (sourceValue (fileHit c tag fs m i)) x f'.
Proof.
  intros Hp H Hi.
  destruct (forFields_lookup _ _ _ _ _ _ _ H Hi) as (mi & mi' & f' & Hpre & Hbody & Hout).
  exists f'. split; [exact Hout|].
  unfold fileHit. rewrite Hi, Hpre.
  apply loadFileField_Ok in Hbody.
  destruct (fileLookup c tag mi (variant f0 x b)) as [v|].
  - now apply (written_set c _ _ v x b).
  - subst f'. apply written_kept.
Qed.

Lemma mapM_lookup {A B : Type} (g : A -> result B) (xs : list A) (ys : list B)
  (i : nat) (x : A) :
  mapM g xs = Ok ys -> xs !! i = Some x ->
  exists y, g x = Ok y /\ ys !! i = Some y.
Proof.
  revert ys i. induction xs as [|x' xs IH]; intros ys i H Hi; [discriminate|].
  simpl in H. apply bind_Ok in H as (y & Hy & H).
  apply bind_Ok in H as (ys' & Hys & H). injection H as <-.
  destruct i as [|i].
  - injection Hi as ->. eauto.
  - simpl in Hi. destruct (IH _ _ Hys Hi) as (y' & H1 & H2). eauto.
Qed.

(** The value that loading [file] supplies to the field at position [i]. *)
Definition loadFileValue (l : Loader) (file : string) (i : nat) : option any :=
  match FileDecoders (config l) !! ToLower (Ext file) with
  | Some decoder =>
      match DecodeFile decoder file with
      | Ok m => sourceValue (fileHit (config l) (Format decoder) (fields l) m i)
      | _ => None
      end
  | None => None
  end.

Lemma loadFile_written (l l' : Loader) (file : string) (i : nat)
  (f0 : fieldData) (x : rvalue) (b : bool) :
  NewParser (config l) = false ->
  loadFile l file = Ok l' ->
  l' = withFields l (fields l')
  /\ (plainCell f0 -> fields l !! i = Some (variant f0 x b) ->
      exists f', fields l' !! i = Some f'
                 /\ written f0 (loadFileValue l file i) x f').
Proof.
  intros Hnew H. unfold loadFile in H. unfold loadFileValue.
  destruct (FileDecoders (config l) !! ToLower (Ext file)) as [decoder|];
    [|discriminate].
  apply bind_Ok in H as (m & Hm & H). rewrite Hm, Hnew in *.
  apply bind_Ok in H as ([rest fs] & Hloop & H).
  assert (Hl : l' = withFields l fs).
  { destruct (AllowUnknownFields (config l)); [now injection H|].
    destruct (map_to_list rest) as [|[k v] r]; [now injection H|discriminate]. }
  subst l'. split; [reflexivity|]. intros Hp Hi.
  now apply (fileLoop_written _ _ _ _ _ _ _ _ _ _ Hp Hloop Hi).
Qed.

(** The value that the loop over [files] supplies to the field at
    position [i]: that of the last file loaded that supplies one. *)
Fixpoint filesValueFrom (l : Loader) (files : list string) (i : nat)
  : option any :=
  match files with
  | [] => None
  | file :: rest =>
      if notExist file then
        if FailOnFileNotFound (config l) then None
        else filesValueFrom l rest i
      else
        match loadFile l file with
        | Ok l' =>
            if negb (MergeFiles (config l')) then loadFileValue l file i
            else match filesValueFrom l' rest i with
                 | Some v => Some v
                 | None => loadFileValue l file i
                 end
        | _ => None
        end
  end.

(** The value that the files pass supplies to the field at position [i]. *)
Definition filesValue (l : Loader) (i : nat) : option any :=
  match (if isEmpty (FileFlag (config l)) then Ok l else loadFileFlag l) with
  | Ok l' => filesValueFrom l' (Files (config l')) i
  | _ => None
  end.

Lemma loadFilesFrom_fields (files : list string) :
  forall (l l' : Loader),
    NewParser (config l) = false ->
    loadFilesFrom l files = Ok l' -> l' = withFields l (fields l').
Proof.
  induction files as [|file rest IH]; intros l l' Hnew H.
  - injection H as <-. now destruct l.
  - simpl in H. destruct (notExist file).
    + destruct (FailOnFileNotFound (config l)); [discriminate|]. now apply IH.
    + apply bind_Ok in H as (l1 & H1 & H).
      destruct (loadFile_written l l1 file 0
                  (mkFieldData EmptyString None noStructField
                     (cellOf TDuration VOpaque) false false ∅) VOpaque false
                  Hnew H1) as [Hl1 _].
      destruct (negb (MergeFiles (config l1))); [now injection H as <-|].
      rewrite (IH l1 l'); [rewrite Hl1; reflexivity | now rewrite Hl1 | exact H].
Qed.

Lemma loadFilesFrom_written (files : list string) (i : nat) (f0 : fieldData) :
  plainCell f0 ->
  forall (l l' : Loader) (x : rvalue) (b : bool),
    NewParser (config l) = false ->
    loadFilesFrom l files = Ok l' ->
    fields l !! i = Some (variant f0 x b) ->
    exists f', fields l' !! i = Some f'
               /\ written f0 (filesValueFrom l files i) x f'.
Proof.
  intros Hp. induction files as [|file rest IH]; intros l l' x b Hnew H Hi.
  - injection H as <-.
    exists (variant f0 x b). split; [exact Hi | apply written_kept].
  - simpl in H. simpl filesValueFrom.
    destruct (notExist file).
    + destruct (FailOnFileNotFound (config l)); [discriminate|].
      now apply (IH l l' x b).
    + apply bind_Ok in H as (l1 & H1 & H). rewrite H1.
      destruct (loadFile_written l l1 file i f0 x b Hnew H1) as [Hl1 Hf1].
      assert (Hc1 : config l1 = config l) by (rewrite Hl1; reflexivity).
      destruct (Hf1 Hp Hi) as (f1 & Hi1 & z1 & b1 & -> & Hz1).
      destruct (negb (MergeFiles (config l1))).
      * injection H as <-. exists (variant f0 z1 b1). split; [exact Hi1|].
        exists z1, b1. auto.
      * assert (Hnew1 : NewParser (config l1) = false) by now rewrite Hc1.
        destruct (IH l1 l' z1 b1 Hnew1 H Hi1) as (f' & Hi' & z & b' & -> & Hz).
        exists (variant f0 z b'). split; [exact Hi'|].
        exists z, b'. split; [reflexivity|].
        destruct (filesValueFrom l1 rest i) as [v|]; [exact Hz|].
        subst z. exact Hz1.
Qed.

Lemma withFiles_self (c : Config) : withFiles c (Files c) = c.
Proof. now destruct c. Qed.

Lemma loadFileFlag_config (l l0 : Loader) :
  (if isEmpty (FileFlag (config l)) then Ok l else loadFileFlag l) = Ok l0 ->
  exists files, l0 = withConfig l (withFiles (config l) files).
Proof.
  intros H0. destruct (isEmpty (FileFlag (config l))).
  - injection H0 as <-. exists (Files (config l)).
    rewrite withFiles_self. now destruct l.
  - unfold loadFileFlag in H0.
    destruct (flagSet l) as [flags|]; [|discriminate].
    destruct (getActualFlag _ flags) as [configFile|].
    + destruct (isEmpty configFile); [discriminate|].
      destruct (MergeFiles (config l)); injection H0 as <-; eauto.
    + injection H0 as <-. exists (Files (config l)).
      rewrite withFiles_self. now destruct l.
Qed.

(** The files pass changes the fields, and of the configuration the list
    of files only. *)
Lemma loadFiles_written (l l' : Loader) (i : nat) (f0 : fieldData)
  (x : rvalue) (b : bool) :
  NewParser (config l) = false ->
  loadFiles l = Ok l' ->
  (exists files, l' = withFields (withConfig l (withFiles (config l) files))
                        (fields l'))
  /\ (plainCell f0 -> fields l !! i = Some (variant f0 x b) ->
      exists f', fields l' !! i = Some f'
                 /\ written f0 (filesValue l i) x f').
Proof.
  intros Hnew H. unfold loadFiles in H. unfold filesValue.
  apply bind_Ok in H as (l0 & H0 & H). rewrite H0.
  destruct (loadFileFlag_config l l0 H0) as [files ->].
  assert (Hnew0 : NewParser (config (withConfig l (withFiles (config l) files)))
                  = false) by exact Hnew.
  split.
  - exists files. exact (loadFilesFrom_fields _ _ _ Hnew0 H).
  - intros Hp Hi. exact (loadFilesFrom_written _ i f0 Hp _ _ x b Hnew0 H Hi).
Qed.

Lemma loadFile_fields (l l' : Loader) (file : string) :
  NewParser (config l) = false ->
  loadFile l file = Ok l' -> l' = withFields l (fields l').
Proof.
  intros Hnew H.
  now destruct (loadFile_written l l' file 0
                  (mkFieldData EmptyString None noStructField
                     (cellOf TDuration VOpaque) false false ∅) VOpaque false
                  Hnew H).
Qed.

Lemma loadFile_length (l l' : Loader) (file : string) :
  NewParser (config l) = false ->
  loadFile l file = Ok l' -> length (fields l') = length (fields l).
Proof.
  intros Hnew H. unfold loadFile in H.
  destruct (FileDecoders (config l) !! ToLower (Ext file)) as [decoder|];
    [|discriminate].
  apply bind_Ok in H as (m & Hm & H). rewrite Hnew in H.
  apply bind_Ok in H as ([rest fs] & Hloop & H).
  apply forFields_length in Hloop.
  destruct (AllowUnknownFields (config l)); [now injection H as <-|].
  destruct (map_to_list rest) as [|[k v] r]; [now injection H as <-|discriminate].
Qed.

Lemma loadFilesFrom_length (files : list string) :
  forall (l l' : Loader),
    NewParser (config l) = false ->
    loadFilesFrom l files = Ok l' -> length (fields l') = length (fields l).
Proof.
  induction files as [|file rest IH]; intros l l' Hnew H.
  - now injection H as <-.
  - simpl in H. destruct (notExist file).
    + destruct (FailOnFileNotFound (config l)); [discriminate|]. now apply IH.
    + apply bind_Ok in H as (l1 & H1 & H).
      pose proof (loadFile_length _ _ _ Hnew H1) as Hlen.
      assert (Hc1 : config l1 = config l)
        by (rewrite (loadFile_fields _ _ _ Hnew H1); reflexivity).
      destruct (negb (MergeFiles (config l1))); [now injection H as <-|].
      rewrite <- Hlen. apply IH; [now rewrite Hc1 | exact H].
Qed.

Lemma loadFiles_length (l l' : Loader) :
  NewParser (config l) = false ->
  loadFiles l = Ok l' -> length (fields l') = length (fields l).
Proof.
  intros Hnew H. unfold loadFiles in H.
  apply bind_Ok in H as (l0 & H0 & H).
  destruct (loadFileFlag_config l l0 H0) as [files ->].
  exact (loadFilesFrom_length _ (withConfig l (withFiles (config l) files)) l'
           Hnew H).
Qed.

Lemma sourceValue_supplied (o : option any) (v : any) :
  sourceValue o = Some v -> supplied v = true.
Proof.
  destruct o as [w|]; simpl; [|discriminate].
  destruct (supplied w) eqn:E; [|discriminate]. now intros [= <-].
Qed.

Lemma filesValueFrom_supplied (files : list string) (i : nat) (v : any) :
  forall l, filesValueFrom l files i = Some v -> supplied v = true.
Proof.
  assert (Hone : forall l file, loadFileValue l file i = Some v ->
                                supplied v = true).
  { intros l file. unfold loadFileValue.
    destruct (FileDecoders (config l) !! _) as [dec|]; [|discriminate].
    destruct (DecodeFile dec file); try discriminate.
    apply sourceValue_supplied. }
  induction files as [|file rest IH]; intros l; simpl; [discriminate|].
  destruct (notExist file).
  - destruct (FailOnFileNotFound (config l)); [discriminate | apply IH].
  - destruct (loadFile l file) as [l1| |]; try discriminate.
    destruct (negb (MergeFiles (config l1))); [apply Hone|].
    destruct (filesValueFrom l1 rest i) as [w|] eqn:E; [|apply Hone].
    intros [= <-]. now apply (IH l1).
Qed.

Lemma filesValue_supplied (l : Loader) (i : nat) (v : any) :
  filesValue l i = Some v -> supplied v = true.
Proof.
  unfold filesValue. destruct (if isEmpty _ then _ else _); try discriminate.
  apply filesValueFrom_supplied.
Qed.

(** The effect of a pass that supplied [o] on the cell of the plain field
    [f0], from [before] to [after]: the cell holds what [setFieldData]
    stores for the value supplied, whatever it held before, or is as
    before if the pass supplied none. *)
Definition overwrites (c : Config) (f0 : fieldData) (o : option any)
  (before after : fieldData) : Prop :=
  match o with
  | Some v => exists g, setFieldData c f0 v = Ok g
                        /\ vdata (value after) = vdata (value g)
  | None => vdata (value after) = vdata (value before)
  end.

Lemma written_overwrites (c : Config) (f0 before after : fieldData)
  (o : option any) :
  plainCell f0 ->
  (forall v, o = Some v -> supplied v = true) ->
  written f0 o (vdata (value before)) after ->
  overwrites c f0 o before after.
Proof.
  intros Hp Hs (z & b & -> & Hz). unfold overwrites.
  destruct o as [v|]; [|now subst].
  exists (variant f0 z (isSet f0)). split; [|reflexivity].
  rewrite <- (variant_self f0) at 1.
  rewrite setFieldData_plain by auto. now rewrite Hz.
Qed.

(** The first of the values supplied, in the order given. *)
Fixpoint firstSupplied (os : list (option any)) : option any :=
  match os with
  | [] => None
  | Some v :: _ => Some v
  | None :: rest => firstSupplied rest
  end.

Lemma loadDefaults_Ok (l l1 : Loader) :
  NewParser (config l) = false ->
  loadDefaults l = Ok l1 ->
  exists fs, mapM (loadDefault (config l)) (fields l) = Ok fs
             /\ l1 = withFields l fs.
Proof.
  intros Hnew H. unfold loadDefaults in H. rewrite Hnew in H.
  apply bind_Ok in H as (fs & Hfs & H). injection H as <-. eauto.
Qed.

Lemma loadSources_Ok (l l' : Loader) :
  NewParser (config l) = false ->
  SkipDefaults (config l) = false -> SkipFiles (config l) = false ->
  SkipEnv (config l) = false -> SkipFlags (config l) = false ->
  loadSources l = Ok l' ->
  exists l1 l2 l3 files,
    loadDefaults l = Ok l1 /\ loadFiles l1 = Ok l2
    /\ loadEnvironment l2 = Ok l3 /\ loadFlags l3 = Ok l'
    /\ l1 = withFields l (fields l1)
    /\ l2 = withFields (withConfig l (withFiles (config l) files)) (fields l2)
    /\ l3 = withFields l2 (fields l3)
    /\ l' = withFields l3 (fields l').
Proof.
  intros Hnew Hd Hf He Hg H. unfold loadSources in H.
  rewrite Hd in H. simpl in H.
  apply bind_Ok in H as (l1 & H1 & H). apply wrapErr_Ok in H1.
  destruct (loadDefaults_Ok _ _ Hnew H1) as (fs1 & _ & ->).
  simpl in H. rewrite Hf in H. simpl in H.
  apply bind_Ok in H as (l2 & H2 & H). apply wrapErr_Ok in H2.
  assert (Hnew1 : NewParser (config (withFields l fs1)) = false) by exact Hnew.
  destruct (loadFiles_written _ _ 0 (mkFieldData EmptyString None noStructField
              (cellOf TDuration VOpaque) false false ∅) VOpaque false Hnew1 H2)
    as [[files Hl2] _].
  simpl in Hl2.
  assert (Hc2 : config l2 = withFiles (config l) files) by (now rewrite Hl2).
  rewrite Hc2 in H. simpl in H. rewrite He in H. simpl in H.
  apply bind_Ok in H as (l3 & H3 & H). apply wrapErr_Ok in H3.
  assert (Hnew2 : NewParser (config l2) = false) by (now rewrite Hc2).
  destruct (loadEnvironment_Ok _ _ Hnew2 H3) as (st3 & _ & _ & Hl3).
  assert (Hc3 : config l3 = withFiles (config l) files)
    by (rewrite Hl3; exact Hc2).
  rewrite Hc3 in H. simpl in H. rewrite Hg in H. simpl in H.
  apply bind_Ok in H as (l4 & H4 & H). apply wrapErr_Ok in H4.
  assert (Hnew3 : NewParser (config l3) = false) by (now rewrite Hc3).
  assert (Hl4 : l4 = withFields l3 (fields l4)).
  { unfold loadFlags in H4. destruct (flagSet l3) as [flags|]; [|discriminate].
    rewrite Hnew3 in H4.
    apply bind_Ok in H4 as ([st fs] & _ & H4).
    apply bind_Ok in H4 as ([] & _ & H4). now injection H4 as <-. }
  assert (Hc4 : NewParser (config l4) = false) by (rewrite Hl4; exact Hnew3).
  rewrite Hc4 in H. injection H as <-.
  exists (withFields l fs1), l2, l3, files. repeat split; auto.
Qed.

Lemma firstSupplied_supplied (os : list (option any)) :
  Forall (fun o => forall v, o = Some v -> supplied v = true) os ->
  forall v, firstSupplied os = Some v -> supplied v = true.
Proof.
  induction 1 as [|o os Ho _ IH]; intros v; simpl; [discriminate|].
  destruct o as [w|]; [apply Ho | apply IH].
Qed.

(** Four passes in a row: the cell ends with the value of the last pass
    that supplied one. *)
Lemma written_chain (f0 : fieldData) (x : rvalue) (oD oFi oE oF : option any)
  (z1 z2 z3 z4 : rvalue) (b1 b2 b3 b4 : bool) :
  written f0 oD x (variant f0 z1 b1) ->
  written f0 oFi z1 (variant f0 z2 b2) ->
  written f0 oE z2 (variant f0 z3 b3) ->
  written f0 oF z3 (variant f0 z4 b4) ->
  written f0 (firstSupplied [oF; oE; oFi; oD]) x (variant f0 z4 b4).
Proof.
  intros (y1 & a1 & E1 & Hy1) (y2 & a2 & E2 & Hy2) (y3 & a3 & E3 & Hy3)
         (y4 & a4 & E4 & Hy4).
  injection E1 as <- <-. injection E2 as <- <-.
  injection E3 as <- <-. injection E4 as <- <-.
  exists z4, b4. split; [reflexivity|]. simpl.
  destruct oF; [exact Hy4|]. subst z4.
  destruct oE; [exact Hy3|]. subst z3.
  destruct oFi; [exact Hy2|]. subst z2. destruct oD; exact Hy1.
Qed.


(** * Further properties of the engine and the loader *)

(** ** What [setFieldData] leaves alone *)

(** [g] is [f] with another content in the cell that [f] addresses. *)
Definition sameCell (f g : fieldData) : Prop :=
  g = setValue f (Set_ (value f) (vdata (value g))).

Lemma Set_self (v : Value) : Set_ v (vdata v) = v.
Proof. now destruct v. Qed.

Lemma sameCell_refl (f : fieldData) : sameCell f f.
Proof. unfold sameCell. now rewrite Set_self, setValue_value. Qed.

Lemma sameCell_Set (f : fieldData) (x : rvalue) :
  sameCell f (setValue f (Set_ (value f) x)).
Proof. reflexivity. Qed.

Lemma SetTyped_Ok (v v' : Value) (t : rtype) (x : rvalue) :
  SetTyped v t x = Ok v' -> v' = Set_ v x.
Proof. unfold SetTyped. destruct (rtype_eqb t (vtype v)); congruence. Qed.

Lemma m2sEntry_Set (c : Config) (rec : fieldData -> any -> result fieldData)
  (sv sv' : Value) (entry : string * any) :
  m2sEntry c rec sv entry = Ok sv' -> sv' = Set_ sv (vdata sv').
Proof.
  unfold m2sEntry. intros H.
  destruct (vtype sv) as [b| |members|e|kt et|e]; try discriminate.
  destruct (vdata sv) as [| | | | | |vals| | | |]; try discriminate.
  destruct (FieldByName members _) as [[[i d] t]|]; [|discriminate].
  destruct (negb _); [discriminate|].
  apply bind_Ok in H as (fd & _ & H). apply bind_Ok in H as (fd' & _ & H).
  now injection H as <-.
Qed.

Lemma m2s_Set (c : Config) (rec : fieldData -> any -> result fieldData)
  (entries : list (string * any)) :
  forall sv sv', m2s c rec entries sv = Ok sv' -> sv' = Set_ sv (vdata sv').
Proof.
  unfold m2s. induction entries as [|e es IH]; intros sv sv' H.
  - injection H as <-. now rewrite Set_self.
  - simpl in H. apply bind_Ok in H as (sv1 & H1 & H).
    apply m2sEntry_Set in H1. apply IH in H. rewrite H, H1. reflexivity.
Qed.

Lemma storeMap_sameCell (f g : fieldData) (keyT elemT : rtype)
  (entries : list (rvalue * rvalue)) :
  storeMap f keyT elemT entries = Ok g -> sameCell f g.
Proof.
  unfold storeMap. intros H. apply bind_Ok in H as (v & Hv & H).
  apply SetTyped_Ok in Hv. subst v. now injection H as <-.
Qed.

Lemma scalar_setters_sameCell (c : Config) (f g : fieldData) (s : string) :
  (setBool f s = Ok g -> sameCell f g)
  /\ (setInt f s = Ok g -> sameCell f g)
  /\ (setInt64 f s = Ok g -> sameCell f g)
  /\ (setUint f s = Ok g -> sameCell f g)
  /\ (setFloat f s = Ok g -> sameCell f g)
  /\ (setString f s = Ok g -> sameCell f g).
Proof.
  assert (Hint : setInt f s = Ok g -> sameCell f g).
  { unfold setInt. intros H. apply bind_Ok in H as (x & _ & H).
    now injection H as <-. }
  repeat split; try exact Hint.
  - unfold setBool. intros H. apply bind_Ok in H as (x & _ & H).
    now injection H as <-.
  - unfold setInt64. intros H.
    destruct (sf_Type (field f)) as [[b| |ms|e|kt et|e]|]; auto.
    apply bind_Ok in H as (x & _ & H). apply bind_Ok in H as (v & Hv & H).
    apply SetTyped_Ok in Hv. subst v. now injection H as <-.
  - unfold setUint. intros H. apply bind_Ok in H as (x & _ & H).
    now injection H as <-.
  - unfold setFloat. intros H. apply bind_Ok in H as (x & _ & H).
    now injection H as <-.
  - unfold setString. intros H. now injection H as <-.
Qed.

Lemma composite_setters_sameCell (c : Config)
  (rec : fieldData -> any -> result fieldData) (f g : fieldData) :
  (forall s, setSlice c rec f s = Ok g -> sameCell f g)
  /\ (forall v, setSliceOfValues c rec f v = Ok g -> sameCell f g)
  /\ (forall s, setMap c rec f s = Ok g -> sameCell f g)
  /\ (forall m, setMapOfValues c rec f m = Ok g -> sameCell f g).
Proof.
  repeat split.
  - intros s. unfold setSlice. intros H. apply bind_Ok in H as (e & _ & H).
    destruct (Kind_eqb (kindOf e) Uint8).
    + apply bind_Ok in H as (v & Hv & H). apply SetTyped_Ok in Hv. subst v.
      now injection H as <-.
    + destruct (sf_Type (field f)) as [[b| |ms|e'|kt et|e']|]; try discriminate.
      apply bind_Ok in H as (items & _ & H).
      apply bind_Ok in H as (v & Hv & H). apply SetTyped_Ok in Hv. subst v.
      now injection H as <-.
  - intros v. unfold setSliceOfValues. intros H.
    destruct v as [| | |items| |]; try discriminate.
    destruct (sf_Type (field f)) as [[b| |ms|e'|kt et|e']|]; try discriminate.
    apply bind_Ok in H as (v0 & Hv & H). apply SetTyped_Ok in Hv. subst v0.
    apply bind_Ok in H as (items' & _ & H). now injection H as <-.
  - intros s. unfold setMap. intros H.
    destruct (sf_Type (field f)) as [[b| |ms|e'|kt et|e']|]; try discriminate.
    apply bind_Ok in H as (entries & _ & H). now apply storeMap_sameCell in H.
  - intros m. unfold setMapOfValues. intros H.
    destruct (sf_Type (field f)) as [[b| |ms|e'|kt et|e']|]; try discriminate.
    apply bind_Ok in H as (entries & _ & H). now apply storeMap_sameCell in H.
Qed.

(** Whatever [rec] does on the parts, a successful run of the body of
    [setFieldData] returns the descriptor it was given with the handle
    moved behind the pointers of the cell and another content there. *)
Lemma setFieldDataBody_sameCell (c : Config)
  (rec : fieldData -> any -> result fieldData) (f g : fieldData) (v : any) :
  setFieldDataBody c rec f v = Ok g ->
  match v with
  | ANil => g = f
  | _ => sameCell (setValue f (unwrap (value f))) g
  end.
Proof.
  unfold setFieldDataBody. intros H.
  destruct v as [|s|s|xs|m|m]; [now injection H| | | | |].
  all: set (f' := setValue f (unwrap (value f))) in *.
  all: destruct (isEmptyString _);
    [injection H as <-; apply sameCell_refl|].
  all: destruct (if vCanAddr (value f') then _ else _) as [um|];
    [apply bind_Ok in H as (x & _ & H); now injection H as <-|].
  all: match type of H with context [Sprint ?a] =>
         pose proof (scalar_setters_sameCell c f' g (Sprint a))
           as (HB & HI & HI64 & HU & HF & HS)
       end.
  all: pose proof (composite_setters_sameCell c rec f' g)
         as (Hsl & Hsv & Hmp & Hmv).
  all: destruct (kindOf (vtype (value f'))); try discriminate; eauto.
  all: try (unfold setInterface in H; now injection H as <-).
  all: try (apply bind_Ok in H as (e & _ & H);
            destruct (isPrimitive e); eauto).
  all: try (now apply Hmp in H).
  all: rewrite newFieldData_noStructField in H; cbn [bind] in H;
    apply bind_Ok in H as (m' & _ & H); apply bind_Ok in H as (sv & Hsv' & H);
    apply m2s_Set in Hsv'; injection H as <-;
    unfold sameCell; simpl; rewrite Hsv' at 1; reflexivity.
Qed.

Lemma setFieldData_sameCell (c : Config) (f g : fieldData) (v : any) :
  setFieldData c f v = Ok g ->
  g = setValue f (Set_ (match v with
                        | ANil => value f
                        | _ => unwrap (value f)
                        end) (vdata (value g))).
Proof.
  unfold setFieldData. simpl. intros H.
  apply setFieldDataBody_sameCell in H.
  destruct v; [subst g; apply sameCell_refl | exact H ..].
Qed.

(** X1. A successful [setFieldData] returns the descriptor it was given
    with nothing changed but the value handle: name, parent, struct field,
    tags, the required mark and the [isSet] mark are the ones passed in, and
    the handle is the former one, moved behind the pointers of the cell
    unless the value is nil, with a new content. *)
Theorem setFieldData_changes_the_cell_only (c : Config) (f g : fieldData)
  (v : any) :
  setFieldData c f v = Ok g ->
  name g = name f /\ parent g = parent f /\ field g = field f
  /\ isSet g = isSet f /\ isRequired g = isRequired f /\ tags g = tags f
  /\ value g = Set_ (match v with
                     | ANil => value f
                     | _ => unwrap (value f)
                     end) (vdata (value g)).
Proof.
  intros H. apply setFieldData_sameCell in H.
  rewrite H at 1 2 3 4 5 6 7. simpl. repeat split; reflexivity.
Qed.

(** ** Pointer cells *)

Lemma unwrap_nil_pointer (v : Value) (e : rtype) :
  vtype v = TPtr e -> kindOf e <> Ptr -> vdata v = VPtr None ->
  unwrap v = mkValue e (zero e) (S (vptrs v)) (vCanSet v) true.
Proof.
  intros Ht He Hd. unfold unwrap. rewrite Ht, Hd. simpl.
  destruct e; simpl; try reflexivity. now destruct He.
Qed.

(** X2. On a cell that is a nil pointer to a non-pointer type, a nil value
    leaves the pointer nil, whereas an empty string, though it is no value
    either, makes the pointer point to a fresh zero value and moves the
    handle there. The pass over the defaults does so for every such field
    without default, and marks it as not set. *)
Theorem empty_string_allocates_nil_pointer (c : Config) (f : fieldData)
  (e : rtype) :
  vtype (value f) = TPtr e -> kindOf e <> Ptr -> vdata (value f) = VPtr None ->
  let wrap := Nat.iter (vptrs (value f)) (fun x => VPtr (Some x)) in
  let g := setValue f (mkValue e (zero e) (S (vptrs (value f)))
                         (vCanSet (value f)) true) in
  setFieldData c f ANil = Ok f
  /\ setFieldData c f (AString EmptyString) = Ok g
  /\ stored (value f) = wrap (VPtr None)
  /\ stored (value g) = wrap (VPtr (Some (zero e)))
  /\ (Tag f "default" = EmptyString -> loadDefault c f = Ok (setIsSet g false)).
Proof.
  intros Ht He Hd wrap g.
  assert (Hg : setFieldData c f (AString EmptyString) = Ok g).
  { rewrite setFieldData_empty_string.
    now rewrite (unwrap_nil_pointer _ e Ht He Hd). }
  repeat split.
  - exact Hg.
  - unfold stored, wrap. now rewrite Hd.
  - unfold stored, wrap, g. simpl. symmetry.
    apply (Nat.iter_swap _ _ (fun x => VPtr (Some x)) (zero e)).
  - intros Hdef. unfold loadDefault. rewrite Hdef, Hg. reflexivity.
Qed.

(** ** Durations *)

(** X3. [setInt64] tells a duration by the declared type of the field, not
    by the type of the cell: a field declared [time.Duration] is parsed by
    [time.ParseDuration]; a cell of type [time.Duration] reached otherwise,
    through a field declared [*time.Duration] for one, is parsed by
    [strconv.ParseInt] as a 64-bit integer. *)
Theorem duration_is_told_by_the_declared_type (c : Config) (f : fieldData)
  (s : string) :
  textUnmarshaler TDuration = None -> s <> EmptyString ->
  (sf_Type (field f) = Some TDuration -> vtype (value f) = TDuration ->
   setFieldData c f (AString s)
   = (do val <- lift (ParseDuration s);
      Ok (setValue f (Set_ (value f) (VInt val)))))
  /\ (sf_Type (field f) <> Some TDuration ->
      vtype (unwrap (value f)) = TDuration ->
      setFieldData c f (AString s)
      = (do val <- lift (ParseInt s 64);
         Ok (setValue f (Set_ (unwrap (value f)) (VInt val))))).
Proof.
  intros Hum Hs. apply isEmpty_false in Hs. split.
  - intros Hdecl Ht. unfold setFieldData. simpl. rewrite Hs.
    rewrite unwrap_not_pointer by (rewrite Ht; discriminate).
    rewrite setValue_value, Ht, Hum. simpl.
    unfold setInt64. rewrite Hdecl. unfold SetTyped. rewrite Ht. simpl.
    destruct (vCanAddr (value f)); destruct (ParseDuration s); reflexivity.
  - intros Hdecl Ht. unfold setFieldData. simpl. rewrite Hs, Ht, Hum. simpl.
    unfold setInt64, setInt. simpl. rewrite Ht.
    destruct (vCanAddr (unwrap (value f)));
      destruct (sf_Type (field f)) as [[b| |ms|e|kt et|e]|];
      try reflexivity; now destruct Hdecl.
Qed.

(** ** The recursive equation of [setFieldData] *)

(** [setFieldData] is its body with itself as the callee. *)
Lemma setFieldData_unfold (c : Config) (f : fieldData) (v : any) :
  setFieldData c f v = setFieldDataBody c (setFieldData c) f v.
Proof.
  unfold setFieldData at 1. simpl.
  apply (setFieldDataBody_ext c _ _ (fieldMeasure f)); [|lia].
  intros fd x Hfd. now apply setFieldData_fuel.
Qed.

(** ** Slices *)

Lemma mapM_map {A B : Type} (g : A -> result B) (h : A -> B) (xs : list A) :
  (forall x, g x = Ok (h x)) -> mapM g xs = Ok (map h xs).
Proof.
  intros H. induction xs as [|x xs IH]; simpl; [reflexivity|].
  now rewrite H, IH.
Qed.

(** An element of a slice of strings: the string as it is. *)
Lemma sliceItem_string (c : Config) (declT : option rtype) (s : string) :
  textUnmarshaler (TBasic BString) = None ->
  sliceItem c (setFieldData c) (TBasic BString) declT (AString s)
  = Ok (VString s).
Proof.
  intros Hum. unfold sliceItem. rewrite newFieldData_noStructField. simpl.
  rewrite setFieldData_unfold. unfold setFieldDataBody. simpl.
  destruct s as [|ch s]; [reflexivity|]. simpl. now rewrite Hum.
Qed.

(** X4. What [setSlice] stores. For a field declared as a slice of bytes
    the text is stored byte by byte and is not split, whatever the callee
    and the separator are. For a field declared as a slice of strings that
    do not decode themselves, the slice stored holds the pieces of the text
    between the separators, each with the white space around it removed;
    the former content of the slice is replaced. *)
Theorem setSlice_stores (c : Config) (f : fieldData) (s : string) :
  (forall rec,
      sf_Type (field f) = Some (TSlice (TBasic BUint8)) ->
      vtype (value f) = TSlice (TBasic BUint8) ->
      setSlice c rec f s
      = Ok (setValue f (Set_ (value f) (VSlice (Some (bytesOf s)))))
      /\ length (bytesOf s) = String.length s)
  /\ (sf_Type (field f) = Some (TSlice (TBasic BString)) ->
      vtype (value f) = TSlice (TBasic BString) ->
      textUnmarshaler (TBasic BString) = None ->
      setSlice c (setFieldData c) f s
      = Ok (setValue f
              (Set_ (value f)
                 (VSlice (Some (map (fun piece => VString (TrimSpace piece))
                                  (Split s (SliceSeparator c)))))))).
Proof.
  split.
  - intros rec Hdecl Ht. split.
    + unfold setSlice, SetTyped. rewrite Hdecl, Ht. reflexivity.
    + unfold bytesOf. rewrite length_map.
      induction s as [|ch s IH]; simpl; congruence.
  - intros Hdecl Ht Hum. unfold setSlice, SetTyped. rewrite Hdecl, Ht. simpl.
    rewrite (mapM_map _ (fun piece => VString (TrimSpace piece))); [reflexivity|].
    intros piece. now rewrite sliceItem_string.
Qed.

(** ** Maps *)

Lemma foldM_fails_at {A S : Type} (body : S -> A -> result S) (xs : list A)
  (s : S) (n : nat) (x : A) :
  xs !! n = Some x -> (forall s', isOk (body s' x) = false) ->
  isOk (foldM body xs s) = false.
Proof.
  intros Hn Hx. rewrite <- (take_drop_middle xs n x Hn), foldM_app.
  destruct (foldM body (take n xs) s) as [sn| |]; simpl; try reflexivity.
  specialize (Hx sn). destruct (body sn x); [discriminate | reflexivity ..].
Qed.

(** X5. A map given as text is a list of [key:value] items separated by
    commas. An item without a colon makes [setMap] fail whatever the other
    items are; when it is the first item, a field declared as a map fails
    with the incorrect-item error that quotes the item as written. *)
Theorem setMap_item_without_colon (c : Config)
  (rec : fieldData -> any -> result fieldData) (f : fieldData) (s : string)
  (n : nat) (item : string) :
  Split s "," !! n = Some item -> snd (cut item ":") = false ->
  isOk (setMap c rec f s) = false
  /\ (forall keyT elemT,
        n = 0%nat -> sf_Type (field f) = Some (TMap keyT elemT) ->
        setMap c rec f s = Err (ErrIncorrectMapItem item)).
Proof.
  intros Hn Hcut. unfold setMap. split.
  - destruct (sf_Type (field f)) as [[b| |ms|e|kt et|e]|]; try reflexivity.
    match goal with |- isOk (bind ?r _) = false =>
      assert (Hr : isOk r = false) end.
    { apply (foldM_fails_at _ _ _ n item Hn). intros acc.
      destruct (cut item ":") as [[k v] ok]. simpl in Hcut. now subst ok. }
    match goal with |- isOk (bind ?r _) = false =>
      destruct r; [discriminate | reflexivity ..] end.
  - intros keyT elemT -> ->. destruct (Split s ",") as [|x xs]; [discriminate|].
    injection Hn as ->. simpl.
    destruct (cut item ":") as [[k v] ok]. simpl in Hcut. now subst ok.
Qed.

(** ** Structs *)


(** X7. A value of the wrong shape makes [setFieldData] panic, not fail:
    on a struct cell, a non-empty string, another scalar or a slice, none of
    which is a mapping; on a slice cell whose elements are not primitive, a
    value that is not a slice. *)
Theorem setFieldData_wrong_shape_panics (c : Config) (f : fieldData) (v : any) :
  textUnmarshaler (vtype (unwrap (value f))) = None ->
  (kindOf (vtype (unwrap (value f))) = Struct ->
   match v with
   | AString s => s <> EmptyString
   | AScalar _ | ASlice _ => True
   | _ => False
   end ->
   exists msg, setFieldData c f v = Panic msg)
  /\ (forall e,
        kindOf (vtype (unwrap (value f))) = Slice ->
        typeElem (sf_Type (field f)) = Ok e -> isPrimitive e = false ->
        match v with
        | AString s => s <> EmptyString
        | AScalar _ | AMapSI _ | AMapII _ => True
        | _ => False
        end ->
        exists msg, setFieldData c f v = Panic msg).
Proof.
  intros Hum. split.
  - intros Hk Hv. unfold setFieldData. simpl.
    destruct v as [|s|s|xs|m|m]; try contradiction.
    1: apply isEmpty_false in Hv; simpl; rewrite Hv.
    all: simpl; rewrite Hum, Hk; rewrite newFieldData_noStructField; simpl;
      destruct (vCanAddr (unwrap (value f))); eauto.
  - intros e Hk He Hprim Hv. unfold setFieldData. simpl.
    destruct v as [|s|s|xs|m|m]; try contradiction.
    1: apply isEmpty_false in Hv; simpl; rewrite Hv.
    all: simpl; rewrite Hum, Hk, He; simpl; rewrite Hprim;
      destruct (vCanAddr (unwrap (value f))); eauto.
Qed.

(** ** The descriptors that the walk returns *)

(** The member types that the walk descends into. *)
Definition structLike (t : rtype) : bool :=
  match t with
  | TStruct _ | TPtr (TStruct _) => true
  | _ => false
  end.

(** A descriptor as the walk makes it for a member that is a leaf. *)
Definition leafField (fd : fieldData) : Prop :=
  exists t, sf_Type (field fd) = Some t /\ structLike t = false
            /\ value fd = cellOf t (vdata (value fd))
            /\ isSet fd = false
            /\ isRequired fd
               = String.eqb (TagGet (sf_Tag (field fd)) "required") "true".

(** A descriptor that the walk makes a parent: a member that is a struct
    or a pointer to a struct, and is not embedded. *)
Definition namedStruct (q : fieldData) : Prop :=
  sf_Anonymous (field q) = false
  /\ exists t, sf_Type (field q) = Some t /\ structLike t = true.

Definition ancestorsOf (p : option fieldData) : list fieldData :=
  match p with
  | None => []
  | Some q => ancestorsFrom q
  end.

(** The ancestors of [fd] are those of the walk's [parent], below named
    structs that the walk went through. *)
Definition walkedFrom (p : option fieldData) (fd : fieldData) : Prop :=
  leafField fd
  /\ exists inner, ancestors fd = inner ++ ancestorsOf p
                   /\ Forall namedStruct inner.

Lemma newFieldData_Ok (c : Config) (sf : StructField) (v : Value)
  (p : option fieldData) (fd : fieldData) :
  newFieldData c sf v p = Ok fd ->
  fd = mkFieldData (makeName (sf_Name sf) p) p sf v false
         (String.eqb (TagGet (sf_Tag sf) "required") "true")
         (tagsForField c sf).
Proof.
  unfold newFieldData. destruct (_ && _); [discriminate|]. congruence.
Qed.

Lemma walkedFrom_under (p : option fieldData) (q fd : fieldData) :
  parent q = p -> namedStruct q -> walkedFrom (Some q) fd -> walkedFrom p fd.
Proof.
  intros Hp Hq [Hleaf (inner & Hanc & Hin)]. split; [exact Hleaf|].
  exists (inner ++ [q]). split.
  - rewrite Hanc. simpl. rewrite ancestorsFrom_unfold, Hp, <- app_assoc.
    reflexivity.
  - apply Forall_app. split; [exact Hin|].
    constructor; [exact Hq | constructor].
Qed.

Lemma walkMembers_walkedFrom (c : Config)
  (helper : rtype -> rvalue -> bool -> option fieldData
            -> result (list fieldData * rvalue))
  (ms : list (FieldDecl * rtype)) :
  (forall d t, In (d, t) ms ->
     forall t', (typeSize t' <= typeSize t)%nat ->
       forall x canSet p fields x',
         helper t' x canSet p = Ok (fields, x') -> Forall (walkedFrom p) fields) ->
  forall canSet parent vs fields out,
    walkMembers c helper canSet parent ms vs = Ok (fields, out) ->
    Forall (walkedFrom parent) fields.
Proof.
  induction ms as [|[d ft] ms IH]; intros Hh canSet parent vs fields out H.
  - simpl in H. injection H as <- <-. constructor.
  - assert (IH' : forall fields out,
              walkMembers c helper canSet parent ms (tl vs) = Ok (fields, out) ->
              Forall (walkedFrom parent) fields).
    { intros fs' out' H'.
      apply (IH (fun d t Hin => Hh d t (or_intror Hin)) canSet parent (tl vs)
               fs' out' H'). }
    simpl in H.
    destruct (negb (canSet && decl_exported d)).
    { apply bind_Ok in H as ([fs' out'] & Hrest & H). injection H as <- <-.
      eauto. }
    apply bind_Ok in H as (fd & Hfd & H). apply newFieldData_Ok in Hfd.
    assert (Hleaf : structLike ft = false ->
              forall fs' out',
                walkMembers c helper canSet parent ms (tl vs) = Ok (fs', out') ->
                Forall (walkedFrom parent) (fd :: fs')).
    { intros Hft fs' out' Hrest. constructor; [|eauto].
      subst fd. split.
      - exists ft. simpl. auto.
      - exists []. simpl. split; [reflexivity | constructor]. }
    assert (Hsub : structLike ft = true ->
              forall sub, Forall (walkedFrom (if decl_anonymous d then parent
                                              else Some fd)) sub ->
                          Forall (walkedFrom parent) sub).
    { intros Hft sub Hs. destruct (decl_anonymous d) eqn:Hanon; [exact Hs|].
      eapply Forall_impl; [exact Hs|]. intros x Hx.
      apply (walkedFrom_under parent fd x); [now subst fd | | exact Hx].
      subst fd. split; [exact Hanon|]. exists ft. auto. }
    destruct ft as [b| |members|e|k e|e].
    1,2,4,5: apply bind_Ok in H as ([fs' out'] & Hrest & H);
      injection H as <- <-; now apply (Hleaf eq_refl fs' out').
    + apply bind_Ok in H as ([sub v'] & Hs & H).
      apply bind_Ok in H as ([fs' out'] & Hrest & H). injection H as <- <-.
      apply Forall_app. split; [|eauto].
      apply (Hsub eq_refl).
      eapply (Hh d (TStruct members)); [now left | reflexivity | exact Hs].
    + destruct e as [b| |members|e|k e|e].
      1,2,4,5,6: apply bind_Ok in H as ([fs' out'] & Hrest & H);
        injection H as <- <-; now apply (Hleaf eq_refl fs' out').
      apply bind_Ok in H as ([sub v'] & Hs & H).
      apply bind_Ok in H as ([fs' out'] & Hrest & H). injection H as <- <-.
      apply Forall_app. split; [|eauto].
      apply (Hsub eq_refl).
      eapply (Hh d (TPtr (TStruct members))); [now left | | exact Hs].
      simpl. lia.
Qed.

Lemma getFieldsHelper_walkedFrom (c : Config) (t : rtype) :
  forall x canSet parent fields x',
    getFieldsHelper c t x canSet parent = Ok (fields, x') ->
    Forall (walkedFrom parent) fields.
Proof.
  induction t as [t IH] using rtype_size_ind.
  intros x canSet parent fields x' H.
  destruct t as [b| |members|e|k e|e]; try discriminate.
  simpl in H. apply bind_Ok in H as ([fs out] & Hloop & H).
  injection H as <- <-.
  eapply walkMembers_walkedFrom; [|exact Hloop].
  intros d t Hin t' Hle. apply IH.
  pose proof (typeSize_member d t members Hin). lia.
Qed.

(** X8. Every descriptor that [getFields] returns is for a leaf: its
    declared type is neither a struct nor a pointer to a struct, the cell
    it addresses has that type, it is not yet set, and it is required
    exactly when the member carries the tag [required:"true"]. Structs and
    pointers to structs are walked into and never listed themselves. *)
Theorem getFields_returns_leaves (c : Config) (t : rtype) (x x' : rvalue)
  (fields : list fieldData) (fd : fieldData) :
  getFields c t x = Ok (fields, x') -> In fd fields ->
  exists ft,
    sf_Type (field fd) = Some ft
    /\ kindOf ft <> Struct
    /\ (forall e, ft = TPtr e -> kindOf e <> Struct)
    /\ vtype (value fd) = ft /\ vCanSet (value fd) = true
    /\ isSet fd = false
    /\ (isRequired fd = true <-> TagGet (sf_Tag (field fd)) "required" = "true").
Proof.
  unfold getFields. intros H Hin.
  apply bind_Ok in H as ([[t' y] n] & _ & H).
  apply bind_Ok in H as ([fs y'] & Hw & H). injection H as <- <-.
  apply getFieldsHelper_walkedFrom in Hw.
  rewrite List.Forall_forall in Hw.
  destruct (Hw fd Hin) as [(ft & Hft & Hleaf & Hv & Hset & Hreq) _].
  exists ft. split; [exact Hft|].
  split; [intros Hk; destruct ft as [[]| | | | |]; simpl in *; congruence|].
  split; [intros e -> Hk; destruct e as [[]| | | | |]; simpl in *; congruence|].
  split; [now rewrite Hv|]. split; [now rewrite Hv|]. split; [exact Hset|].
  rewrite Hreq. apply String.eqb_eq.
Qed.

(** X9. The ancestors of a descriptor that [getFields] returns are members
    that are structs or pointers to structs and are not embedded: the
    fields of an embedded struct have the parent that the embedded struct
    itself would have, so that the embedded struct contributes no segment
    to their keys. *)
Theorem getFields_skips_embedded_parents (c : Config) (t : rtype)
  (x x' : rvalue) (fields : list fieldData) (fd q : fieldData) :
  getFields c t x = Ok (fields, x') -> In fd fields -> In q (ancestors fd) ->
  sf_Anonymous (field q) = false
  /\ exists qt, sf_Type (field q) = Some qt
                /\ (kindOf qt = Struct
                    \/ exists e, qt = TPtr e /\ kindOf e = Struct).
Proof.
  unfold getFields. intros H Hin Hq.
  apply bind_Ok in H as ([[t' y] n] & _ & H).
  apply bind_Ok in H as ([fs y'] & Hw & H). injection H as <- <-.
  apply getFieldsHelper_walkedFrom in Hw.
  rewrite List.Forall_forall in Hw.
  destruct (Hw fd Hin) as [_ (inner & Hanc & Hnamed)].
  simpl in Hanc. rewrite app_nil_r in Hanc. subst inner.
  rewrite List.Forall_forall in Hnamed.
  destruct (Hnamed q Hq) as [Hanon (qt & Hqt & Hlike)].
  split; [exact Hanon|]. exists qt. split; [exact Hqt|].
  destruct qt as [b| |ms|e|k e|e]; simpl in Hlike; try congruence; [now left|].
  destruct e; simpl in Hlike; try congruence. right. eauto.
Qed.

(** ** The [required] tag *)

Definition notErr {A : Type} (r : result A) : Prop :=
  match r with Err _ => False | _ => True end.

Lemma bind_notErr {A B : Type} (r : result A) (k : A -> result B) :
  notErr r -> (forall a, notErr (k a)) -> notErr (bind r k).
Proof. destruct r; simpl; auto. Qed.

Lemma newFieldData_notErr (c : Config) (sf : StructField) (v : Value)
  (p : option fieldData) : notErr (newFieldData c sf v p).
Proof. unfold newFieldData. now destruct (_ && _). Qed.

Lemma newFieldData_bad_required (c : Config) (sf : StructField) (v : Value)
  (p : option fieldData) :
  TagGet (sf_Tag sf) "required" <> EmptyString ->
  TagGet (sf_Tag sf) "required" <> "true" ->
  exists msg, newFieldData c sf v p = Panic msg.
Proof.
  intros H1 H2. unfold newFieldData.
  apply isEmpty_false in H1. apply String.eqb_neq in H2.
  rewrite H1, H2. simpl. eauto.
Qed.

(** The walk panics or succeeds; it returns no error. *)
Lemma walkMembers_notErr (c : Config)
  (helper : rtype -> rvalue -> bool -> option fieldData
            -> result (list fieldData * rvalue))
  (canSet : bool) (parent : option fieldData) (ms : list (FieldDecl * rtype)) :
  (forall d t, In (d, t) ms ->
     forall t', (typeSize t' <= typeSize t)%nat ->
       forall x cs p, notErr (helper t' x cs p)) ->
  forall vs, notErr (walkMembers c helper canSet parent ms vs).
Proof.
  induction ms as [|[d ft] ms IH]; intros Hh vs; simpl; [exact I|].
  assert (Hrest : forall (k : list fieldData * list rvalue
                              -> result (list fieldData * list rvalue)),
             (forall a, notErr (k a)) ->
             notErr (bind (walkMembers c helper canSet parent ms (tl vs)) k)).
  { intros k Hk. apply bind_notErr; [|exact Hk].
    apply IH. intros d' t' Hin. apply (Hh d' t'). now right. }
  destruct (negb (canSet && decl_exported d)).
  { apply Hrest. now intros [fs out]. }
  apply bind_notErr; [apply newFieldData_notErr|]. intros fd.
  destruct ft as [b| |members|e|k e|e];
    try (apply Hrest; now intros [fs out]).
  - apply bind_notErr.
    + apply (Hh d (TStruct members)); [now left | reflexivity].
    + intros [sub v']. apply Hrest. now intros [fs out].
  - destruct e as [b| |members|e|k e|e];
      try (apply Hrest; now intros [fs out]).
    apply bind_notErr.
    + apply (Hh d (TPtr (TStruct members))); [now left | simpl; lia].
    + intros [sub v']. apply Hrest. now intros [fs out].
Qed.

Lemma getFieldsHelper_notErr (c : Config) (t : rtype) :
  forall x cs p, notErr (getFieldsHelper c t x cs p).
Proof.
  induction t as [t IH] using rtype_size_ind. intros x cs p.
  destruct t as [b| |members|e|k e|e]; try exact I. simpl.
  apply bind_notErr; [|now intros [fs out]].
  apply walkMembers_notErr. intros d t Hin t' Hle. apply IH.
  pose proof (typeSize_member d t members Hin). lia.
Qed.

(** A settable member with a [required] tag that is neither empty nor
    [true] makes the loop over the members panic. *)
Lemma walkMembers_bad_required (c : Config)
  (helper : rtype -> rvalue -> bool -> option fieldData
            -> result (list fieldData * rvalue))
  (parent : option fieldData) (ms : list (FieldDecl * rtype)) :
  (forall t x cs p, notErr (helper t x cs p)) ->
  forall (vs : list rvalue) (i : nat) (d : FieldDecl) (t : rtype),
    ms !! i = Some (d, t) -> decl_exported d = true ->
    TagGet (decl_tag d) "required" <> EmptyString ->
    TagGet (decl_tag d) "required" <> "true" ->
    exists msg, walkMembers c helper true parent ms vs = Panic msg.
Proof.
  intros Hh. induction ms as [|[d0 ft] ms IH]; intros vs i d t Hi Hexp H1 H2;
    [discriminate|].
  destruct i as [|i].
  - injection Hi as -> ->. simpl. rewrite Hexp. simpl.
    destruct (newFieldData_bad_required c (structFieldOf d t)
                (cellOf t (hd (zero t) vs)) parent H1 H2) as [msg ->].
    simpl. eauto.
  - simpl in Hi. destruct (IH (tl vs) i d t Hi Hexp H1 H2) as [msg Hrest].
    simpl. rewrite Hrest.
    destruct (decl_exported d0); simpl; [|eauto].
    pose proof (newFieldData_notErr c (structFieldOf d0 ft)
                  (cellOf ft (hd (zero ft) vs)) parent) as Hfd.
    destruct (newFieldData _ _ _ _) as [fd| |m]; simpl; [|contradiction|eauto].
    destruct ft as [b| |members|e|k e|e]; simpl; eauto.
    + match goal with |- context [helper ?a ?b ?cs ?p] =>
        pose proof (Hh a b cs p) as Hs; destruct (helper a b cs p) as [[sub v']| |m]
      end; simpl; [eauto | contradiction | eauto].
    + destruct e as [b| |members|e|k e|e]; simpl; eauto.
      match goal with |- context [helper ?a ?b ?cs ?p] =>
        pose proof (Hh a b cs p) as Hs; destruct (helper a b cs p) as [[sub v']| |m]
      end; simpl; [eauto | contradiction | eauto].
Qed.

(** X10. [LoaderFor] panics on a destination struct that has an exported
    member whose [required] tag is neither empty nor [true], whatever the
    type of the member is and whether or not a source names it. *)
Theorem LoaderFor_rejects_required_tag (members : list (FieldDecl * rtype))
  (x : rvalue) (cfg : Config) (i : nat) (d : FieldDecl) (t : rtype) :
  assertStruct (TPtr (TStruct members)) (VPtr (Some x)) = None ->
  NewParser cfg = false ->
  members !! i = Some (d, t) -> decl_exported d = true ->
  TagGet (decl_tag d) "required" <> EmptyString ->
  TagGet (decl_tag d) "required" <> "true" ->
  exists msg,
    LoaderFor (TPtr (TStruct members)) (VPtr (Some x)) cfg = Panic msg.
Proof.
  intros Hassert Hnew Hi Hexp H1 H2.
  unfold LoaderFor. rewrite Hassert. unfold init. simpl. rewrite Hnew.
  unfold getFields. simpl. change (0 <? 1)%nat with true.
  destruct (walkMembers_bad_required
              (initSources (initDelimiters cfg))
              (getFieldsHelper (initSources (initDelimiters cfg))) None
              members
              (getFieldsHelper_notErr (initSources (initDelimiters cfg)))
              (match x with VStruct vs => vs | _ => [] end) i d t Hi Hexp H1 H2)
    as [msg Hmsg].
  rewrite Hmsg. simpl. eauto.
Qed.

(** ** Initialisation *)

(** The configuration that [init] computes before the slice separator is
    defaulted. *)
Definition initConfig (cfg : Config) : Config :=
  initSources (initDelimiters cfg).

Lemma initTail_Ok (l l' : Loader) (flags : FlagSet) :
  initTail l flags = Ok l' ->
  config l' = initSliceSeparator (config l) /\ fields l' = fields l
  /\ errInit l' = errInit l /\ is_Some (flagSet l').
Proof.
  unfold initTail. intros H. apply bind_Ok in H as (flags' & _ & H).
  injection H as <-. simpl. eauto.
Qed.

(** The loader that [init] returns: its configuration is the normalised
    one, with the slice separator defaulted when no error was stored. *)
Lemma init_Ok (l0 l : Loader) :
  errInit l0 = None -> init l0 = Ok l ->
  (config l = initConfig (config l0)
   \/ config l = initSliceSeparator (initConfig (config l0)))
  /\ (errInit l = None ->
      config l = initSliceSeparator (initConfig (config l0))
      /\ is_Some (flagSet l)).
Proof.
  intros Herr0 H. unfold init in H. fold (initConfig (config l0)) in H.
  set (c := initConfig (config l0)) in *.
  destruct (NewParser c).
  - destruct (parseStruct _ _ _) as [e|p'].
    + injection H as <-. simpl. split; [now left | discriminate].
    + apply initTail_Ok in H as (Hc & _ & He & Hf). simpl in Hc, He.
      split; [now right | auto].
  - apply bind_Ok in H as ([fs x] & _ & H).
    destruct (SkipFlags c).
    + apply initTail_Ok in H as (Hc & _ & He & Hf). simpl in Hc.
      split; [now right | auto].
    + apply bind_Ok in H as ([[e|] flags'] & _ & H).
      * injection H as <-. simpl. split; [now left | discriminate].
      * apply initTail_Ok in H as (Hc & _ & He & Hf). simpl in Hc.
        split; [now right | auto].
Qed.

(** X11. The configuration of the loader that [LoaderFor] returns is the
    one passed in, normalised: the environment delimiter is an underscore;
    an unset flag delimiter is a dot; a non-empty prefix has its delimiter
    appended; unset [Envs] and [Args] are the environment and the arguments
    of the process; the JSON decoder is registered under [.json] unless the
    caller registered one there, and the other decoders are kept; when no
    initialisation error was stored an unset slice separator is a comma. *)
Theorem LoaderFor_normalises_the_config (t : rtype) (x : rvalue)
  (cfg : Config) (l : Loader) :
  LoaderFor t x cfg = Ok l ->
  let c := config l in
  let flagDelimiter :=
    if isEmpty (FlagDelimiter cfg) then "." else FlagDelimiter cfg in
  envDelimiter c = "_"
  /\ FlagDelimiter c = flagDelimiter
  /\ EnvPrefix c = (if isEmpty (EnvPrefix cfg) then EmptyString
                    else String.append (EnvPrefix cfg) "_")
  /\ FlagPrefix c = (if isEmpty (FlagPrefix cfg) then EmptyString
                     else String.append (FlagPrefix cfg) flagDelimiter)
  /\ Envs c = Some (default osEnviron (Envs cfg))
  /\ Args c = Some (default osArgs (Args cfg))
  /\ FileDecoders c !! ".json"
     = Some (default jsonDecoder (FileDecoders cfg !! ".json"))
  /\ (forall ext, ext <> ".json" ->
        FileDecoders c !! ext = FileDecoders cfg !! ext)
  /\ Files c = Files cfg
  /\ (errInit l = None ->
      SliceSeparator c
      = if isEmpty (SliceSeparator cfg) then "," else SliceSeparator cfg).
Proof.
  unfold LoaderFor. destruct (assertStruct t x); [discriminate|].
  intros H. apply init_Ok in H as [Hc Hok]; [|reflexivity]. simpl in Hc, Hok.
  assert (Hjson : FileDecoders (initConfig cfg) !! ".json"
                  = Some (default jsonDecoder (FileDecoders cfg !! ".json"))).
  { unfold initConfig, initSources. simpl.
    destruct (FileDecoders cfg !! ".json") as [dec|] eqn:E; simpl;
      [exact E | apply lookup_insert_eq]. }
  assert (Hother : forall ext, ext <> ".json" ->
            FileDecoders (initConfig cfg) !! ext = FileDecoders cfg !! ext).
  { intros ext Hext. unfold initConfig, initSources. simpl.
    destruct (FileDecoders cfg !! ".json"); [reflexivity|].
    now apply lookup_insert_ne. }
  assert (Hprefix : forall p : string,
            (if isEmpty p then p else String.append p "_")
            = (if isEmpty p then EmptyString else String.append p "_"))
    by (now intros []).
  assert (Hprefix' : forall p d : string,
            (if isEmpty p then p else String.append p d)
            = (if isEmpty p then EmptyString else String.append p d))
    by (now intros []).
  assert (Hall : forall c', c' = initConfig cfg
                            \/ c' = initSliceSeparator (initConfig cfg) ->
            envDelimiter c' = "_"
            /\ FlagDelimiter c'
               = (if isEmpty (FlagDelimiter cfg) then "." else FlagDelimiter cfg)
            /\ EnvPrefix c' = (if isEmpty (EnvPrefix cfg) then EmptyString
                               else String.append (EnvPrefix cfg) "_")
            /\ FlagPrefix c'
               = (if isEmpty (FlagPrefix cfg) then EmptyString
                  else String.append (FlagPrefix cfg)
                         (if isEmpty (FlagDelimiter cfg) then "."
                          else FlagDelimiter cfg))
            /\ Envs c' = Some (default osEnviron (Envs cfg))
            /\ Args c' = Some (default osArgs (Args cfg))
            /\ FileDecoders c' !! ".json"
               = Some (default jsonDecoder (FileDecoders cfg !! ".json"))
            /\ (forall ext, ext <> ".json" ->
                  FileDecoders c' !! ext = FileDecoders cfg !! ext)
            /\ Files c' = Files cfg).
  { intros c' [-> | ->]; simpl; rewrite Hprefix, Hprefix';
      (repeat split; try assumption;
       try (now destruct (Envs cfg)); try (now destruct (Args cfg))). }
  destruct (Hall (config l) Hc) as (H1 & H2 & H3 & H4 & H5 & H6 & H7 & H8 & H9).
  repeat split; try assumption.
  intros Herr. destruct (Hok Herr) as [-> _]. reflexivity.
Qed.

(** ** Registering the flags *)

(** The flag names of the fields, the empty ones left out. *)
Definition flagNames (c : Config) (fs : list fieldData) : list string :=
  List.filter (fun k => negb (isEmpty k))
    (map (fun f => fullTag c (FlagPrefix c) f "flag") fs).

(** When duplicates are not allowed and the loop stores no error, the
    flag names of the fields are distinct and were not registered before. *)
Lemma registerFlags_distinct (c : Config) (fs : list fieldData) :
  AllowDuplicates c = false ->
  forall (names : gset string) (flags flags' : FlagSet),
    registerFlags c fs names flags = Ok (None, flags') ->
    List.NoDup (flagNames c fs) /\ forall k, In k (flagNames c fs) -> k ∉ names.
Proof.
  intros Hdup. unfold flagNames.
  induction fs as [|f fs IH]; intros names flags flags' H; simpl.
  - split; [constructor | intros k []].
  - simpl in H.
    destruct (isEmpty (fullTag c (FlagPrefix c) f "flag")) eqn:Hk; simpl;
      [now apply (IH names flags flags')|].
    rewrite Hdup in H. simpl in H. rewrite andb_true_r in H.
    destruct (bool_decide _) eqn:Hin; [discriminate|].
    apply bool_decide_eq_false in Hin.
    apply bind_Ok in H as (flags1 & _ & H).
    destruct (IH _ _ _ H) as [Hnd Hfresh]. split.
    + constructor; [|exact Hnd]. intros Hmem.
      apply (Hfresh _ Hmem), elem_of_union_l, elem_of_singleton. reflexivity.
    + intros k [<-|Hmem]; [exact Hin|].
      intros Hk'. apply (Hfresh k Hmem), elem_of_union_r, Hk'.
Qed.

Lemma registerFlags_error (c : Config) (fs : list fieldData) :
  forall (names : gset string) (flags flags' : FlagSet) (e : error),
    registerFlags c fs names flags = Ok (Some e, flags') ->
    exists k, e = ErrDuplicateFlag k /\ In k (flagNames c fs).
Proof.
  unfold flagNames.
  induction fs as [|f fs IH]; intros names flags flags' e H; [discriminate|].
  simpl in H. simpl.
  destruct (isEmpty (fullTag c (FlagPrefix c) f "flag")) eqn:Hk; simpl;
    [now apply (IH names flags flags')|].
  destruct (_ && _).
  - injection H as <- <-. eexists. split; [reflexivity | now left].
  - apply bind_Ok in H as (flags1 & _ & H).
    destruct (IH _ _ _ _ H) as (k & -> & Hin). exists k. auto.
Qed.

Lemma flagNames_lookup (c : Config) (fs : list fieldData) (i j : nat)
  (fi fj : fieldData) :
  (i < j)%nat -> fs !! i = Some fi -> fs !! j = Some fj ->
  fullTag c (FlagPrefix c) fi "flag" = fullTag c (FlagPrefix c) fj "flag" ->
  fullTag c (FlagPrefix c) fi "flag" <> EmptyString ->
  ~ List.NoDup (flagNames c fs).
Proof.
  unfold flagNames. revert i j.
  induction fs as [|f fs IH]; intros i j Hij Hi Hj Hsame Hne Hnd; [discriminate|].
  destruct j as [|j]; [lia|]. simpl in Hj. simpl in Hnd.
  destruct i as [|i].
  - injection Hi as ->. apply isEmpty_false in Hne. rewrite Hne in Hnd.
    simpl in Hnd. apply List.NoDup_cons_iff in Hnd as [Hnotin _]. apply Hnotin.
    apply filter_In. split.
    + apply in_map_iff. exists fj. split; [now symmetry|].
      apply list_elem_of_In. now apply (list_elem_of_lookup_2 _ j).
    + now rewrite Hsame in Hne; rewrite Hsame, Hne.
  - simpl in Hi. apply (IH i j); auto; [lia|].
    destruct (negb _); [now apply List.NoDup_cons_iff in Hnd as [_ Hnd]|exact Hnd].
Qed.

(** X12. When duplicates are not allowed, flags are not skipped and two
    fields of the loader resolve to one non-empty flag name, [LoaderFor]
    has stored a duplicate-flag error for a flag name of the fields, and
    [Load] returns that error as an initialisation error without running
    any pass. *)
Theorem LoaderFor_stores_duplicate_flag (t : rtype) (x : rvalue)
  (cfg : Config) (l : Loader) (i j : nat) (fi fj : fieldData) :
  LoaderFor t x cfg = Ok l ->
  NewParser cfg = false -> SkipFlags cfg = false -> AllowDuplicates cfg = false ->
  (i < j)%nat -> fields l !! i = Some fi -> fields l !! j = Some fj ->
  let key f := fullTag (config l) (FlagPrefix (config l)) f "flag" in
  key fi = key fj -> key fi <> EmptyString ->
  exists k,
    In k (map key (fields l))
    /\ errInit l = Some (ErrDuplicateFlag k)
    /\ Load l = Err (ErrWrap "init loader" (ErrDuplicateFlag k)).
Proof.
  intros H Hnew Hskip Hdup Hij Hi Hj key Hsame Hne.
  unfold LoaderFor in H. destruct (assertStruct t x); [discriminate|].
  unfold init in H. fold (initConfig cfg) in H. simpl in H.
  change (NewParser (initConfig cfg)) with (NewParser cfg) in H.
  change (SkipFlags (initConfig cfg)) with (SkipFlags cfg) in H.
  rewrite Hnew, Hskip in H.
  apply bind_Ok in H as ([fs x'] & _ & H).
  apply bind_Ok in H as ([[e|] flags'] & Hreg & H).
  - injection H as <-. simpl in *.
    destruct (registerFlags_error _ _ _ _ _ _ Hreg) as (k & -> & Hin).
    exists k. split; [|split; reflexivity].
    unfold flagNames in Hin. now apply filter_In in Hin as [Hin _].
  - exfalso. apply initTail_Ok in H as (Hc & Hf & _). simpl in Hc, Hf.
    apply registerFlags_distinct in Hreg as [Hnd _]; [|exact Hdup].
    rewrite Hf in Hi, Hj. subst key. rewrite Hc in Hsame, Hne.
    exact (flagNames_lookup _ _ i j fi fj Hij Hi Hj Hsame Hne Hnd).
Qed.

Lemma FlagSetString_cases (flags : FlagSet) (n v u : string) :
  (exists msg, FlagSetString flags n v u = Panic msg)
  \/ (exists flags', FlagSetString flags n v u = Ok flags'
                     /\ formal flags' = formal flags ++ [(n, (v, u))]).
Proof.
  unfold FlagSetString.
  destruct (HasPrefix n "-"); [eauto|].
  destruct (containsByte _ n); [eauto|].
  destruct (existsb _ _); [eauto|]. right. eauto.
Qed.

Lemma FlagSetString_defined (flags : FlagSet) (n v u : string) :
  existsb (fun fl => String.eqb (fst fl) n) (formal flags) = true ->
  exists msg, FlagSetString flags n v u = Panic msg.
Proof.
  intros H. unfold FlagSetString. rewrite H.
  destruct (HasPrefix n "-"); [eauto|].
  destruct (containsByte _ n); eauto.
Qed.

(** With duplicates allowed the loop stores no error and, the flag set
    refusing to define a name twice, panics at the second field of a
    name. *)
Lemma registerFlags_defined (c : Config) (fs : list fieldData) :
  AllowDuplicates c = true ->
  forall (names : gset string) (flags : FlagSet) (j : nat) (fj : fieldData),
    fs !! j = Some fj ->
    fullTag c (FlagPrefix c) fj "flag" <> EmptyString ->
    existsb (fun fl => String.eqb (fst fl) (fullTag c (FlagPrefix c) fj "flag"))
      (formal flags) = true ->
    exists msg, registerFlags c fs names flags = Panic msg.
Proof.
  intros Hdup. induction fs as [|f fs IH]; intros names flags j fj Hj Hne Hdef;
    [discriminate|].
  simpl. rewrite Hdup, andb_false_r.
  destruct j as [|j].
  - injection Hj as ->. apply isEmpty_false in Hne. rewrite Hne.
    destruct (FlagSetString_defined flags _ (Tag fj "default") (Tag fj "usage")
                Hdef) as [msg ->]. simpl. eauto.
  - simpl in Hj.
    destruct (isEmpty (fullTag c (FlagPrefix c) f "flag")); [eauto|].
    destruct (FlagSetString_cases flags (fullTag c (FlagPrefix c) f "flag")
                (Tag f "default") (Tag f "usage"))
      as [[msg ->]|(flags1 & -> & Hformal)]; simpl; [eauto|].
    apply (IH _ _ j fj Hj Hne). rewrite Hformal, existsb_app, Hdef. reflexivity.
Qed.

Lemma registerFlags_redefined (c : Config) (fs : list fieldData) :
  AllowDuplicates c = true ->
  forall (names : gset string) (flags : FlagSet) (i j : nat)
         (fi fj : fieldData),
    (i < j)%nat -> fs !! i = Some fi -> fs !! j = Some fj ->
    fullTag c (FlagPrefix c) fi "flag" = fullTag c (FlagPrefix c) fj "flag" ->
    fullTag c (FlagPrefix c) fi "flag" <> EmptyString ->
    exists msg, registerFlags c fs names flags = Panic msg.
Proof.
  intros Hdup. induction fs as [|f fs IH];
    intros names flags i j fi fj Hij Hi Hj Hsame Hne; [discriminate|].
  destruct j as [|j]; [lia|]. simpl in Hj.
  simpl. rewrite Hdup, andb_false_r.
  destruct i as [|i].
  - injection Hi as ->.
    pose proof Hne as Hne'. apply isEmpty_false in Hne'. rewrite Hne'.
    destruct (FlagSetString_cases flags (fullTag c (FlagPrefix c) fi "flag")
                (Tag fi "default") (Tag fi "usage"))
      as [[msg ->]|(flags1 & -> & Hformal)]; simpl; [eauto|].
    apply (registerFlags_defined c fs Hdup _ _ j fj Hj);
      [now rewrite <- Hsame|].
    rewrite Hformal, existsb_app. simpl. rewrite <- Hsame, String.eqb_refl.
    now rewrite orb_true_r.
  - simpl in Hi.
    destruct (isEmpty (fullTag c (FlagPrefix c) f "flag"));
      [apply (IH _ _ i j fi fj); auto; lia|].
    destruct (FlagSetString_cases flags (fullTag c (FlagPrefix c) f "flag")
                (Tag f "default") (Tag f "usage"))
      as [[msg ->]|(flags1 & -> & Hformal)]; simpl; [eauto|].
    apply (IH _ _ i j fi fj); auto; lia.
Qed.

(** X13. When duplicates are allowed and flags are not skipped, a
    destination whose walk yields two fields with one non-empty flag name
    makes [LoaderFor] panic: the name is defined on the flag set a second
    time. *)
Theorem LoaderFor_panics_on_shared_flag (t : rtype) (x x' : rvalue)
  (cfg : Config) (fs : list fieldData) (i j : nat) (fi fj : fieldData) :
  assertStruct t x = None ->
  NewParser cfg = false -> SkipFlags cfg = false -> AllowDuplicates cfg = true ->
  let c := initSources (initDelimiters cfg) in
  getFields c t x = Ok (fs, x') ->
  (i < j)%nat -> fs !! i = Some fi -> fs !! j = Some fj ->
  fullTag c (FlagPrefix c) fi "flag" = fullTag c (FlagPrefix c) fj "flag" ->
  fullTag c (FlagPrefix c) fi "flag" <> EmptyString ->
  exists msg, LoaderFor t x cfg = Panic msg.
Proof.
  intros Hassert Hnew Hskip Hdup c Hfs Hij Hi Hj Hsame Hne.
  unfold LoaderFor. rewrite Hassert. unfold init.
  cbn [config withConfig dstType dst]. fold c.
  change (NewParser c) with (NewParser cfg).
  change (SkipFlags c) with (SkipFlags cfg).
  rewrite Hnew, Hskip, Hfs. cbn [bind].
  destruct (registerFlags_redefined c fs Hdup ∅ (NewFlagSet (FlagPrefix c))
              i j fi fj Hij Hi Hj Hsame Hne) as [msg Hmsg].
  rewrite Hmsg. simpl. eauto.
Qed.

(** ** What the passes keep *)

(** [f'] is the descriptor [f] with, possibly, another value handle and
    another [isSet] mark. *)
Definition sameDescriptor (f f' : fieldData) : Prop :=
  name f' = name f /\ parent f' = parent f /\ field f' = field f
  /\ isRequired f' = isRequired f /\ tags f' = tags f.

(** [f'] is the descriptor [f], and is set if [f] was. *)
Definition staysSet (f f' : fieldData) : Prop :=
  sameDescriptor f f' /\ (isSet f = true -> isSet f' = true).

Lemma sameDescriptor_refl (f : fieldData) : sameDescriptor f f.
Proof. repeat split. Qed.

Lemma sameDescriptor_trans (f g h : fieldData) :
  sameDescriptor f g -> sameDescriptor g h -> sameDescriptor f h.
Proof.
  intros (A1 & A2 & A3 & A4 & A5) (B1 & B2 & B3 & B4 & B5).
  repeat split; congruence.
Qed.

Lemma staysSet_refl (f : fieldData) : staysSet f f.
Proof. split; [apply sameDescriptor_refl | auto]. Qed.

Lemma staysSet_trans (f g h : fieldData) :
  staysSet f g -> staysSet g h -> staysSet f h.
Proof.
  intros [A1 A2] [B1 B2]. split; [now apply (sameDescriptor_trans f g h) | auto].
Qed.

Lemma Forall2_refl_on {A : Type} (R : A -> A -> Prop) (xs : list A) :
  (forall x, R x x) -> Forall2 R xs xs.
Proof. intros H. induction xs; constructor; auto. Qed.

Lemma Forall2_trans_on {A : Type} (R : A -> A -> Prop) :
  (forall x y z, R x y -> R y z -> R x z) ->
  forall xs ys zs, Forall2 R xs ys -> Forall2 R ys zs -> Forall2 R xs zs.
Proof.
  intros HR xs ys zs H. revert zs.
  induction H as [|x y xs ys Hxy _ IH]; intros zs Hz.
  - inversion Hz. constructor.
  - inversion Hz as [|y' z ys' zs' Hyz Hrest]; subst.
    constructor; [now apply (HR x y z) | now apply IH].
Qed.

Lemma setFieldData_sameDescriptor (c : Config) (f g : fieldData) (v : any) :
  setFieldData c f v = Ok g -> sameDescriptor f g /\ isSet g = isSet f.
Proof.
  intros H. apply setFieldData_sameCell in H. rewrite H.
  repeat split.
Qed.

(** A field that a pass set from a value, or left as it was. *)
Lemma set_or_kept_staysSet (c : Config) (f f' : fieldData) (o : option any) :
  match o with
  | Some v => exists g, setFieldData c f v = Ok g /\ f' = setIsSet g true
  | None => f' = f
  end ->
  staysSet f f'.
Proof.
  destruct o as [v|]; [|intros ->; apply staysSet_refl].
  intros (g & Hg & ->). apply setFieldData_sameDescriptor in Hg as [Hg _].
  split; [exact Hg | reflexivity].
Qed.

Lemma forFields_Forall2 {S : Type} (R : fieldData -> fieldData -> Prop)
  (body : S -> fieldData -> result (S * fieldData)) (fs : list fieldData) :
  (forall s f s' f', body s f = Ok (s', f') -> R f f') ->
  forall s s' out, forFields body fs s = Ok (s', out) -> Forall2 R fs out.
Proof.
  intros Hbody. induction fs as [|f fs IH]; intros s s' out H.
  - injection H as <- <-. constructor.
  - apply forFields_Ok_cons in H as (s1 & f' & rest' & Hf & Hrest & ->).
    constructor; eauto.
Qed.

Lemma mapM_Forall2 {A B : Type} (R : A -> B -> Prop) (g : A -> result B)
  (xs : list A) :
  (forall x y, g x = Ok y -> R x y) ->
  forall ys, mapM g xs = Ok ys -> Forall2 R xs ys.
Proof.
  intros Hg. induction xs as [|x xs IH]; intros ys H.
  - injection H as <-. constructor.
  - simpl in H. apply bind_Ok in H as (y & Hy & H).
    apply bind_Ok in H as (ys' & Hys & H). injection H as <-.
    constructor; eauto.
Qed.

Lemma loadDefault_sameDescriptor (c : Config) (f f' : fieldData) :
  loadDefault c f = Ok f' ->
  sameDescriptor f f' /\ isSet f' = negb (isEmpty (Tag f "default")).
Proof.
  unfold loadDefault. intros H. apply bind_Ok in H as (g & Hg & H).
  injection H as <-. apply setFieldData_sameDescriptor in Hg as [Hg _].
  split; [exact Hg | reflexivity].
Qed.

Lemma loadDefaults_fields (l l' : Loader) :
  loadDefaults l = Ok l' ->
  config l' = config l
  /\ Forall2 sameDescriptor (fields l) (fields l')
  /\ (NewParser (config l) = false ->
      Forall2 (fun f f' => isSet f' = negb (isEmpty (Tag f "default")))
        (fields l) (fields l')).
Proof.
  unfold loadDefaults. intros H. destruct (NewParser (config l)).
  - injection H as <-. split; [reflexivity|]. split; [|discriminate].
    apply Forall2_refl_on, sameDescriptor_refl.
  - apply bind_Ok in H as (fs & Hfs & H). injection H as <-. simpl.
    split; [reflexivity|]. split; [|intros _].
    + eapply mapM_Forall2; [|exact Hfs].
      intros f f' Hf. now apply loadDefault_sameDescriptor in Hf.
    + eapply mapM_Forall2; [|exact Hfs].
      intros f f' Hf. now apply loadDefault_sameDescriptor in Hf.
Qed.

Lemma loadFile_staysSet (l l' : Loader) (file : string) :
  loadFile l file = Ok l' ->
  config l' = config l /\ Forall2 staysSet (fields l) (fields l').
Proof.
  unfold loadFile. intros H.
  destruct (FileDecoders (config l) !! ToLower (Ext file)) as [decoder|];
    [|discriminate].
  apply bind_Ok in H as (m & _ & H).
  destruct (NewParser (config l)).
  - destruct (parser l) as [p|]; [|discriminate].
    apply bind_Ok in H as (p' & _ & H). injection H as <-. simpl.
    split; [reflexivity | apply Forall2_refl_on, staysSet_refl].
  - apply bind_Ok in H as ([rest fs] & Hloop & H).
    assert (HF : Forall2 staysSet (fields l) fs).
    { eapply forFields_Forall2; [|exact Hloop].
      intros s f s' f' Hf. apply loadFileField_Ok in Hf.
      now apply (set_or_kept_staysSet (config l) f f'
                   (fileLookup (config l) (Format decoder) s f)). }
    destruct (AllowUnknownFields (config l)); [now injection H as <-|].
    destruct (map_to_list rest) as [|[k v] r]; [now injection H as <-|discriminate].
Qed.

Lemma loadFilesFrom_staysSet (files : list string) :
  forall l l', loadFilesFrom l files = Ok l' ->
               config l' = config l /\ Forall2 staysSet (fields l) (fields l').
Proof.
  induction files as [|file rest IH]; intros l l' H.
  - injection H as <-. split; [reflexivity | apply Forall2_refl_on, staysSet_refl].
  - simpl in H. destruct (notExist file).
    + destruct (FailOnFileNotFound (config l)); [discriminate | now apply IH].
    + apply bind_Ok in H as (l1 & H1 & H).
      apply loadFile_staysSet in H1 as [Hc1 HF1].
      destruct (negb (MergeFiles (config l1))); [injection H as <-; auto|].
      apply IH in H as [Hc HF]. split; [congruence|].
      exact (Forall2_trans_on _ staysSet_trans _ _ _ HF1 HF).
Qed.

Lemma loadFiles_staysSet (l l' : Loader) :
  loadFiles l = Ok l' ->
  (exists files, config l' = withFiles (config l) files)
  /\ Forall2 staysSet (fields l) (fields l').
Proof.
  unfold loadFiles. intros H. apply bind_Ok in H as (l0 & H0 & H).
  apply loadFileFlag_config in H0 as [files ->].
  apply loadFilesFrom_staysSet in H as [Hc HF]. simpl in Hc, HF. eauto.
Qed.

Lemma flatOutcome_staysSet (c : Config) (prefix tag : string)
  (values : gmap string any) (f f' : fieldData) :
  flatOutcome c prefix tag values f f' -> staysSet f f'.
Proof.
  unfold flatOutcome. destruct (isEmpty _); [intros ->; apply staysSet_refl|].
  apply (set_or_kept_staysSet c f f').
Qed.

Lemma flat_loop_staysSet (c : Config) (prefix tag : string)
  (values : gmap string any) (fs out : list fieldData)
  (st : gmap string any * gset string) :
  forFields (flatField c prefix tag) fs (values, ∅) = Ok (st, out) ->
  Forall2 staysSet fs out.
Proof.
  intros H.
  assert (HF : Forall2 (flatOutcome c prefix tag values) fs out).
  { apply (flat_loop_outcome c prefix tag values fs values ∅ st out); [|exact H].
    destruct (AllowDuplicates c); auto. }
  eapply Forall2_impl; [exact HF|]. apply flatOutcome_staysSet.
Qed.

Lemma loadEnvironment_staysSet (l l' : Loader) :
  loadEnvironment l = Ok l' ->
  config l' = config l /\ Forall2 staysSet (fields l) (fields l').
Proof.
  unfold loadEnvironment. intros H. destruct (NewParser (config l)).
  - destruct (parser l) as [p|]; [|discriminate].
    apply bind_Ok in H as (p' & _ & H). injection H as <-. simpl.
    split; [reflexivity | apply Forall2_refl_on, staysSet_refl].
  - apply bind_Ok in H as ([st fs] & Hloop & H).
    apply bind_Ok in H as (u & _ & H). injection H as <-. simpl.
    split; [reflexivity | now apply flat_loop_staysSet in Hloop].
Qed.

Lemma loadFlags_staysSet (l l' : Loader) :
  loadFlags l = Ok l' ->
  config l' = config l /\ Forall2 staysSet (fields l) (fields l').
Proof.
  unfold loadFlags. intros H. destruct (flagSet l) as [flags|]; [|discriminate].
  destruct (NewParser (config l)).
  - destruct (parser l) as [p|]; [|discriminate].
    apply bind_Ok in H as (p' & _ & H). injection H as <-. simpl.
    split; [reflexivity | apply Forall2_refl_on, staysSet_refl].
  - apply bind_Ok in H as ([st fs] & Hloop & H).
    apply bind_Ok in H as (u & _ & H). injection H as <-. simpl.
    split; [reflexivity | now apply flat_loop_staysSet in Hloop].
Qed.

(** The passes after the defaults, skipped or not. *)
Definition afterDefaults (l : Loader) : result Loader :=
  do l <- (if negb (SkipFiles (config l))
           then wrapErr "load files" (loadFiles l) else Ok l);
  do l <- (if negb (SkipEnv (config l))
           then wrapErr "load environment" (loadEnvironment l) else Ok l);
  do l <- (if negb (SkipFlags (config l))
           then wrapErr "load flags" (loadFlags l) else Ok l);
  if NewParser (config l) then
    match parser l with
    | None => Panic "nil pointer dereference"
    | Some p =>
        do x <- wrapErr "apply" (lift (apply p (dstType l) (dst l)));
        Ok (withDst l x)
    end
  else Ok l.

Lemma loadSources_afterDefaults (l : Loader) :
  loadSources l
  = (do l <- (if negb (SkipDefaults (config l))
              then wrapErr "load defaults" (loadDefaults l) else Ok l);
     afterDefaults l).
Proof. reflexivity. Qed.

Lemma afterDefaults_staysSet (l l' : Loader) :
  afterDefaults l = Ok l' ->
  AllFieldRequired (config l') = AllFieldRequired (config l)
  /\ Forall2 staysSet (fields l) (fields l').
Proof.
  unfold afterDefaults. intros H.
  apply bind_Ok in H as (l1 & H1 & H).
  apply bind_Ok in H as (l2 & H2 & H).
  apply bind_Ok in H as (l3 & H3 & H).
  assert (A1 : AllFieldRequired (config l1) = AllFieldRequired (config l)
               /\ SkipEnv (config l1) = SkipEnv (config l)
               /\ Forall2 staysSet (fields l) (fields l1)).
  { destruct (negb (SkipFiles (config l))).
    - apply wrapErr_Ok, loadFiles_staysSet in H1 as [[files Hc] HF].
      rewrite Hc. auto.
    - injection H1 as <-. repeat split. apply Forall2_refl_on, staysSet_refl. }
  assert (A2 : config l2 = config l1
               /\ Forall2 staysSet (fields l1) (fields l2)).
  { destruct (negb (SkipEnv (config l1))).
    - now apply wrapErr_Ok, loadEnvironment_staysSet in H2.
    - injection H2 as <-. split; [reflexivity|].
      apply Forall2_refl_on, staysSet_refl. }
  assert (A3 : config l3 = config l2
               /\ Forall2 staysSet (fields l2) (fields l3)).
  { destruct (negb (SkipFlags (config l2))).
    - now apply wrapErr_Ok, loadFlags_staysSet in H3.
    - injection H3 as <-. split; [reflexivity|].
      apply Forall2_refl_on, staysSet_refl. }
  assert (A4 : config l' = config l3 /\ fields l' = fields l3).
  { destruct (NewParser (config l3)); [|now injection H as <-].
    destruct (parser l3) as [p|]; [|discriminate].
    apply bind_Ok in H as (x & _ & H). now injection H as <-. }
  destruct A1 as (C1 & _ & F1), A2 as [C2 F2], A3 as [C3 F3], A4 as [C4 F4].
  split; [congruence|]. rewrite F4.
  exact (Forall2_trans_on _ staysSet_trans _ _ _
           (Forall2_trans_on _ staysSet_trans _ _ _ F1 F2) F3).
Qed.

Lemma parseFlags_fields (l l' : Loader) :
  parseFlags l = Ok l' -> config l' = config l /\ fields l' = fields l.
Proof.
  unfold parseFlags. intros H. destruct (flagSet l) as [flags|]; [|discriminate].
  destruct (_ || _); [now injection H as <-|].
  apply bind_Ok in H as (flags' & _ & H). now injection H as <-.
Qed.

(** X14. A successful [Load] returns the descriptors it started from, in
    the same order: none is added, dropped or moved, and each keeps its
    name, its parent, its struct field, its tags and its required mark.
    Only value handles and [isSet] marks change. *)
Theorem Load_keeps_the_descriptors (l l' : Loader) :
  Load l = Ok l' ->
  length (fields l') = length (fields l)
  /\ forall i f', fields l' !! i = Some f' ->
       exists f, fields l !! i = Some f
                 /\ name f' = name f /\ parent f' = parent f
                 /\ field f' = field f /\ isRequired f' = isRequired f
                 /\ tags f' = tags f
                 /\ forall tag, Tag f' tag = Tag f tag.
Proof.
  unfold Load. destruct (errInit l); [discriminate|]. intros H.
  apply wrapErr_Ok in H. unfold loadConfig in H.
  apply bind_Ok in H as (l0 & H0 & H). apply parseFlags_fields in H0 as [_ F0].
  apply bind_Ok in H as (l2 & H2 & H). apply bind_Ok in H as (u & _ & H).
  injection H as <-. rewrite loadSources_afterDefaults in H2.
  apply bind_Ok in H2 as (l1 & H1 & H2).
  assert (F1 : Forall2 sameDescriptor (fields l0) (fields l1)).
  { destruct (negb (SkipDefaults (config l0))).
    - now apply wrapErr_Ok, loadDefaults_fields in H1 as (_ & F & _).
    - injection H1 as <-. apply Forall2_refl_on, sameDescriptor_refl. }
  apply afterDefaults_staysSet in H2 as [_ F2].
  assert (F : Forall2 sameDescriptor (fields l) (fields l2)).
  { rewrite <- F0.
    apply (Forall2_trans_on _ sameDescriptor_trans _ _ _ F1).
    eapply Forall2_impl; [exact F2|]. now intros f f' [Hs _]. }
  split; [symmetry; exact (Forall2_length _ _ _ F)|].
  intros i f' Hi.
  destruct (Forall2_lookup_r _ _ _ _ _ F Hi) as (f & Hf & (A1 & A2 & A3 & A4 & A5)).
  exists f. repeat split; auto.
  intros tag. unfold Tag. now rewrite A3, A5.
Qed.

(** X15. A default counts as a value. After the passes, the defaults not
    skipped, a field whose [default] tag is not empty is marked as set,
    whatever the other sources hold; so when every field has a default,
    the check for required fields passes even under [AllFieldRequired]. *)
Theorem default_counts_as_set (l l' : Loader) :
  NewParser (config l) = false -> SkipDefaults (config l) = false ->
  loadSources l = Ok l' ->
  (forall i f, fields l !! i = Some f -> Tag f "default" <> EmptyString ->
     exists f', fields l' !! i = Some f' /\ isSet f' = true
                /\ name f' = name f)
  /\ ((forall f, In f (fields l) -> Tag f "default" <> EmptyString) ->
      checkRequired l' = Ok tt).
Proof.
  intros Hnew Hskip H. rewrite loadSources_afterDefaults, Hskip in H.
  simpl in H. apply bind_Ok in H as (l1 & H1 & H2).
  apply wrapErr_Ok, loadDefaults_fields in H1 as (_ & F1 & S1).
  specialize (S1 Hnew). apply afterDefaults_staysSet in H2 as [_ F2].
  assert (Hset : forall i f, fields l !! i = Some f ->
            Tag f "default" <> EmptyString ->
            exists f', fields l' !! i = Some f' /\ isSet f' = true
                       /\ name f' = name f).
  { intros i f Hi Hdef.
    destruct (Forall2_lookup_l _ _ _ _ _ S1 Hi) as (f1 & Hf1 & Hs1).
    destruct (Forall2_lookup_l _ _ _ _ _ F1 Hi) as (f1' & Hf1' & Hd1).
    rewrite Hf1 in Hf1'. injection Hf1' as <-.
    destruct (Forall2_lookup_l _ _ _ _ _ F2 Hf1) as (f' & Hf' & [Hd2 Hmono]).
    exists f'. split; [exact Hf'|]. split.
    - apply Hmono. rewrite Hs1. apply isEmpty_false in Hdef. now rewrite Hdef.
    - destruct Hd1 as [N1 _], Hd2 as [N2 _]. congruence. }
  split; [exact Hset|].
  intros Hall. unfold checkRequired.
  assert (Hmissed : missedFields (config l') (fields l') = []).
  { unfold missedFields.
    assert (Hnone : forall f', In f' (fields l') -> isSet f' = true).
    { intros f' Hin. apply list_elem_of_In, list_elem_of_lookup_1 in Hin as [i Hi'].
      destruct (Forall2_lookup_r _ _ _ _ _ F2 Hi') as (f1 & Hf1 & _).
      destruct (Forall2_lookup_r _ _ _ _ _ F1 Hf1) as (f & Hf & _).
      destruct (Hset i f Hf) as (f'' & Hf'' & Hs & _).
      - apply Hall, list_elem_of_In. now apply (list_elem_of_lookup_2 _ i).
      - congruence. }
    revert Hnone. generalize (fields l') as fs, (config l') as c'.
    induction fs as [|f' fs IH]; intros c' Hnone; [reflexivity|]. simpl.
    rewrite (Hnone f') by now left. simpl. apply IH.
    intros g Hg. apply Hnone. now right. }
  now rewrite Hmissed.
Qed.

(** ** The list of files *)

Lemma loadFile_config (l l' : Loader) (file : string) :
  loadFile l file = Ok l' -> config l' = config l.
Proof. intros H. now apply loadFile_staysSet in H. Qed.

(** X16. How [loadFiles] goes through the list of files. Files that do
    not exist are passed over, unless [FailOnFileNotFound] is set, in which
    case the first of them is the error; when none exists the pass does
    nothing and succeeds. Without [MergeFiles] the first file that exists
    is the only one loaded: what follows it in the list is not looked
    at, not even for existence. *)
Theorem loadFilesFrom_selects (l : Loader) (missing rest : list string)
  (file : string) :
  Forall (fun m => notExist m = true) missing ->
  (FailOnFileNotFound (config l) = false ->
   loadFilesFrom l (missing ++ rest) = loadFilesFrom l rest
   /\ loadFilesFrom l missing = Ok l)
  /\ (FailOnFileNotFound (config l) = true ->
      forall m others, missing = m :: others ->
        loadFilesFrom l (missing ++ rest) = Err (ErrNotExist m))
  /\ (MergeFiles (config l) = false -> notExist file = false ->
      loadFilesFrom l (file :: rest) = loadFile l file).
Proof.
  intros Hmissing. split; [|split].
  - intros Hfail.
    split; (induction Hmissing as [|m ms Hm _ IH]; [reflexivity|]);
      simpl; now rewrite Hm, Hfail.
  - intros Hfail m others ->. apply Forall_cons in Hmissing as [Hm _].
    simpl. now rewrite Hm, Hfail.
  - intros Hmerge Hfile. simpl. rewrite Hfile.
    destruct (loadFile l file) as [l'| |] eqn:E; try reflexivity. simpl.
    now rewrite (loadFile_config _ _ _ E), Hmerge.
Qed.

(** X17. The flag that names a configuration file. When the flag was
    given, an empty path is an error; otherwise, without [MergeFiles] the
    file it names replaces the configured list, of which no file is then
    read, and with [MergeFiles] it is added at the end of the list, where
    it is loaded last. When the flag was not given the configured list is
    used as it is. *)
Theorem loadFiles_with_file_flag (l : Loader) (flags : FlagSet) :
  FileFlag (config l) <> EmptyString -> flagSet l = Some flags ->
  (forall path,
      getActualFlag (FileFlag (config l)) flags = Some path ->
      (path = EmptyString ->
       loadFiles l = Err (ErrFileFlagEmpty (FileFlag (config l))))
      /\ (path <> EmptyString ->
          let files := if MergeFiles (config l)
                       then Files (config l) ++ [path] else [path] in
          loadFiles l
          = loadFilesFrom (withConfig l (withFiles (config l) files)) files))
  /\ (getActualFlag (FileFlag (config l)) flags = None ->
      loadFiles l = loadFilesFrom l (Files (config l))).
Proof.
  intros Hflag Hflags. apply isEmpty_false in Hflag.
  unfold loadFiles, loadFileFlag. rewrite Hflag, Hflags. split.
  - intros path ->. split.
    + now intros ->.
    + intros Hpath. apply isEmpty_false in Hpath. rewrite Hpath.
      now destruct (MergeFiles (config l)).
  - now intros ->.
Qed.

(** ** Unknown flags *)

Lemma postFlagCheck_Err (c : Config) (values : gmap string any)
  (dupls : gset string) :
  (exists e, postFlagCheck c values dupls = Err e)
  <-> (AllowUnknownFlags c = false /\ FlagPrefix c <> EmptyString
       /\ exists k, is_Some (values !! k) /\ (k ∉ dupls)
                    /\ HasPrefix k (FlagPrefix c) = true).
Proof.
  unfold postFlagCheck. split.
  - intros [e H].
    destruct (AllowUnknownFlags c); [discriminate|].
    destruct (isEmpty (FlagPrefix c)) eqn:Hp; [discriminate|]. simpl in H.
    apply isEmpty_false in Hp.
    destruct (unknownKey _ _ _) as [k|] eqn:Hk; [|discriminate].
    apply unknownKey_Some in Hk. eauto.
  - intros (Hallow & Hp & k & Hv & Hd & Hk).
    apply isEmpty_false in Hp. rewrite Hallow, Hp. simpl.
    destruct (unknownKey _ _ _) as [k'|] eqn:Hk'; [eauto|].
    rewrite (unknownKey_None _ _ _ Hk' k Hv Hd) in Hk. discriminate.
Qed.

Lemma postFlagCheck_cases (c : Config) (values : gmap string any)
  (dupls : gset string) :
  postFlagCheck c values dupls = Ok tt
  \/ exists k, postFlagCheck c values dupls = Err (ErrUnknownFlag k)
               /\ is_Some (values !! k) /\ HasPrefix k (FlagPrefix c) = true.
Proof.
  unfold postFlagCheck.
  destruct (_ || _); [now left|].
  destruct (unknownKey _ _ _) as [k|] eqn:Hk; [right | now left].
  apply unknownKey_Some in Hk as (Hv & _ & Hp). eauto.
Qed.

(** Without duplicates allowed, after a successful loop the keys recorded
    are among those recorded before and the keys of the fields, every
    non-empty key of a field is recorded, and the source map is unchanged
    outside the keys recorded. *)
Lemma flat_loop_keys (c : Config) (prefix tag : string) (fs : list fieldData) :
  AllowDuplicates c = false ->
  forall (values : gmap string any) (dupls : gset string)
         (st : gmap string any * gset string) (out : list fieldData),
    forFields (flatField c prefix tag) fs (values, dupls) = Ok (st, out) ->
    (forall k, k ∈ snd st ->
               k ∈ dupls \/ exists f, In f fs /\ fullTag c prefix f tag = k)
    /\ (forall f, In f fs -> fullTag c prefix f tag <> EmptyString ->
                  fullTag c prefix f tag ∈ snd st)
    /\ (forall k, k ∉ snd st -> fst st !! k = values !! k).
Proof.
  intros Hdup. induction fs as [|x fs IH]; intros values dupls st out H.
  - injection H as <- <-. simpl. split; [auto|]. split; [intros f []|auto].
  - apply forFields_Ok_cons in H as ([v1 d1] & x' & rest' & Hbody & Hrest & ->).
    destruct (IH _ _ _ _ Hrest) as (Hkeys & Hin & Hvals).
    destruct (string_dec (fullTag c prefix x tag) EmptyString) as [Hx|Hx].
    + rewrite flatField_empty_key in Hbody by exact Hx.
      injection Hbody as <- <- <-. split; [|split; [|exact Hvals]].
      * intros k Hk. destruct (Hkeys k Hk) as [Hd|(f & Hf & Hkf)];
          [now left | right; exists f; split; [now right | exact Hkf]].
      * intros f [<-|Hf] Hne; [contradiction | now apply Hin].
    + rewrite flatField_key in Hbody by exact Hx. simpl in Hbody.
      apply setField_Ok in Hbody as [Hst _]. rewrite Hdup in Hst.
      destruct Hst as (Hfresh & -> & ->).
      assert (Hsub : {[fullTag c prefix x tag]} ∪ dupls ⊆ snd st).
      { apply (flat_loop_records c prefix tag fs rest' _ _ st Hdup Hrest). }
      split; [|split].
      * intros k Hk. destruct (Hkeys k Hk) as [Hd|(f & Hf & Hkf)].
        -- apply elem_of_union in Hd as [Hd|Hd]; [|now left].
           apply elem_of_singleton in Hd. right. exists x.
           split; [now left | now symmetry].
        -- right. exists f. split; [now right | exact Hkf].
      * intros f [<-|Hf] Hne; [|now apply Hin].
        apply Hsub, elem_of_union_l, elem_of_singleton. reflexivity.
      * intros k Hk. rewrite (Hvals k Hk). apply lookup_delete_ne.
        intros <-. apply Hk, Hsub, elem_of_union_l, elem_of_singleton.
        reflexivity.
Qed.

(** X18. The flag pass with duplicates not allowed: once the loop over
    the fields has succeeded, the pass fails if and only if unknown flags
    are checked, the flag prefix is not empty, and a flag that was given
    starts with the prefix and is the flag name of no field; the error then
    is the unknown-flag error for such a flag. *)
Theorem loadFlags_unknown_flag (l : Loader) (flags : FlagSet)
  (st : gmap string any * gset string) (out : list fieldData) :
  NewParser (config l) = false -> AllowDuplicates (config l) = false ->
  flagSet l = Some flags ->
  let c := config l in
  forFields (flatField c (FlagPrefix c) "flag") (fields l) (getFlags flags, ∅)
  = Ok (st, out) ->
  (loadFlags l = Ok (withFields l out)
   \/ exists k, loadFlags l = Err (ErrUnknownFlag k)
                /\ is_Some (getFlags flags !! k)
                /\ HasPrefix k (FlagPrefix c) = true
                /\ forall f, In f (fields l) ->
                             fullTag c (FlagPrefix c) f "flag" <> k)
  /\ ((exists e, loadFlags l = Err e)
      <-> (AllowUnknownFlags c = false /\ FlagPrefix c <> EmptyString
           /\ exists k, is_Some (getFlags flags !! k)
                /\ (forall f, In f (fields l) ->
                      fullTag c (FlagPrefix c) f "flag" <> k)
                /\ HasPrefix k (FlagPrefix c) = true)).
Proof.
  intros Hnew Hdup Hflags c Hloop.
  rewrite (loadFlags_unfold _ flags) by assumption. fold c. rewrite Hloop.
  simpl.
  destruct (flat_loop_keys c _ _ _ Hdup _ _ _ _ Hloop) as (Hkeys & Hin & Hvals).
  assert (Hnonempty : forall k, FlagPrefix c <> EmptyString ->
            HasPrefix k (FlagPrefix c) = true -> k <> EmptyString).
  { intros k Hp Hk ->. now destruct (FlagPrefix c). }
  assert (Hfree : forall k, k <> EmptyString -> k ∉ snd st ->
            forall f, In f (fields l) -> fullTag c (FlagPrefix c) f "flag" <> k).
  { intros k Hk Hd f Hf E. apply Hd. rewrite <- E. apply Hin; [exact Hf|].
    now rewrite E. }
  assert (Hfresh : forall k,
            (forall f, In f (fields l) -> fullTag c (FlagPrefix c) f "flag" <> k) ->
            k ∉ snd st).
  { intros k Hf Hd. destruct (Hkeys k Hd) as [Hd'|(f & Hfin & Hkf)].
    - now apply not_elem_of_empty in Hd'.
    - now apply (Hf f). }
  assert (Hiff : (exists e, postFlagCheck c (fst st) (snd st) = Err e)
            <-> (AllowUnknownFlags c = false /\ FlagPrefix c <> EmptyString
                 /\ exists k, is_Some (getFlags flags !! k)
                      /\ (forall f, In f (fields l) ->
                            fullTag c (FlagPrefix c) f "flag" <> k)
                      /\ HasPrefix k (FlagPrefix c) = true)).
  { rewrite postFlagCheck_Err. split.
    - intros (Ha & Hp & k & Hv & Hd & Hk).
      split; [exact Ha|]. split; [exact Hp|]. exists k.
      rewrite <- (Hvals k Hd). split; [exact Hv|]. split; [|exact Hk].
      apply Hfree; [now apply Hnonempty | exact Hd].
    - intros (Ha & Hp & k & Hv & Hf & Hk).
      split; [exact Ha|]. split; [exact Hp|]. exists k.
      pose proof (Hfresh k Hf) as Hd. rewrite (Hvals k Hd).
      split; [exact Hv|]. split; [exact Hd | exact Hk]. }
  split.
  - destruct (postFlagCheck c (fst st) (snd st)) as [[]|e|m] eqn:E; simpl;
      [now left | | ].
    + right. unfold postFlagCheck in E.
      destruct (AllowUnknownFlags c); [discriminate|].
      destruct (isEmpty (FlagPrefix c)) eqn:Hpre; [discriminate|].
      simpl in E. apply isEmpty_false in Hpre.
      destruct (unknownKey _ _ _) as [k|] eqn:Hk; [|discriminate].
      injection E as <-. apply unknownKey_Some in Hk as (Hv & Hd & Hp).
      exists k. rewrite <- (Hvals k Hd).
      split; [reflexivity|]. split; [exact Hv|]. split; [exact Hp|].
      apply Hfree; [now apply Hnonempty | exact Hd].
    + destruct (postFlagCheck_cases c (fst st) (snd st)) as [H|(k & H & _)];
        rewrite H in E; discriminate.
  - rewrite <- Hiff.
    destruct (postFlagCheck c (fst st) (snd st)) as [[]|e0|m0]; simpl;
      split; intros [e' H]; try discriminate; exists e0; reflexivity.
Qed.

(** X19. The flag pass with duplicates allowed records no flag name and
    removes no flag from the source, so that the check for unknown flags
    sees every flag that was given: with the check enabled and a prefix
    set, the pass fails with the unknown-flag error as soon as any flag
    given starts with the prefix, the flags that fields were set from
    included. *)
Theorem loadFlags_allowing_duplicates (l : Loader) (flags : FlagSet)
  (st : gmap string any * gset string) (out : list fieldData) (k : string) :
  NewParser (config l) = false -> AllowDuplicates (config l) = true ->
  flagSet l = Some flags ->
  let c := config l in
  forFields (flatField c (FlagPrefix c) "flag") (fields l) (getFlags flags, ∅)
  = Ok (st, out) ->
  AllowUnknownFlags c = false -> FlagPrefix c <> EmptyString ->
  is_Some (getFlags flags !! k) -> HasPrefix k (FlagPrefix c) = true ->
  st = (getFlags flags, ∅)
  /\ exists k', loadFlags l = Err (ErrUnknownFlag k')
                /\ is_Some (getFlags flags !! k')
                /\ HasPrefix k' (FlagPrefix c) = true.
Proof.
  intros Hnew Hdup Hflags c Hloop Ha Hp Hv Hk.
  rewrite (loadFlags_unfold _ flags) by assumption. fold c. rewrite Hloop.
  simpl. apply flat_loop_state_kept in Hloop; [|exact Hdup]. subst st. simpl.
  split; [reflexivity|].
  assert (Herr : exists e, postFlagCheck c (getFlags flags) ∅ = Err e).
  { apply postFlagCheck_Err. repeat split; auto. exists k.
    repeat split; auto. apply not_elem_of_empty. }
  destruct (postFlagCheck_cases c (getFlags flags) ∅) as [H|(k' & H & Hv' & Hk')].
  - destruct Herr as [e He]. congruence.
  - exists k'. rewrite H. auto.
Qed.

(** ** Maps of strings *)

(** On a fresh string cell a string is stored as it is. *)
Lemma setFieldData_fresh_string (c : Config) (fd : fieldData) (s : string) :
  value fd = NewElem (TBasic BString) ->
  textUnmarshaler (TBasic BString) = None ->
  exists g, setFieldData c fd (AString s) = Ok g
            /\ vtype (value g) = TBasic BString
            /\ vdata (value g) = VString s.
Proof.
  intros Hv Hum. rewrite setFieldData_unfold. unfold setFieldDataBody.
  rewrite Hv. simpl. destruct s as [|ch s]; simpl.
  - eexists. split; [reflexivity|]. split; reflexivity.
  - rewrite Hum. unfold setString. simpl. eauto.
Qed.

Lemma mapEntry_strings (c : Config) (f : fieldData)
  (entries : list (rvalue * rvalue)) (key val : string) :
  sf_Type (field f) = Some (TMap (TBasic BString) (TBasic BString)) ->
  vtype (value f) = TMap (TBasic BString) (TBasic BString) ->
  textUnmarshaler (TBasic BString) = None ->
  mapEntry c (setFieldData c) f (TBasic BString) (TBasic BString) entries key
    (AString val)
  = Ok (SetMapIndex entries (VString key) (VString val)).
Proof.
  intros Hdecl Ht Hum. unfold mapEntry, newSimpleFieldData.
  rewrite Hdecl, Ht. simpl. rewrite !newFieldData_noStructField. simpl.
  match goal with |- context [setFieldData c ?fd (AString key)] =>
    destruct (setFieldData_fresh_string c fd key eq_refl Hum)
      as (gk & -> & Hkt & Hkd)
  end. simpl.
  match goal with |- context [setFieldData c ?fd (AString val)] =>
    destruct (setFieldData_fresh_string c fd val eq_refl Hum)
      as (gv & -> & Hvt & Hvd)
  end. simpl.
  now rewrite Hkt, Hvt, Hkd, Hvd.
Qed.

(** The key and the value of an item [key:value]: the text before and
    after the first colon, without the white space around each. *)
Definition mapItem (item : string) : string * string :=
  let '(k, v, _) := cut item ":" in (TrimSpace k, TrimSpace v).

(** X20. What [setMap] stores in a field declared as a map from strings
    to strings, neither decoding itself: when every item of the text has a
    colon, the map built from nothing by putting, item after item, the
    trimmed text after the first colon under the trimmed text before it; a
    key met again replaces the value put before, and the former content of
    the field is replaced. *)
Theorem setMap_of_strings (c : Config) (f : fieldData) (s : string) :
  sf_Type (field f) = Some (TMap (TBasic BString) (TBasic BString)) ->
  vtype (value f) = TMap (TBasic BString) (TBasic BString) ->
  textUnmarshaler (TBasic BString) = None ->
  Forall (fun item => snd (cut item ":") = true) (Split s ",") ->
  setMap c (setFieldData c) f s
  = Ok (setValue f
          (Set_ (value f)
             (VMap (Some (foldl (fun acc kv =>
                                   SetMapIndex acc (VString (fst kv))
                                     (VString (snd kv)))
                            [] (map mapItem (Split s ","))))))).
Proof.
  intros Hdecl Ht Hum Hitems. unfold setMap. rewrite Hdecl.
  assert (Hloop : forall items acc,
            Forall (fun item => snd (cut item ":") = true) items ->
            foldM (fun acc val =>
                     let '(k, v, ok) := cut val ":" in
                     if negb ok then Err (ErrIncorrectMapItem val)
                     else mapEntry c (setFieldData c) f (TBasic BString)
                            (TBasic BString) acc (TrimSpace k)
                            (AString (TrimSpace v))) items acc
            = Ok (foldl (fun acc kv =>
                           SetMapIndex acc (VString (fst kv)) (VString (snd kv)))
                    acc (map mapItem items))).
  { induction items as [|item items IH]; intros acc HF; [reflexivity|].
    apply Forall_cons in HF as [Hitem HF]. simpl.
    assert (Hm : mapItem item
                 = (TrimSpace (fst (fst (cut item ":"))),
                    TrimSpace (snd (fst (cut item ":")))))
      by (unfold mapItem; now destruct (cut item ":") as [[k v] ok]).
    rewrite Hm. destruct (cut item ":") as [[k v] ok]. simpl in Hitem.
    subst ok. simpl.
    rewrite mapEntry_strings by assumption. simpl. now apply IH. }
  rewrite (Hloop _ [] Hitems). simpl. unfold storeMap, SetTyped.
  rewrite Ht. reflexivity.
Qed.

(** ** Kinds without setter *)

(** X21. A cell of a kind for which [setFieldData] has no setter, and
    which does not decode itself, is an error only when a source supplies a
    value: a nil value and an empty string succeed, any other value fails
    with the error that names the kind. *)
Theorem setFieldData_unsupported_kind (c : Config) (f : fieldData) (v : any) :
  textUnmarshaler (vtype (unwrap (value f))) = None ->
  let k := kindOf (vtype (unwrap (value f))) in
  In k [Invalid; Complex64; Complex128; Array; Chan; Func; UnsafePointer] ->
  setFieldData c f v
  = if supplied v then Err (ErrKindNotSupported (kindName k))
    else Ok (match v with ANil => f | _ => setValue f (unwrap (value f)) end).
Proof.
  intros Hum k Hk. unfold setFieldData. simpl.
  destruct v as [|s|s|xs|m|m]; [reflexivity| | | | |].
  1: destruct s as [|ch s]; [reflexivity|].
  all: simpl; rewrite Hum; fold k;
    destruct (vCanAddr (unwrap (value f)));
    simpl in Hk; destruct Hk as [<-|[<-|[<-|[<-|[<-|[<-|[<-|[]]]]]]]];
    reflexivity.
Qed.

(** ** The tags of a descriptor *)

Lemma lookup_foldr_formats (mk : string -> string) (decs : list FileDecoder)
  (base : gmap string string) (k : string) :
  foldr (fun dec acc => <[Format dec := mk (Format dec)]> acc) base decs !! k
  = if existsb (fun dec => String.eqb (Format dec) k) decs
    then Some (mk k) else base !! k.
Proof.
  induction decs as [|dec decs IH]; simpl; [reflexivity|].
  destruct (String.eqb (Format dec) k) eqn:E; simpl.
  - apply String.eqb_eq in E. subst k. apply lookup_insert_eq.
  - apply String.eqb_neq in E. rewrite lookup_insert_ne by exact E. exact IH.
Qed.

(** X22. What [Tag] answers on a descriptor made by [newFieldData]: under
    [env], under [flag] and under the format of every registered decoder,
    the value that [makeTagValue] made for that namespace; under any other
    key, [default], [usage] and [required] among them, the text of the
    struct tag. *)
Theorem newFieldData_Tag (c : Config) (sf : StructField) (v : Value)
  (p : option fieldData) (fd : fieldData) (k : string) :
  newFieldData c sf v p = Ok fd ->
  let words := splitNameByWords (sf_Name sf) in
  let isFormat :=
    exists ext dec, FileDecoders c !! ext = Some dec /\ Format dec = k in
  (k = "env" \/ k = "flag" \/ isFormat ->
   Tag fd k = makeTagValue c sf k words)
  /\ (k <> "env" -> k <> "flag" -> ~ isFormat ->
      Tag fd k = TagGet (sf_Tag sf) k).
Proof.
  intros H words isFormat. apply newFieldData_Ok in H. subst fd.
  unfold Tag, tagsForField. cbn [tags]. fold words.
  rewrite (lookup_foldr_formats (fun k => makeTagValue c sf k words)).
  destruct (existsb _ _) eqn:Ex.
  - apply existsb_exists in Ex as (dec & Hin & Hk).
    apply String.eqb_eq in Hk.
    assert (Hf : isFormat).
    { apply in_map_iff in Hin as ([ext dec'] & <- & Hin).
      apply list_elem_of_In, elem_of_map_to_list in Hin. exists ext, dec'. auto. }
    split; [reflexivity | intros _ _ Hn; now destruct Hn].
  - assert (Hn : ~ isFormat).
    { intros (ext & dec & Hl & Hk).
      apply Bool.not_true_iff_false in Ex. apply Ex, existsb_exists.
      exists dec. split; [|now apply String.eqb_eq].
      apply in_map_iff. exists (ext, dec). split; [reflexivity|].
      now apply list_elem_of_In, elem_of_map_to_list. }
    destruct (string_dec k "flag") as [->|Hflag].
    { split; [reflexivity | intros _ Hne; now destruct Hne]. }
    rewrite lookup_insert_ne by congruence.
    destruct (string_dec k "env") as [->|Henv].
    { split; [reflexivity | intros Hne; now destruct Hne]. }
    rewrite lookup_insert_ne by congruence.
    split; [intros [E|[E|E]]; contradiction|]. intros _ _ _.
    destruct (string_dec k "usage") as [->|Husage];
      [now rewrite lookup_insert_eq|].
    rewrite lookup_insert_ne by congruence.
    destruct (string_dec k "default") as [->|Hdefault];
      [now rewrite lookup_insert_eq|].
    rewrite lookup_insert_ne by congruence. now rewrite lookup_empty.
Qed.

(** ** The errors of [Load] *)

Lemma wrapErr_Err {A : Type} (context : string) (r : result A) (e : error) :
  wrapErr context r = Err e -> exists e', r = Err e' /\ e = ErrWrap context e'.
Proof. destruct r; simpl; intros H; try discriminate. injection H as <-. eauto. Qed.

Lemma bind_Err {A B : Type} (r : result A) (k : A -> result B) (e : error) :
  bind r k = Err e -> r = Err e \/ exists a, r = Ok a /\ k a = Err e.
Proof.
  destruct r as [a|e'|m]; simpl; intros H;
    [|left; now injection H as ->|discriminate].
  right. exists a. auto.
Qed.

Definition stages : list string :=
  ["load defaults"; "load files"; "load environment"; "load flags"; "apply"].

Lemma stage_Err (stage : string) (skip : bool) (pass : result Loader)
  (l : Loader) (e : error) :
  (if negb skip then wrapErr stage pass else Ok l) = Err e ->
  exists e', e = ErrWrap stage e'.
Proof.
  intros H. destruct skip; simpl in H; [discriminate|].
  apply wrapErr_Err in H as (e' & _ & ->). eauto.
Qed.

(** X23. The errors of [Load] tell the stage that failed. An error stored
    at initialisation is returned under [init loader], and no pass is run.
    Any other error is returned under [load config], and is the error of
    the flag parser, or the error of a pass under the name of that pass,
    or the error that lists the required fields that are not set. *)
Theorem Load_errors (l : Loader) (e : error) :
  Load l = Err e ->
  (exists e0, errInit l = Some e0 /\ e = ErrWrap "init loader" e0)
  \/ (errInit l = None
      /\ exists e1,
           e = ErrWrap "load config" e1
           /\ (parseFlags l = Err e1
               \/ (exists stage e2, In stage stages /\ e1 = ErrWrap stage e2)
               \/ exists names, e1 = ErrFieldsRequired names)).
Proof.
  unfold Load. destruct (errInit l) as [e0|].
  - intros H. injection H as <-. left. eauto.
  - intros H. right. split; [reflexivity|].
    apply wrapErr_Err in H as (e1 & H & ->). exists e1. split; [reflexivity|].
    unfold loadConfig in H.
    apply bind_Err in H as [H|(l0 & _ & H)]; [now left|]. right.
    apply bind_Err in H as [H|(l1 & _ & H)].
    + left. unfold loadSources in H.
      apply bind_Err in H as [H|(a & _ & H)].
      { apply stage_Err in H as [e2 ->]. exists "load defaults", e2.
        split; [unfold stages; simpl; auto 10 | reflexivity]. }
      apply bind_Err in H as [H|(b & _ & H)].
      { apply stage_Err in H as [e2 ->]. exists "load files", e2.
        split; [unfold stages; simpl; auto 10 | reflexivity]. }
      apply bind_Err in H as [H|(c0 & _ & H)].
      { apply stage_Err in H as [e2 ->]. exists "load environment", e2.
        split; [unfold stages; simpl; auto 10 | reflexivity]. }
      apply bind_Err in H as [H|(d & _ & H)].
      { apply stage_Err in H as [e2 ->]. exists "load flags", e2.
        split; [unfold stages; simpl; auto 10 | reflexivity]. }
      destruct (NewParser (config d)); [|discriminate].
      destruct (parser d) as [p|]; [|discriminate].
      apply bind_Err in H as [H|(x & _ & H)]; [|discriminate].
      apply wrapErr_Err in H as (e2 & _ & ->).
      exists "apply", e2.
      split; [unfold stages; simpl; auto 10 | reflexivity].
    + right. apply bind_Err in H as [H|(u & _ & H)]; [|discriminate].
      unfold checkRequired in H.
      destruct (missedFields _ _); [discriminate|].
      injection H as <-. eauto.
Qed.

(** ** Cells behind pointers *)

Lemma unwrapPointers_kind (t : rtype) :
  forall x n, kindOf (fst (fst (unwrapPointers t x n))) <> Ptr.
Proof.
  induction t as [b| |ms|e IHe|k IHk e IHe|e IHe]; intros x n; simpl;
    try discriminate.
  - now destruct b.
  - destruct x as [| | | | | | | | |[y|]|]; apply IHe.
Qed.

Lemma unwrap_kind (v : Value) : kindOf (vtype (unwrap v)) <> Ptr.
Proof.
  unfold unwrap. destruct (vtype v) as [b| |ms|e|k e|e] eqn:Et;
    try (rewrite Et; simpl; try discriminate; now destruct b).
  pose proof (unwrapPointers_kind (TPtr e) (vdata v) (vptrs v)) as H.
  destruct (unwrapPointers (TPtr e) (vdata v) (vptrs v)) as [[t x] n].
  exact H.
Qed.

(** X24. [setFieldData] on a pointer cell is [setFieldData] on the cell
    behind the pointers: for any value but nil the outcome is the one for
    the descriptor whose handle was moved behind the pointers beforehand,
    nil pointers on the way having been allocated, and that cell is no
    pointer. *)
Theorem setFieldData_through_pointers (c : Config) (f : fieldData) (v : any) :
  v <> ANil ->
  let behind := setValue f (unwrap (value f)) in
  setFieldData c f v = setFieldData c behind v
  /\ kindOf (vtype (value behind)) <> Ptr
  /\ sameDescriptor f behind.
Proof.
  intros Hv behind.
  assert (Hk : kindOf (vtype (value behind)) <> Ptr) by apply unwrap_kind.
  split; [|split; [exact Hk | repeat split]].
  rewrite !setFieldData_unfold. unfold setFieldDataBody.
  destruct v as [|s|s|xs|m|m]; [now destruct Hv| | | | |];
    rewrite (unwrap_not_pointer (value behind) Hk), (setValue_value behind);
    reflexivity.
Qed.

End Engine.

Arguments Loader : clear implicits.
Arguments mkLoader {structParser}.
Arguments config {structParser} l.
Arguments dstType {structParser} l.
Arguments dst {structParser} l.
Arguments parser {structParser} l.
Arguments fields {structParser} l.
Arguments flagSet {structParser} l.
Arguments errInit {structParser} l.

(** * Examples *)

Module Example.

(** Collaborators for the examples: names are joined with dots, a key is
    the declared one or else the field name, upper-cased under [env] and
    lower-cased elsewhere; numbers are decimal; nothing decodes itself;
    the environment is a list of [KEY=value] and the arguments a list of
    [-name=value]. *)
Definition exMakeName (n : string) (p : option fieldData) : string :=
  match p with
  | Some q => String.append (name q) (String.append "." n)
  | None => n
  end.

Definition exSplitNameByWords (n : string) : list string := [n].

Fixpoint ToUpper (s : string) : string :=
  match s with
  | EmptyString => EmptyString
  | String.String ch s' => String.String (toUpper ch) (ToUpper s')
  end.

Definition exMakeTagValue (c : Config) (sf : StructField) (tag : string)
  (words : list string) : string :=
  match sf_Tag sf !! tag with
  | Some v => v
  | None => if String.eqb tag "env" then ToUpper (sf_Name sf)
            else ToLower (sf_Name sf)
  end.

Definition exIsPrimitive (t : rtype) : bool := scalarKind (kindOf t).

Definition exSliceToString (c : Config) (v : any) : string :=
  match v with AString s => s | _ => EmptyString end.

Definition exSprintComposite (v : any) : string := EmptyString.

Fixpoint digits (s : string) (acc : Z) : option Z :=
  match s with
  | EmptyString => Some acc
  | String.String ch s' =>
      if isDigit ch
      then digits s' (10 * acc + Z.of_nat (nat_of_ascii ch - 48))
      else None
  end.

Definition exParseInt (s : string) (bits : nat) : error + Z :=
  match s, digits s 0 with
  | String.String _ _, Some z => inr z
  | _, _ => inl (ErrExternal "strconv.ParseInt" s)
  end.

Definition exParseFloat (s : string) (bits : nat) : error + Z :=
  inl (ErrExternal "strconv.ParseFloat" s).

Definition exParseDuration (s : string) : error + Z :=
  inl (ErrExternal "time.ParseDuration" s).

Definition exTextUnmarshaler (t : rtype)
  : option (string -> rvalue -> error + rvalue) := None.

Definition exFind (m : gmap string any) (key : string) : gmap string any := m.

Definition exGetEnv (envs : list string) : gmap string any :=
  foldl (fun m s => let '(k, v, ok) := cut s "=" in
                    if ok then <[k := AString v]> m else m) ∅ envs.

Definition exFlagParse (fs : FlagSet) (args : list string) : error + FlagSet :=
  inr (mkFlagSet (flagSetName fs) (formal fs) true args).

Definition exGetFlags (fs : FlagSet) : gmap string any :=
  exGetEnv (map (drop 1) (parsedArgs fs)).

Definition exGetActualFlag (flagName : string) (fs : FlagSet) : option string :=
  match exGetFlags fs !! flagName with
  | Some (AString s) => Some s
  | _ => None
  end.

Definition exAssertStruct (t : rtype) (x : rvalue) : option string := None.

Definition exNotExist (file : string) : bool :=
  negb (String.eqb file "config.json").

Definition exJsonDecoder : FileDecoder :=
  mkFileDecoder "json"
    (fun _ => Ok (list_to_map [("host", AString "jhost");
                               ("port", AString "8080")])).

Definition exParser : Type := unit.
Definition exNewStructParser (c : Config) : exParser := tt.
Definition exParseStruct (p : exParser) (t : rtype) (x : rvalue)
  : error + exParser := inr tt.
Definition exParserFlagSet (p : exParser) : FlagSet := NewFlagSet EmptyString.
Definition exApplyMap (p : exParser) (tag : string) (m : gmap string any)
  : error + exParser := inr tt.
Definition exApply (p : exParser) (t : rtype) (x : rvalue) : error + rvalue :=
  inr x.

(** A theorem or a function of the engine at the collaborators above. *)
Abbreviation atEngine T :=
  (T exMakeName exSplitNameByWords exMakeTagValue exIsPrimitive
     exSliceToString exSprintComposite exParseInt exParseInt exParseFloat
     exParseDuration exTextUnmarshaler).

Abbreviation exSetFieldData :=
  (setFieldData exMakeName exSplitNameByWords exMakeTagValue exIsPrimitive
     exSliceToString exSprintComposite exParseInt exParseInt exParseFloat
     exParseDuration exTextUnmarshaler).

Abbreviation exLoaderFor :=
  (LoaderFor exMakeName exSplitNameByWords exMakeTagValue exAssertStruct [] []
     exJsonDecoder exParser exNewStructParser exParseStruct exParserFlagSet).

Abbreviation exLoad :=
  (Load exMakeName exSplitNameByWords exMakeTagValue exIsPrimitive
     exSliceToString exSprintComposite exParseInt exParseInt exParseFloat
     exParseDuration exTextUnmarshaler exFind exGetEnv exGetFlags
     exGetActualFlag exFlagParse exNotExist exParser exApplyMap exApplyMap
     exApply).

Definition decl (n : string) (tags : list (string * string)) : FieldDecl :=
  mkFieldDecl n (list_to_map tags) false true.

(** [struct { Host string `default:"dhost"`; Port int `default:"80"` }] *)
Definition serverType : rtype :=
  TStruct [(decl "Host" [("default", "dhost")], TBasic BString);
           (decl "Port" [("default", "80")], TBasic BInt)].

Definition serverConfig : Config :=
  withSources zeroConfig ["config.json"] (Some ["HOST=ehost"])
    (Some ["-host=fhost"]) ∅ EmptyString.

Definition okOr {A : Type} (d : A) (r : result A) : A :=
  match r with Ok a => a | _ => d end.

Definition noLoader : Loader exParser :=
  mkLoader zeroConfig (TStruct []) (VStruct []) None [] None None.

(** The loader for a zero [server] after [LoaderFor], after [parseFlags]
    and after [loadSources]. *)
Definition serverLoader : Loader exParser :=
  Eval vm_compute in
    okOr noLoader (exLoaderFor (TPtr serverType)
                     (VPtr (Some (zero serverType))) serverConfig).

Definition serverParsed : Loader exParser :=
  Eval vm_compute in okOr noLoader (parseFlags exFlagParse exParser serverLoader).

Abbreviation exLoadSources :=
  (atEngine loadSources exFind exGetEnv exGetFlags exGetActualFlag exNotExist
     exParser exApplyMap exApplyMap exApply).

Definition serverLoaded : Loader exParser :=
  Eval vm_compute in okOr noLoader (exLoadSources serverParsed).

Definition serverDefaults : Loader exParser :=
  Eval vm_compute in
    okOr noLoader (atEngine loadDefaults exParser serverParsed).

Definition serverFlags : FlagSet :=
  Eval vm_compute in default (NewFlagSet EmptyString) (flagSet serverParsed).

Definition serverHost : fieldData :=
  Eval vm_compute in default exampleParent (fields serverParsed !! 0%nat).

Definition serverPort : fieldData :=
  Eval vm_compute in default exampleParent (fields serverParsed !! 1%nat).


(** [struct { Token string `required:"true"`; Name string `required:"true"`;
    Port int `default:"80"` }], loaded with no file, an empty environment
    and no arguments. *)
Definition accountType : rtype :=
  TStruct [(decl "Token" [("required", "true")], TBasic BString);
           (decl "Name" [("required", "true")], TBasic BString);
           (decl "Port" [("default", "80")], TBasic BInt)].

Definition noSources : Config :=
  withSources zeroConfig [] (Some []) (Some []) ∅ EmptyString.

Definition accountLoader : Loader exParser :=
  Eval vm_compute in
    okOr noLoader (exLoaderFor (TPtr accountType)
                     (VPtr (Some (zero accountType))) noSources).

Definition accountParsed : Loader exParser :=
  Eval vm_compute in okOr noLoader (parseFlags exFlagParse exParser accountLoader).

Definition accountLoaded : Loader exParser :=
  Eval vm_compute in okOr noLoader (exLoadSources accountParsed).

Definition accountToken : fieldData :=
  Eval vm_compute in default exampleParent (fields accountLoaded !! 0%nat).

(** Both required fields are missing, and the one error names both. *)
Lemma Load_required_fields_witness :
  exLoad accountLoader
  = Err (ErrWrap "load config" (ErrFieldsRequired "Token,Name")).
Proof.
  assert (H1 : parseFlags exFlagParse exParser accountLoader = Ok accountParsed)
    by (vm_compute; reflexivity).
  assert (H2 : exLoadSources accountParsed = Ok accountLoaded)
    by (vm_compute; reflexivity).
  destruct (atEngine Load_required_fields exFind exGetEnv exGetFlags
              exGetActualFlag exFlagParse exNotExist exParser exApplyMap
              exApplyMap exApply accountLoader accountParsed accountLoaded
              eq_refl H1 H2) as (_ & Hsome & _).
  rewrite Hsome; [vm_compute; reflexivity|].
  exists accountToken. split; [left; vm_compute; reflexivity|].
  split; [reflexivity | left; reflexivity].
Defined.

(** [struct { A string `env:"X"`; B string `env:"X"` }]: two fields that
    resolve to the one environment key [X]. *)
Definition pairType : rtype :=
  TStruct [(decl "A" [("env", "X")], TBasic BString);
           (decl "B" [("env", "X")], TBasic BString)].

Definition withEnvs (c : Config) (envs : list string) : Config :=
  withSources c [] (Some envs) (Some []) ∅ EmptyString.

Definition allowingDuplicates (c : Config) : Config :=
  mkConfig (NewParser c) (SkipDefaults c) (SkipFiles c) (SkipEnv c)
    (SkipFlags c) (EnvPrefix c) (FlagPrefix c) (envDelimiter c)
    (FlagDelimiter c) (AllFieldRequired c) true (AllowUnknownFields c)
    (AllowUnknownEnvs c) (AllowUnknownFlags c) (DontGenerateTags c)
    (FailOnFileNotFound c) (MergeFiles c) (FileFlag c) (Files c) (Envs c)
    (Args c) (FileDecoders c) (SliceSeparator c).

Definition loaderOf (t : rtype) (c : Config) : Loader exParser :=
  okOr noLoader (exLoaderFor (TPtr t) (VPtr (Some (zero t))) c).

Abbreviation exLoadEnvironment :=
  (atEngine loadEnvironment exGetEnv exParser exApplyMap).

(** The pair with [X] set in the environment, duplicates not allowed. *)
Definition pairLoader : Loader exParser :=
  Eval vm_compute in loaderOf pairType (withEnvs zeroConfig ["X=shared"]).

(** The pair with an empty environment, duplicates not allowed. *)
Definition pairNoEnvLoader : Loader exParser :=
  Eval vm_compute in loaderOf pairType (withEnvs zeroConfig []).

(** The pair with [X] set in the environment, duplicates allowed. *)
Definition pairAllowedLoader : Loader exParser :=
  Eval vm_compute in
    loaderOf pairType (allowingDuplicates (withEnvs zeroConfig ["X=shared"])).

Definition pairAllowedLoaded : Loader exParser :=
  Eval vm_compute in okOr noLoader (exLoadEnvironment pairAllowedLoader).

Definition pairA : fieldData :=
  Eval vm_compute in default exampleParent (fields pairLoader !! 0%nat).
Definition pairB : fieldData :=
  Eval vm_compute in default exampleParent (fields pairLoader !! 1%nat).

(** With an empty environment the second field of the pair still meets
    the duplicate error. *)
Lemma duplicate_key_recorded_before_lookup_witness :
  exGetEnv [] !! "X" = None
  /\ exLoadEnvironment pairNoEnvLoader = Err (ErrDuplicated "X").
Proof.
  split; [reflexivity|].
  destruct (atEngine duplicate_key_recorded_before_lookup exGetEnv exGetFlags
              exParser exApplyMap pairNoEnvLoader eq_refl eq_refl)
    as (_ & _ & Henv & _).
  eapply (Henv 0%nat 1%nat pairA pairB "X");
    [lia | reflexivity | reflexivity | reflexivity | reflexivity
     | discriminate | vm_compute; reflexivity].
Defined.


(** [struct { Foo string }] under the environment prefix [APP], with
    [APP_FOO] set in the environment. *)
Definition fooType : rtype := TStruct [(decl "Foo" [], TBasic BString)].

Definition withEnvPrefix (c : Config) (prefix : string) : Config :=
  mkConfig (NewParser c) (SkipDefaults c) (SkipFiles c) (SkipEnv c)
    (SkipFlags c) prefix (FlagPrefix c) (envDelimiter c)
    (FlagDelimiter c) (AllFieldRequired c) (AllowDuplicates c)
    (AllowUnknownFields c) (AllowUnknownEnvs c) (AllowUnknownFlags c)
    (DontGenerateTags c) (FailOnFileNotFound c) (MergeFiles c) (FileFlag c)
    (Files c) (Envs c) (Args c) (FileDecoders c) (SliceSeparator c).

Definition fooConfig : Config :=
  withEnvPrefix (withEnvs zeroConfig ["APP_FOO=bar"]) "APP".

Definition fooLoader : Loader exParser :=
  Eval vm_compute in loaderOf fooType fooConfig.

Definition fooAllowedLoader : Loader exParser :=
  Eval vm_compute in loaderOf fooType (allowingDuplicates fooConfig).

(** C6 at an input where the code departs from it. The variable [APP_FOO]
    is the key of the field [Foo]. With duplicates not allowed the load
    succeeds and [Foo] holds its value; with duplicates allowed, and
    nothing else changed, the load fails and reports that same variable
    as unknown, though unknown variables are checked, a prefix is set, and
    no variable but the one the field was set from exists. *)
Theorem known_variable_reported_unknown :
  (exists f, fields fooAllowedLoader = [f]
             /\ fullTag (config fooAllowedLoader)
                  (EnvPrefix (config fooAllowedLoader)) f "env" = "APP_FOO")
  /\ AllowUnknownEnvs (config fooAllowedLoader) = false
  /\ exGetEnv (default [] (Envs (config fooAllowedLoader)))
     = {["APP_FOO" := AString "bar"]}
  /\ (exists l, exLoad fooLoader = Ok l
                /\ map (fun f => vdata (value f)) (fields l) = [VString "bar"])
  /\ exLoad fooAllowedLoader
     = Err (ErrWrap "load config"
              (ErrWrap "load environment" (ErrUnknownEnv "APP_FOO"))).
Proof.
  split; [|split; [|split; [|split]]].
  - eexists. split; reflexivity.
  - reflexivity.
  - vm_compute. reflexivity.
  - eexists. split; vm_compute; reflexivity.
  - vm_compute. reflexivity.
Qed.

(** An empty string leaves the [Host] cell and its mark as they are. *)
Lemma setFieldData_no_value_witness :
  kindOf (vtype (value serverHost)) = String
  /\ exSetFieldData serverConfig serverHost (AString EmptyString) = Ok serverHost.
Proof.
  split; [reflexivity|].
  apply (atEngine setFieldData_no_value); [discriminate | now right].
Defined.

(** A descriptor on a cell of type [struct { Foo string }], as the walk
    of a slice of such structs makes for every element. *)
Definition fooCell : fieldData :=
  mkFieldData EmptyString None noStructField
    (cellOf fooType (zero fooType)) false false ∅.

(** C8 fails for the key [FOO]: it equals the member name [Foo] when letter
    case is ignored, and is rejected, whereas the key [foo] is assigned. *)
Lemma m2s_is_case_sensitive :
  ToLower "FOO" = ToLower "Foo"
  /\ FieldByName [(decl "Foo" [], TBasic BString)] "Foo"
     = Some (0%nat, decl "Foo" [], TBasic BString)
  /\ exSetFieldData zeroConfig fooCell (AMapSI [("FOO", AString "x")])
     = Err (ErrNoSuchField "FOO")
  /\ exists g, exSetFieldData zeroConfig fooCell (AMapSI [("foo", AString "x")])
               = Ok g
               /\ vdata (value g) = VStruct [VString "x"].
Proof.
  split; [reflexivity|]. split; [reflexivity|]. split; [reflexivity|].
  eexists. split; vm_compute; reflexivity.
Qed.

(** The key [bar] names no member of the struct once it is titled. *)
Lemma m2s_matches_titled_keys_witness :
  Title "bar" = "Bar"
  /\ exSetFieldData zeroConfig fooCell
       (AMapSI [("foo", AString "x"); ("bar", AString "y")])
     = Err (ErrNoSuchField "Bar").
Proof.
  split; [reflexivity|].
  destruct (atEngine m2s_matches_titled_keys zeroConfig fooCell
              [(decl "Foo" [], TBasic BString)] [VString EmptyString]
              [("foo", AString "x"); ("bar", AString "y")]
              eq_refl eq_refl eq_refl eq_refl) as (_ & _ & _ & _ & Hunmatched).
  destruct (Hunmatched 1%nat "bar" (AString "y") eq_refl eq_refl) as [_ Hreach].
  eapply Hreach. vm_compute. reflexivity.
Defined.

(** [struct { Inner *struct { Level int } }] whose pointer is set and whose
    pointee holds 7. *)
Definition innerMembers : list (FieldDecl * rtype) :=
  [(decl "Level" [], TBasic BInt)].

Definition outerMembers : list (FieldDecl * rtype) :=
  [(decl "Inner" [], TPtr (TStruct innerMembers))].

Definition outerValue : rvalue := VStruct [VPtr (Some (VStruct [VInt 7]))].

Abbreviation exGetFieldsHelper :=
  (getFieldsHelper exMakeName exSplitNameByWords exMakeTagValue).

Definition outerWalked : list fieldData * rvalue :=
  Eval vm_compute in
    okOr ([], VOpaque)
      (exGetFieldsHelper zeroConfig (TStruct outerMembers) outerValue true None).

(** After the walk the pointer is to a zero struct: the 7 is gone. *)
Lemma getFieldsHelper_allocates_pointers_witness :
  snd outerWalked = VStruct [VPtr (Some (VStruct [VInt 0]))].
Proof.
  assert (H : exGetFieldsHelper zeroConfig (TStruct outerMembers) outerValue
                true None = Ok (fst outerWalked, snd outerWalked))
    by (vm_compute; reflexivity).
  destruct (getFieldsHelper_allocates_pointers exMakeName exSplitNameByWords
              exMakeTagValue zeroConfig outerMembers innerMembers outerValue
              (snd outerWalked) None (fst outerWalked) 0%nat (decl "Inner" [])
              H eq_refl eq_refl) as [(out & Hout & Hi) Hflat].
  rewrite Hflat in Hi by (repeat constructor).
  rewrite Hout. destruct out as [|v [|w out]]; try discriminate.
  injection Hi as ->. reflexivity.
Defined.

(** ** Examples for the further properties *)

(** The descriptor at position [i] of the loader for a zero [t]. *)
Definition fieldOf (t : rtype) (i : nat) : fieldData :=
  default exampleParent (fields (loaderOf t (withEnvs zeroConfig [])) !! i).

Definition plainConfig : Config :=
  Eval vm_compute in config (loaderOf (TStruct []) (withEnvs zeroConfig [])).

(** [Host] set from the string [h]. *)
Definition hostSet : fieldData :=
  Eval vm_compute in
    okOr serverHost (exSetFieldData serverConfig serverHost (AString "h")).

Lemma setFieldData_changes_the_cell_only_witness :
  exSetFieldData serverConfig serverHost (AString "h") = Ok hostSet
  /\ name hostSet = name serverHost /\ tags hostSet = tags serverHost
  /\ vdata (value hostSet) = VString "h".
Proof.
  assert (H : exSetFieldData serverConfig serverHost (AString "h") = Ok hostSet)
    by (vm_compute; reflexivity).
  destruct (atEngine setFieldData_changes_the_cell_only serverConfig serverHost
              hostSet (AString "h") H) as (Hn & _ & _ & _ & _ & Ht & _).
  split; [exact H|]. split; [exact Hn|]. split; [exact Ht | reflexivity].
Defined.

(** [struct { Limit *int; Wait *time.Duration; Every time.Duration;
    Raw []byte; Tags []string; Labels map[string]string; Done chan int }] *)
Definition settingsType : rtype :=
  TStruct [(decl "Limit" [], TPtr (TBasic BInt));
           (decl "Wait" [], TPtr TDuration);
           (decl "Every" [], TDuration);
           (decl "Raw" [], TSlice (TBasic BUint8));
           (decl "Tags" [], TSlice (TBasic BString));
           (decl "Labels" [], TMap (TBasic BString) (TBasic BString));
           (decl "Done" [], TBasic BChan)].

Definition settingsLimit : fieldData := Eval vm_compute in fieldOf settingsType 0.
Definition settingsWait : fieldData := Eval vm_compute in fieldOf settingsType 1.
Definition settingsEvery : fieldData := Eval vm_compute in fieldOf settingsType 2.
Definition settingsRaw : fieldData := Eval vm_compute in fieldOf settingsType 3.
Definition settingsTags : fieldData := Eval vm_compute in fieldOf settingsType 4.
Definition settingsLabels : fieldData := Eval vm_compute in fieldOf settingsType 5.
Definition settingsDone : fieldData := Eval vm_compute in fieldOf settingsType 6.

(** The nil [Limit] points to a zero after the pass over the defaults. *)
Lemma empty_string_allocates_nil_pointer_witness :
  stored (value settingsLimit) = VPtr None
  /\ exists g, atEngine loadDefault plainConfig settingsLimit = Ok g
               /\ stored (value g) = VPtr (Some (VInt 0)) /\ isSet g = false.
Proof.
  destruct (atEngine empty_string_allocates_nil_pointer plainConfig
              settingsLimit (TBasic BInt) eq_refl)
    as (_ & _ & Hnil & Hfresh & Hdefault); [discriminate | reflexivity |].
  split; [exact Hnil|].
  eexists. split; [apply Hdefault; reflexivity|]. split; [exact Hfresh|].
  reflexivity.
Defined.

(** [Wait], declared [*time.Duration], takes the integer [15]; [Every],
    declared [time.Duration], is parsed as a duration, which the example
    parser refuses. *)
Lemma duration_is_told_by_the_declared_type_witness :
  (exists g, exSetFieldData plainConfig settingsWait (AString "15") = Ok g
             /\ stored (value g) = VPtr (Some (VInt 15)))
  /\ exSetFieldData plainConfig settingsEvery (AString "15")
     = Err (ErrExternal "time.ParseDuration" "15").
Proof.
  destruct (atEngine duration_is_told_by_the_declared_type plainConfig
              settingsWait "15" eq_refl) as [_ Hwait]; [discriminate|].
  destruct (atEngine duration_is_told_by_the_declared_type plainConfig
              settingsEvery "15" eq_refl) as [Hevery _]; [discriminate|].
  split.
  - eexists. split; [apply Hwait; [discriminate | reflexivity]|]. reflexivity.
  - rewrite Hevery by reflexivity. reflexivity.
Defined.

(** [Tags] from the text [a, b ,c]. *)
Lemma setSlice_stores_witness :
  SliceSeparator plainConfig = ","
  /\ exists g,
       setSlice exMakeName exSplitNameByWords exMakeTagValue plainConfig
         (exSetFieldData plainConfig) settingsTags "a, b ,c" = Ok g
       /\ vdata (value g) = VSlice (Some [VString "a"; VString "b"; VString "c"]).
Proof.
  split; [reflexivity|].
  destruct (atEngine setSlice_stores plainConfig settingsTags "a, b ,c")
    as [_ Htags].
  eexists. split; [apply Htags; reflexivity|]. reflexivity.
Defined.

(** The text [a:1,b] for [Labels]: the second item has no colon. *)
Lemma setMap_item_without_colon_witness :
  Split "a:1,b" "," = ["a:1"; "b"]
  /\ isOk (setMap exMakeName exSplitNameByWords exMakeTagValue exSprintComposite
             plainConfig (exSetFieldData plainConfig) settingsLabels "a:1,b")
     = false.
Proof.
  split; [reflexivity|].
  apply (setMap_item_without_colon exMakeName exSplitNameByWords exMakeTagValue
           exSprintComposite plainConfig (exSetFieldData plainConfig)
           settingsLabels "a:1,b" 1 "b"); reflexivity.
Defined.

(** [struct { Foo string; Bar string }] holding [f0] and [b0]; the mapping
    names [foo] only. *)
Definition twoMembers : list (FieldDecl * rtype) :=
  [(decl "Foo" [], TBasic BString); (decl "Bar" [], TBasic BString)].

Definition twoCell : Value :=
  cellOf (TStruct twoMembers) (VStruct [VString "f0"; VString "b0"]).

Abbreviation exM2s :=
  (m2s exMakeName exSplitNameByWords exMakeTagValue).

Definition twoAssigned : Value :=
  Eval vm_compute in
    okOr twoCell (exM2s plainConfig (exSetFieldData plainConfig)
                    [("foo", AString "x")] twoCell).


(** A string for a cell that is a struct. *)
Lemma setFieldData_wrong_shape_panics_witness :
  exists msg, exSetFieldData plainConfig fooCell (AString "x") = Panic msg.
Proof.
  destruct (atEngine setFieldData_wrong_shape_panics plainConfig fooCell
              (AString "x") eq_refl) as [Hstruct _].
  apply Hstruct; [reflexivity | discriminate].
Defined.

(** [struct { Inner *struct { Level int }; Base; Name string }], where
    [Base] is the embedded [struct { ID string }]. *)
Definition baseMembers : list (FieldDecl * rtype) :=
  [(decl "ID" [], TBasic BString)].

Definition nestedType : rtype :=
  TStruct [(decl "Inner" [], TPtr (TStruct innerMembers));
           (mkFieldDecl "Base" ∅ true true, TStruct baseMembers);
           (decl "Name" [], TBasic BString)].

Abbreviation exGetFields :=
  (getFields exMakeName exSplitNameByWords exMakeTagValue).

Definition nestedWalked : list fieldData * rvalue :=
  Eval vm_compute in
    okOr ([], VOpaque)
      (exGetFields plainConfig (TPtr nestedType) (VPtr (Some (zero nestedType)))).

Definition nestedLevel : fieldData :=
  Eval vm_compute in default exampleParent (fst nestedWalked !! 0%nat).
Definition nestedID : fieldData :=
  Eval vm_compute in default exampleParent (fst nestedWalked !! 1%nat).
Definition nestedInner : fieldData :=
  Eval vm_compute in default exampleParent (parent nestedLevel).

Lemma nestedWalked_eq :
  exGetFields plainConfig (TPtr nestedType) (VPtr (Some (zero nestedType)))
  = Ok (fst nestedWalked, snd nestedWalked).
Proof. vm_compute. reflexivity. Qed.

(** The walk lists [Level], [ID] and [Name], not [Inner] nor [Base]. *)
Lemma getFields_returns_leaves_witness :
  map name (fst nestedWalked) = ["Inner.Level"; "ID"; "Name"]
  /\ exists ft, sf_Type (field nestedLevel) = Some ft /\ kindOf ft <> Struct.
Proof.
  split; [reflexivity|].
  destruct (getFields_returns_leaves exMakeName exSplitNameByWords exMakeTagValue
              plainConfig (TPtr nestedType) (VPtr (Some (zero nestedType)))
              (snd nestedWalked) (fst nestedWalked) nestedLevel nestedWalked_eq)
    as (ft & Hft & Hk & _); [now left|].
  exists ft. auto.
Defined.

(** [Level] has the parent [Inner]; [ID], of the embedded [Base], has
    none. *)
Lemma getFields_skips_embedded_parents_witness :
  ancestors nestedLevel = [nestedInner] /\ ancestors nestedID = []
  /\ sf_Anonymous (field nestedInner) = false.
Proof.
  split; [reflexivity|]. split; [reflexivity|].
  destruct (getFields_skips_embedded_parents exMakeName exSplitNameByWords
              exMakeTagValue plainConfig (TPtr nestedType)
              (VPtr (Some (zero nestedType))) (snd nestedWalked)
              (fst nestedWalked) nestedLevel nestedInner nestedWalked_eq)
    as [Hanon _]; [now left | now left | exact Hanon].
Defined.

(** [struct { A string `required:"yes"` }] *)
Definition yesMembers : list (FieldDecl * rtype) :=
  [(decl "A" [("required", "yes")], TBasic BString)].

Lemma LoaderFor_rejects_required_tag_witness :
  exists msg,
    exLoaderFor (TPtr (TStruct yesMembers))
      (VPtr (Some (zero (TStruct yesMembers)))) zeroConfig = Panic msg.
Proof.
  apply (LoaderFor_rejects_required_tag exMakeName exSplitNameByWords
           exMakeTagValue exAssertStruct [] [] exJsonDecoder exParser
           exNewStructParser exParseStruct exParserFlagSet yesMembers
           (zero (TStruct yesMembers)) zeroConfig 0
           (decl "A" [("required", "yes")]) (TBasic BString));
    (reflexivity || discriminate).
Defined.

(** The configuration of the loader for [server]. *)
Lemma LoaderFor_normalises_the_config_witness :
  SliceSeparator (config serverLoader) = ","
  /\ FlagDelimiter (config serverLoader) = "."
  /\ Format <$> (FileDecoders (config serverLoader) !! ".json") = Some "json".
Proof.
  assert (H : exLoaderFor (TPtr serverType) (VPtr (Some (zero serverType)))
                serverConfig = Ok serverLoader) by (vm_compute; reflexivity).
  destruct (LoaderFor_normalises_the_config exMakeName exSplitNameByWords
              exMakeTagValue exAssertStruct [] [] exJsonDecoder exParser
              exNewStructParser exParseStruct exParserFlagSet _ _ _ _ H)
    as (_ & Hd & _ & _ & _ & _ & Hj & _ & _ & Hs).
  split; [rewrite Hs; reflexivity|]. split; [rewrite Hd; reflexivity|].
  rewrite Hj. reflexivity.
Defined.

(** [struct { A string `flag:"x"`; B string `flag:"x"` }]: two fields of
    one flag name. *)
Definition flagPairType : rtype :=
  TStruct [(decl "A" [("flag", "x")], TBasic BString);
           (decl "B" [("flag", "x")], TBasic BString)].

Definition flagPairLoader : Loader exParser :=
  Eval vm_compute in loaderOf flagPairType (withEnvs zeroConfig []).

Definition flagPairA : fieldData :=
  Eval vm_compute in default exampleParent (fields flagPairLoader !! 0%nat).
Definition flagPairB : fieldData :=
  Eval vm_compute in default exampleParent (fields flagPairLoader !! 1%nat).

Lemma LoaderFor_stores_duplicate_flag_witness :
  exLoad flagPairLoader = Err (ErrWrap "init loader" (ErrDuplicateFlag "x")).
Proof.
  assert (H : exLoaderFor (TPtr flagPairType) (VPtr (Some (zero flagPairType)))
                (withEnvs zeroConfig []) = Ok flagPairLoader)
    by (vm_compute; reflexivity).
  destruct (atEngine LoaderFor_stores_duplicate_flag exFind exGetEnv exGetFlags
              exGetActualFlag exFlagParse exAssertStruct exNotExist [] []
              exJsonDecoder exParser exNewStructParser exParseStruct
              exParserFlagSet exApplyMap exApplyMap exApply _ _ _ _
              0%nat 1%nat flagPairA flagPairB H)
    as (k & _ & Herr & Hload);
    [reflexivity | reflexivity | reflexivity | exact Nat.lt_0_1 | reflexivity
     | reflexivity | reflexivity | discriminate |].
  rewrite Hload. injection Herr as <-. reflexivity.
Defined.

Definition flagPairWalked : list fieldData * rvalue :=
  Eval vm_compute in
    okOr ([], VOpaque)
      (exGetFields plainConfig (TPtr flagPairType)
         (VPtr (Some (zero flagPairType)))).

(** The same destination with duplicates allowed. *)
Lemma LoaderFor_panics_on_shared_flag_witness :
  exists msg,
    exLoaderFor (TPtr flagPairType) (VPtr (Some (zero flagPairType)))
      (allowingDuplicates (withEnvs zeroConfig [])) = Panic msg.
Proof.
  apply (LoaderFor_panics_on_shared_flag exMakeName exSplitNameByWords
           exMakeTagValue exAssertStruct [] [] exJsonDecoder exParser
           exNewStructParser exParseStruct exParserFlagSet
           (TPtr flagPairType) (VPtr (Some (zero flagPairType)))
           (snd flagPairWalked) (allowingDuplicates (withEnvs zeroConfig []))
           (fst flagPairWalked) 0%nat 1%nat flagPairA flagPairB);
    first [discriminate | exact Nat.lt_0_1 | vm_compute; reflexivity].
Defined.

Definition serverFinal : Loader exParser :=
  Eval vm_compute in okOr noLoader (exLoad serverLoader).

(** After [Load] the loader for [server] has the fields [Host] and [Port]
    it had. *)
Lemma Load_keeps_the_descriptors_witness :
  map name (fields serverLoader) = ["Host"; "Port"]
  /\ length (fields serverFinal) = 2%nat
  /\ exists f', fields serverFinal !! 1%nat = Some f' /\ name f' = "Port".
Proof.
  assert (H : exLoad serverLoader = Ok serverFinal) by (vm_compute; reflexivity).
  destruct (atEngine Load_keeps_the_descriptors exFind exGetEnv exGetFlags
              exGetActualFlag exFlagParse exNotExist exParser exApplyMap
              exApplyMap exApply serverLoader serverFinal H) as [Hlen Hfields].
  split; [reflexivity|]. split; [exact Hlen|].
  destruct (fields serverFinal !! 1%nat) as [f'|] eqn:E; [|discriminate].
  destruct (Hfields 1%nat f' E) as (f & Hf & Hname & _).
  exists f'. split; [reflexivity|]. rewrite Hname.
  injection Hf as <-. reflexivity.
Defined.

(** [Host] has the default [dhost]: it is set after the passes. *)
Lemma default_counts_as_set_witness :
  Tag serverHost "default" = "dhost"
  /\ exists f', fields serverLoaded !! 0%nat = Some f' /\ isSet f' = true.
Proof.
  split; [reflexivity|].
  assert (H : exLoadSources serverParsed = Ok serverLoaded)
    by (vm_compute; reflexivity).
  destruct (atEngine default_counts_as_set exFind exGetEnv exGetFlags
              exGetActualFlag exNotExist exParser exApplyMap exApplyMap exApply
              serverParsed serverLoaded eq_refl eq_refl H) as [Hset _].
  destruct (Hset 0%nat serverHost eq_refl) as (f' & Hf' & Hs & _);
    [discriminate|].
  exists f'. auto.
Defined.

Abbreviation exLoadFilesFrom :=
  (atEngine loadFilesFrom exFind exNotExist exParser exApplyMap).

Abbreviation exLoadFile :=
  (atEngine loadFile exFind exParser exApplyMap).

(** Of the files [a.json], [config.json] and [b.json] the second is the
    one that exists, and is the one loaded. *)
Lemma loadFilesFrom_selects_witness :
  exNotExist "a.json" = true /\ exNotExist "config.json" = false
  /\ exLoadFilesFrom serverParsed ["a.json"; "config.json"; "b.json"]
     = exLoadFile serverParsed "config.json".
Proof.
  split; [reflexivity|]. split; [reflexivity|].
  destruct (atEngine loadFilesFrom_selects exFind exNotExist exParser exApplyMap
              serverParsed ["a.json"] ["config.json"; "b.json"] "config.json")
    as ([Hskip _] & _ & _); [repeat constructor | reflexivity |].
  destruct (atEngine loadFilesFrom_selects exFind exNotExist exParser exApplyMap
              serverParsed [] ["b.json"] "config.json")
    as (_ & _ & Hfirst); [constructor|].
  change ["a.json"; "config.json"; "b.json"]
    with (["a.json"] ++ ["config.json"; "b.json"]).
  rewrite Hskip. apply Hfirst; reflexivity.
Defined.

(** A configuration with the files [other.json], the file flag [config]
    and the arguments [-config=config.json]. *)
Definition fileFlagConfig : Config :=
  mkConfig false false false false false EmptyString EmptyString EmptyString
    EmptyString false false false false false false false false "config"
    ["other.json"] (Some []) (Some ["-config=config.json"]) ∅ EmptyString.

Definition fileFlagLoader : Loader exParser :=
  Eval vm_compute in
    okOr noLoader (parseFlags exFlagParse exParser
                     (loaderOf serverType fileFlagConfig)).

Definition fileFlagSet : FlagSet :=
  Eval vm_compute in default (NewFlagSet EmptyString) (flagSet fileFlagLoader).

Abbreviation exLoadFiles :=
  (atEngine loadFiles exFind exGetActualFlag exNotExist exParser exApplyMap).

(** The file that the flag names is loaded, [other.json] is not. *)
Lemma loadFiles_with_file_flag_witness :
  Files (config fileFlagLoader) = ["other.json"]
  /\ exGetActualFlag "config" fileFlagSet = Some "config.json"
  /\ exLoadFiles fileFlagLoader
     = exLoadFilesFrom
         (withConfig exParser fileFlagLoader
            (withFiles (config fileFlagLoader) ["config.json"]))
         ["config.json"].
Proof.
  split; [reflexivity|]. split; [reflexivity|].
  destruct (atEngine loadFiles_with_file_flag exFind exGetActualFlag exNotExist
              exParser exApplyMap fileFlagLoader fileFlagSet)
    as [Hgiven _]; [discriminate | reflexivity |].
  destruct (Hgiven "config.json" eq_refl) as [_ Hpath].
  apply Hpath. discriminate.
Defined.

(** A configuration with the flag prefix [app] and the given arguments. *)
Definition appConfig (args : list string) : Config :=
  mkConfig false false false false false EmptyString "app" EmptyString
    EmptyString false false false false false false false false EmptyString
    [] (Some []) (Some args) ∅ EmptyString.

Definition appLoaderOf (c : Config) : Loader exParser :=
  okOr noLoader (parseFlags exFlagParse exParser (loaderOf fooType c)).

(** [Foo] with the flag [app.zzz] given, duplicates not allowed. *)
Definition appLoader : Loader exParser :=
  Eval vm_compute in appLoaderOf (appConfig ["-app.zzz=1"]).

Definition appFlags : FlagSet :=
  Eval vm_compute in default (NewFlagSet EmptyString) (flagSet appLoader).

Abbreviation exFlatField := (atEngine flatField).

Abbreviation exLoadFlags :=
  (atEngine loadFlags exGetFlags exParser exApplyMap).

Definition appLoop : gmap string any * gset string * list fieldData :=
  Eval vm_compute in
    okOr (∅, ∅, [])
      (forFields (exFlatField (config appLoader)
                    (FlagPrefix (config appLoader)) "flag")
         (fields appLoader) (exGetFlags appFlags, ∅)).

Lemma loadFlags_unknown_flag_witness :
  exGetFlags appFlags = {["app.zzz" := AString "1"]}
  /\ exists e, exLoadFlags appLoader = Err e.
Proof.
  split; [vm_compute; reflexivity|].
  destruct (atEngine loadFlags_unknown_flag exGetFlags exParser exApplyMap
              appLoader appFlags (fst appLoop) (snd appLoop))
    as [_ Hiff]; [reflexivity | reflexivity | reflexivity
                  | vm_compute; reflexivity |].
  apply Hiff. split; [reflexivity|]. split; [discriminate|].
  exists "app.zzz". split; [eexists; vm_compute; reflexivity|].
  split; [|reflexivity].
  intros f [<-|[]]. vm_compute. discriminate.
Defined.

(** [Foo] with its own flag [app.foo] given, duplicates allowed. *)
Definition appAllowedLoader : Loader exParser :=
  Eval vm_compute in
    appLoaderOf (allowingDuplicates (appConfig ["-app.foo=bar"])).

Definition appAllowedFlags : FlagSet :=
  Eval vm_compute in default (NewFlagSet EmptyString) (flagSet appAllowedLoader).

Definition appAllowedLoop : gmap string any * gset string * list fieldData :=
  Eval vm_compute in
    okOr (∅, ∅, [])
      (forFields (exFlatField (config appAllowedLoader)
                    (FlagPrefix (config appAllowedLoader)) "flag")
         (fields appAllowedLoader) (exGetFlags appAllowedFlags, ∅)).

Lemma loadFlags_allowing_duplicates_witness :
  map (fun f => vdata (value f)) (snd appAllowedLoop) = [VString "bar"]
  /\ exists k, exLoadFlags appAllowedLoader = Err (ErrUnknownFlag k).
Proof.
  split; [reflexivity|].
  destruct (atEngine loadFlags_allowing_duplicates exGetFlags exParser
              exApplyMap appAllowedLoader appAllowedFlags (fst appAllowedLoop)
              (snd appAllowedLoop) "app.foo")
    as [_ (k & Hk & _)];
    [reflexivity | reflexivity | reflexivity | vm_compute; reflexivity
     | reflexivity | discriminate | eexists; vm_compute; reflexivity
     | reflexivity |].
  exists k. exact Hk.
Defined.

Abbreviation exSetMap :=
  (setMap exMakeName exSplitNameByWords exMakeTagValue exSprintComposite).

(** [Labels] from the text [a: 1, b:2:3]. *)
Lemma setMap_of_strings_witness :
  exists g,
    exSetMap plainConfig (exSetFieldData plainConfig) settingsLabels
      "a: 1, b:2:3" = Ok g
    /\ vdata (value g)
       = VMap (Some [(VString "a", VString "1"); (VString "b", VString "2:3")]).
Proof.
  eexists. split.
  - apply (atEngine setMap_of_strings plainConfig settingsLabels "a: 1, b:2:3");
      try reflexivity.
    repeat constructor.
  - reflexivity.
Defined.

(** [Done], a channel: an error once a value is supplied. *)
Lemma setFieldData_unsupported_kind_witness :
  exSetFieldData plainConfig settingsDone (AString "x")
  = Err (ErrKindNotSupported "chan")
  /\ exSetFieldData plainConfig settingsDone (AString EmptyString)
     = Ok settingsDone.
Proof.
  split.
  - rewrite (atEngine setFieldData_unsupported_kind plainConfig settingsDone
               (AString "x") eq_refl); [reflexivity|].
    do 4 right. left. reflexivity.
  - rewrite (atEngine setFieldData_unsupported_kind plainConfig settingsDone
               (AString EmptyString) eq_refl); [reflexivity|].
    do 4 right. left. reflexivity.
Defined.


Abbreviation exNewFieldData :=
  (newFieldData exMakeName exSplitNameByWords exMakeTagValue).

(** The descriptor of [Host string `default:"dhost"`] with the JSON
    decoder registered. *)
Definition hostField : StructField :=
  structFieldOf (decl "Host" [("default", "dhost")]) (TBasic BString).

Definition hostMade : fieldData :=
  Eval vm_compute in
    okOr exampleParent
      (exNewFieldData plainConfig hostField
         (cellOf (TBasic BString) (VString EmptyString)) None).

Lemma newFieldData_Tag_witness :
  Tag hostMade "json" = "host" /\ Tag hostMade "default" = "dhost".
Proof.
  assert (H : exNewFieldData plainConfig hostField
                (cellOf (TBasic BString) (VString EmptyString)) None
              = Ok hostMade) by (vm_compute; reflexivity).
  destruct (newFieldData_Tag exMakeName exSplitNameByWords exMakeTagValue
              plainConfig hostField _ None hostMade "json" H) as [Hjson _].
  destruct (newFieldData_Tag exMakeName exSplitNameByWords exMakeTagValue
              plainConfig hostField _ None hostMade "default" H) as [_ Hdef].
  split.
  - rewrite Hjson; [reflexivity|]. right. right.
    exists ".json", exJsonDecoder. split; [vm_compute; reflexivity | reflexivity].
  - rewrite Hdef; [reflexivity | discriminate | discriminate |].
    intros (ext & dec & Hl & Hf).
    assert (Hdec : FileDecoders plainConfig = {[".json" := exJsonDecoder]})
      by (vm_compute; reflexivity).
    rewrite Hdec in Hl. apply lookup_singleton_Some in Hl as [_ <-].
    discriminate.
Defined.

(** The error of [Load] on the pair of one flag name is an
    initialisation error. *)
Lemma Load_errors_witness :
  errInit flagPairLoader = Some (ErrDuplicateFlag "x").
Proof.
  assert (H : exLoad flagPairLoader
              = Err (ErrWrap "init loader" (ErrDuplicateFlag "x")))
    by (vm_compute; reflexivity).
  destruct (atEngine Load_errors exFind exGetEnv exGetFlags exGetActualFlag
              exFlagParse exNotExist exParser exApplyMap exApplyMap exApply
              flagPairLoader _ H) as [(e0 & Hinit & He)|[Hnone _]].
  - injection He as <-. exact Hinit.
  - discriminate.
Defined.

(** [Wait] is set as the cell behind its pointer is. *)
Lemma setFieldData_through_pointers_witness :
  kindOf (vtype (value settingsWait)) = Ptr
  /\ exSetFieldData plainConfig settingsWait (AString "15")
     = exSetFieldData plainConfig
         (setValue settingsWait (unwrap (value settingsWait))) (AString "15").
Proof.
  split; [reflexivity|].
  destruct (atEngine setFieldData_through_pointers plainConfig settingsWait
              (AString "15")) as [H _]; [discriminate | exact H].
Defined.

End Example.
